(** * A shallow embedding of the sequent prover (logic_language.py, prover.py)

    Expressions are one inductive type, as the Python classes form one
    untyped algebra: nothing in the source keeps a formula out of a term
    position or forces the bound variable of a quantifier to be a
    [Variable].  The attribute [time] exists on [Variable], [Term] and
    [Functor] only; the other classes never assign it.  The class
    [Variable] is the constructor [Var], its name being a reserved word
    here.  Integers are unbounded as Python's are; the interpreter's limit
    on the depth of recursion is not part of the embedding. *)

From Stdlib Require Import String List ZArith Bool Lia.
From Stdlib Require Import DecimalString DecimalNat.
Import ListNotations.
Open Scope string_scope.
Open Scope Z_scope.

(** ** Exceptions and results

    A call of the source returns a value or raises.  [Fuel] is the third
    outcome of the embedding alone: the bound on the depth of the nested
    calls (or on the number of iterations of a loop) was reached before
    the call returned. *)

Inductive exn : Type :=
| AttributeError
| TypeError
| KeyError
| IndexError.

Inductive res (A : Type) : Type :=
| Ok (a : A)
| Raise (e : exn)
| Fuel.

Arguments Ok {A} a.
Arguments Raise {A} e.
Arguments Fuel {A}.

Definition bind {A B : Type} (m : res A) (k : A -> res B) : res B :=
  match m with
  | Ok a => k a
  | Raise e => Raise e
  | Fuel => Fuel
  end.

Notation "x <- m ;; k" := (bind m (fun x => k))
  (at level 61, m at next level, right associativity).

(** ** logic_language.py: the expression classes *)

#[warnings="-register-all"]
Inductive Expr : Type :=
| Var (name : string) (time : Z)
| Term (name : string) (time : Z)
| Functor (name : string) (terms : list Expr) (time : Z)
| Predicate (name : string) (terms : list Expr)
| Not (formula : Expr)
| And (formula1 formula2 : Expr)
| Or (formula1 formula2 : Expr)
| Implies (formula1 formula2 : Expr)
| ForAll (variable formula : Expr)
| ThereExists (variable formula : Expr).

(** [all(self.terms[i] == other.terms[i] for i in range(len(self.terms)))],
    evaluated once the lengths are known to agree. *)
Section All2.
Context {A : Type} (f : A -> A -> bool).

Fixpoint all2 (l1 l2 : list A) : bool :=
  match l1, l2 with
  | x :: l1', y :: l2' => f x y && all2 l1' l2'
  | _, _ => true
  end.
End All2.

(** [__eq__]: every leaf class tests [isinstance] first, then the fields;
    [time] is not a field that is compared. *)
Fixpoint eqb (a b : Expr) : bool :=
  match a, b with
  | Var n _, Var m _ => String.eqb n m
  | Term n _, Term m _ => String.eqb n m
  | Functor n ts _, Functor m us _ =>
      String.eqb n m && Nat.eqb (length ts) (length us) && all2 eqb ts us
  | Predicate n ts, Predicate m us =>
      String.eqb n m && Nat.eqb (length ts) (length us) && all2 eqb ts us
  | Not f, Not g => eqb f g
  | And f1 f2, And g1 g2 => eqb f1 g1 && eqb f2 g2
  | Or f1 f2, Or g1 g2 => eqb f1 g1 && eqb f2 g2
  | Implies f1 f2, Implies g1 g2 => eqb f1 g1 && eqb f2 g2
  | ForAll v f, ForAll w g => eqb v w && eqb f g
  | ThereExists v f, ThereExists w g => eqb v w && eqb f g
  | _, _ => false
  end.

(** [__str__]. [And] prints without parentheses, the other binary
    connectives and the quantifiers with them. *)
Fixpoint str (e : Expr) : string :=
  match e with
  | Var n _ => n
  | Term n _ => n
  | Functor n ts _ =>
      match ts with
      | [] => n
      | _ => n ++ "(" ++ String.concat ", " (map str ts) ++ ")"
      end
  | Predicate n ts =>
      match ts with
      | [] => n
      | _ => n ++ "(" ++ String.concat ", " (map str ts) ++ ")"
      end
  | Not f => "¬" ++ str f
  | And f1 f2 => str f1 ++ " ∧ " ++ str f2
  | Or f1 f2 => "(" ++ str f1 ++ " ∨ " ++ str f2 ++ ")"
  | Implies f1 f2 => "(" ++ str f1 ++ " → " ++ str f2 ++ ")"
  | ForAll v f => "(∀" ++ str v ++ ". " ++ str f ++ ")"
  | ThereExists v f => "(∃" ++ str v ++ ". " ++ str f ++ ")"
  end.

(** [occurs]: [False] on a [Variable], equality on a [Term], any child of a
    [Functor] or [Predicate]; a quantifier looks into its body only. *)
Fixpoint occurs (e unification_term : Expr) : bool :=
  match e with
  | Var _ _ => false
  | Term _ _ => eqb e unification_term
  | Functor _ ts _ => existsb (fun t => occurs t unification_term) ts
  | Predicate _ ts => existsb (fun t => occurs t unification_term) ts
  | Not f => occurs f unification_term
  | And f1 f2 => occurs f1 unification_term || occurs f2 unification_term
  | Or f1 f2 => occurs f1 unification_term || occurs f2 unification_term
  | Implies f1 f2 => occurs f1 unification_term || occurs f2 unification_term
  | ForAll _ f => occurs f unification_term
  | ThereExists _ f => occurs f unification_term
  end.

(** [replace]: [new if self == current], else the node rebuilt from its
    replaced children.  [Alphabet.replace] returns [self]; a rebuilt
    [Functor] comes out of [Functor.__init__], hence with [time = 0]. *)
Fixpoint replace (e current new : Expr) : Expr :=
  if eqb e current then new
  else
    match e with
    | Var _ _ => e
    | Term _ _ => e
    | Functor n ts _ => Functor n (map (fun t => replace t current new) ts) 0
    | Predicate n ts => Predicate n (map (fun t => replace t current new) ts)
    | Not f => Not (replace f current new)
    | And f1 f2 => And (replace f1 current new) (replace f2 current new)
    | Or f1 f2 => Or (replace f1 current new) (replace f2 current new)
    | Implies f1 f2 => Implies (replace f1 current new) (replace f2 current new)
    | ForAll v f => ForAll (replace v current new) (replace f current new)
    | ThereExists v f =>
        ThereExists (replace v current new) (replace f current new)
    end.

(** [set_creation_time] mutates in place; the embedding returns the
    expression as it reads afterwards.  Only [Alphabet] and [Functor]
    store the time on themselves. *)
Fixpoint set_creation_time (e : Expr) (t : Z) : Expr :=
  match e with
  | Var n _ => Var n t
  | Term n _ => Term n t
  | Functor n ts _ => Functor n (map (fun x => set_creation_time x t) ts) t
  | Predicate n ts => Predicate n (map (fun x => set_creation_time x t) ts)
  | Not f => Not (set_creation_time f t)
  | And f1 f2 => And (set_creation_time f1 t) (set_creation_time f2 t)
  | Or f1 f2 => Or (set_creation_time f1 t) (set_creation_time f2 t)
  | Implies f1 f2 => Implies (set_creation_time f1 t) (set_creation_time f2 t)
  | ForAll v f => ForAll (set_creation_time v t) (set_creation_time f t)
  | ThereExists v f =>
      ThereExists (set_creation_time v t) (set_creation_time f t)
  end.

(** The attribute access [e.time]: an [AttributeError] on the classes that
    never assign it. *)
Definition get_time (e : Expr) : res Z :=
  match e with
  | Var _ t => Ok t
  | Term _ t => Ok t
  | Functor _ _ t => Ok t
  | _ => Raise AttributeError
  end.

(** ** Python dictionaries keyed by expressions

    A [dict] keeps its entries in insertion order.  A lookup compares
    hashes, then the keys with [==]; the hash of a key is the hash of its
    printed form and equal expressions print alike, so on hashable keys the
    lookup is the first entry whose key is [==].  Assigning to a key that
    is present keeps the entry's place and its key object. *)

Section Dict.
Context {V : Type}.

Definition dict_mem (d : list (Expr * V)) (k : Expr) : bool :=
  existsb (fun kv => eqb (fst kv) k) d.

Fixpoint dict_get (d : list (Expr * V)) (k : Expr) : option V :=
  match d with
  | [] => None
  | (k', v) :: d' => if eqb k' k then Some v else dict_get d' k
  end.

Fixpoint dict_set (d : list (Expr * V)) (k : Expr) (v : V)
  : list (Expr * V) :=
  match d with
  | [] => [(k, v)]
  | (k', v') :: d' =>
      if eqb k' k then (k', v) :: d' else (k', v') :: dict_set d' k v
  end.

Fixpoint dict_del (d : list (Expr * V)) (k : Expr) : list (Expr * V) :=
  match d with
  | [] => []
  | (k', v') :: d' => if eqb k' k then d' else (k', v') :: dict_del d' k
  end.
End Dict.

(** ** prover.py: unification *)

Definition substitution : Type := list (Expr * Expr).

(** [for k, v in substitution.items(): a = a.replace(k, v)] *)
Definition apply_substitution (s : substitution) (e : Expr) : Expr :=
  fold_left (fun a kv => replace a (fst kv) (snd kv)) s e.

(** [for k, v in sub.items(): substitution[k] = v] *)
Definition merge (s sub : substitution) : substitution :=
  fold_left (fun d kv => dict_set d (fst kv) (snd kv)) sub s.

(** [isinstance(e, Term)] *)
Definition is_Term (e : Expr) : bool :=
  match e with
  | Term _ _ => true
  | _ => false
  end.

(** The two first branches of [unify], on a [Term] [t] and the other
    argument [e]: [e.occurs(t) or e.time > t.time] reads [e.time] only
    when the occurs check is negative. *)
Definition bind_term (t e : Expr) : res (option substitution) :=
  if occurs e t then Ok None
  else
    te <- get_time e ;;
    tt <- get_time t ;;
    if te >? tt then Ok None else Ok (Some [(t, e)]).

(** The loop over the argument positions, shared by [unify] (over the
    children of two nodes) and [unify_list] (over the pairs); [unify_rec]
    is the call [unify(a, b)] of the loop body. *)
Section UnifyLoop.
Variable unify_rec : Expr -> Expr -> res (option substitution).

Fixpoint unify_loop (s : substitution) (pairs : list (Expr * Expr))
  : res (option substitution) :=
  match pairs with
  | [] => Ok (Some s)
  | (term_a, term_b) :: pairs' =>
      r <- unify_rec (apply_substitution s term_a)
                     (apply_substitution s term_b) ;;
      match r with
      | None => Ok None
      | Some sub => unify_loop (merge s sub) pairs'
      end
  end.
End UnifyLoop.

(** [unify].  The recursion of the source is on the children after the
    substitution found so far has been applied to them, which is not a
    structural descent: [fuel] bounds the depth of the nested calls. *)
Fixpoint unify (fuel : nat) (term_a term_b : Expr)
  : res (option substitution) :=
  match fuel with
  | O => Fuel
  | S fuel' =>
      if is_Term term_a then bind_term term_a term_b
      else if is_Term term_b then bind_term term_b term_a
      else
        match term_a, term_b with
        | Var _ _, Var _ _ =>
            Ok (if eqb term_a term_b then Some [] else None)
        | Functor n ts _, Functor m us _
        | Predicate n ts, Predicate m us =>
            if negb (String.eqb n m) then Ok None
            else if negb (Nat.eqb (length ts) (length us)) then Ok None
            else unify_loop (unify fuel') [] (combine ts us)
        | _, _ => Ok None
        end
  end.

Definition unify_list (fuel : nat) (pairs : list (Expr * Expr))
  : res (option substitution) :=
  unify_loop (unify fuel) [] pairs.

(** ** Hashing

    [hash] of a [str] is Python's built-in, a function of the string that
    the source does not define: [hash_string] stands for it.  Every class
    but [Functor] defines [__hash__] as [hash(str(self))]; [Functor]
    defines [__eq__] and no [__hash__], so its instances are unhashable
    and [hash] raises [TypeError] on them. *)

(** [isinstance(e, Functor)] *)
Definition is_Functor (e : Expr) : bool :=
  match e with
  | Functor _ _ _ => true
  | _ => false
  end.

Definition py_hash (hash_string : string -> Z) (e : Expr) : res Z :=
  if is_Functor e then Raise TypeError else Ok (hash_string (str e)).

(** What putting [k] into a set or using it as a dictionary key does
    before anything else: it takes the hash of [k]. *)
Definition hashed (k : Expr) : res unit :=
  if is_Functor k then Raise TypeError else Ok tt.

(** ** Sets of variables and terms

    The sets returned by [free_variables] and [free_terms] hold
    [Variable]s and [Term]s; membership is by class and name. *)

Definition set_mem (s : list Expr) (x : Expr) : bool :=
  existsb (fun y => eqb y x) s.

Definition set_add (s : list Expr) (x : Expr) : list Expr :=
  if set_mem s x then s else s ++ [x].

Definition set_union (s1 s2 : list Expr) : list Expr :=
  fold_left set_add s2 s1.

Definition set_diff1 (s : list Expr) (x : Expr) : list Expr :=
  filter (fun y => negb (eqb y x)) s.

Fixpoint free_variables (e : Expr) : res (list Expr) :=
  match e with
  | Var _ _ => Ok [e]
  | Term _ _ => Ok []
  | Functor _ ts _ =>
      fold_left (fun acc t =>
                   a <- acc ;; s <- free_variables t ;; Ok (set_union a s))
                ts (Ok [])
  | Predicate _ ts =>
      fold_left (fun acc t =>
                   a <- acc ;; s <- free_variables t ;; Ok (set_union a s))
                ts (Ok [])
  | Not f => free_variables f
  | And f1 f2 =>
      a <- free_variables f1 ;; b <- free_variables f2 ;; Ok (set_union a b)
  | Or f1 f2 =>
      a <- free_variables f1 ;; b <- free_variables f2 ;; Ok (set_union a b)
  | Implies f1 f2 =>
      a <- free_variables f1 ;; b <- free_variables f2 ;; Ok (set_union a b)
  | ForAll v f =>
      s <- free_variables f ;; _ <- hashed v ;; Ok (set_diff1 s v)
  | ThereExists v f =>
      s <- free_variables f ;; _ <- hashed v ;; Ok (set_diff1 s v)
  end.

Fixpoint free_terms (e : Expr) : list Expr :=
  match e with
  | Var _ _ => []
  | Term _ _ => [e]
  | Functor _ ts _ =>
      fold_left (fun acc t => set_union acc (free_terms t)) ts []
  | Predicate _ ts =>
      fold_left (fun acc t => set_union acc (free_terms t)) ts []
  | Not f => free_terms f
  | And f1 f2 => set_union (free_terms f1) (free_terms f2)
  | Or f1 f2 => set_union (free_terms f1) (free_terms f2)
  | Implies f1 f2 => set_union (free_terms f1) (free_terms f2)
  | ForAll _ f => free_terms f
  | ThereExists _ f => free_terms f
  end.

(** ** prover.py: sequents

    [left] and [right] are dictionaries from formulas to expansion depths.
    [siblings] is [None] or a reference to a set shared by the sequents of
    a group: the sets live in a store and a sequent holds an address. *)

Record Sequent : Type := mkSequent {
  left : list (Expr * Z);
  right : list (Expr * Z);
  siblings : option nat;
  depth : Z
}.

Definition keys (d : list (Expr * Z)) : list Expr := map fst d.

Definition sequent_free_variables (s : Sequent) : res (list Expr) :=
  l <- fold_left (fun acc f =>
                    a <- acc ;; v <- free_variables f ;; Ok (set_union a v))
                 (keys (left s)) (Ok []) ;;
  fold_left (fun acc f =>
               a <- acc ;; v <- free_variables f ;; Ok (set_union a v))
            (keys (right s)) (Ok l).

Definition sequent_free_terms (s : Sequent) : list Expr :=
  fold_left (fun acc f => set_union acc (free_terms f)) (keys (right s))
    (fold_left (fun acc f => set_union acc (free_terms f)) (keys (left s)) []).

(** [str(index)] for a positive [index]. *)
Definition str_of_nat (n : nat) : string :=
  DecimalString.NilZero.string_of_uint (Nat.to_uint n).

(** The [while] loop of [get_variable_name]; it ends within
    [len(fv) + 1] tests, one per candidate name. *)
Fixpoint get_variable_name_loop (fuel : nat) (fv : list Expr)
  (prefix : string) (index : nat) : res string :=
  match fuel with
  | O => Fuel
  | S fuel' =>
      let name := prefix ++ str_of_nat index in
      if set_mem fv (Var name 0) || set_mem fv (Term name 0)
      then get_variable_name_loop fuel' fv prefix (S index)
      else Ok name
  end.

Definition get_variable_name (s : Sequent) (prefix : string) : res string :=
  v <- sequent_free_variables s ;;
  let fv := set_union v (sequent_free_terms s) in
  get_variable_name_loop (S (length fv)) fv prefix 1.

(** [get_unification_pairs]: the cross-side pairs that unify on their
    own, left formulas in the outer loop. *)
Definition get_unification_pairs (fuel : nat) (s : Sequent)
  : res (list (Expr * Expr)) :=
  fold_left (fun acc p =>
               pairs <- acc ;;
               r <- unify fuel (fst p) (snd p) ;;
               match r with
               | Some _ => Ok (pairs ++ [p])%list
               | None => Ok pairs
               end)
            (list_prod (keys (left s)) (keys (right s))) (Ok []).

(** [Sequent.__eq__]: the four loops over the keys. *)
Definition sequent_eqb (a b : Sequent) : bool :=
  forallb (fun f => dict_mem (left b) f) (keys (left a)) &&
  forallb (fun f => dict_mem (left a) f) (keys (left b)) &&
  forallb (fun f => dict_mem (right b) f) (keys (right a)) &&
  forallb (fun f => dict_mem (right a) f) (keys (right b)).

(** [Sequent.__str__] *)
Definition sequent_str (s : Sequent) : string :=
  let left_part := String.concat ", " (map str (keys (left s))) in
  let right_part := String.concat ", " (map str (keys (right s))) in
  let left_part :=
    if String.eqb left_part "" then left_part else left_part ++ " " in
  let right_part :=
    if String.eqb right_part "" then right_part else " " ++ right_part in
  left_part ++ "⊢" ++ right_part.

(** Dictionary accesses as the rules make them: each takes the hash of the
    key first, [d[k]] and [del d[k]] raise [KeyError] on a missing key. *)
Definition lookup (d : list (Expr * Z)) (k : Expr) : res Z :=
  _ <- hashed k ;;
  match dict_get d k with
  | Some v => Ok v
  | None => Raise KeyError
  end.

Definition assign (d : list (Expr * Z)) (k : Expr) (v : Z)
  : res (list (Expr * Z)) :=
  _ <- hashed k ;; Ok (dict_set d k v).

Definition delete (d : list (Expr * Z)) (k : Expr) : res (list (Expr * Z)) :=
  _ <- hashed k ;;
  if dict_mem d k then Ok (dict_del d k) else Raise KeyError.

Definition member (d : list (Expr * Z)) (k : Expr) : res bool :=
  _ <- hashed k ;; Ok (dict_mem d k).

(** [isinstance(e, Predicate)] *)
Definition is_Predicate (e : Expr) : bool :=
  match e with
  | Predicate _ _ => true
  | _ => false
  end.

(** The loop that determines which formula of one side to expand:
    [best] is the pair [(left_formula, left_depth)], [None] at the start. *)
Fixpoint scan (items : list (Expr * Z)) (best : option (Expr * Z))
  : option (Expr * Z) :=
  match items with
  | [] => best
  | (formula, d) :: items' =>
      let better :=
        match best with
        | None => true
        | Some (_, best_depth) => best_depth >? d
        end in
      scan items'
        (if better && negb (is_Predicate formula) then Some (formula, d)
         else best)
  end.

Inductive choice : Type :=
| ApplyLeft (left_formula : Expr) (left_depth : Z)
| ApplyRight (right_formula : Expr) (right_depth : Z)
| Stuck.

(** [apply_left], [apply_right] or [return False]. *)
Definition choose (old_sequent : Sequent) : choice :=
  match scan (left old_sequent) None, scan (right old_sequent) None with
  | Some (lf, ld), None => ApplyLeft lf ld
  | None, Some (rf, rd) => ApplyRight rf rd
  | Some (lf, ld), Some (rf, rd) =>
      if ld <? rd then ApplyLeft lf ld else ApplyRight rf rd
  | None, None => Stuck
  end.

(** The odometer over the simultaneous choices: [index[pos] += 1] from the
    last position, wrapping to [0] and carrying to the left; the carry out
    of the first position is [pos < 0]. *)
Fixpoint increment (index lens : list nat) : bool * list nat :=
  match index, lens with
  | i :: index', n :: lens' =>
      let (carry, rest) := increment index' lens' in
      if carry then
        if Nat.ltb (S i) n then (false, S i :: rest) else (true, 0%nat :: rest)
      else (false, i :: rest)
  | _, _ => (true, [])
  end.

(** [[sibling_pair_lists[i][index[i]] for i in range(len(...))]] *)
Fixpoint selection (lists : list (list (Expr * Expr))) (index : list nat)
  : res (list (Expr * Expr)) :=
  match lists, index with
  | l :: lists', i :: index' =>
      match nth_error l i with
      | Some p => ps <- selection lists' index' ;; Ok (p :: ps)
      | None => Raise IndexError
      end
  | [], _ => Ok []
  | _ :: _, [] => Raise IndexError
  end.

(** The [while True] over the selections; [rounds] bounds its
    iterations. *)
Fixpoint search (fuel rounds : nat) (lists : list (list (Expr * Expr)))
  (index : list nat) : res (option substitution) :=
  match rounds with
  | O => Fuel
  | S rounds' =>
      sel <- selection lists index ;;
      r <- unify_list fuel sel ;;
      match r with
      | Some s => Ok (Some s)
      | None =>
          let (carry, index') := increment index (map (@length _) lists) in
          if carry then Ok None else search fuel rounds' lists index'
      end
  end.

(** The number of simultaneous selections. *)
Definition selections (lists : list (list (Expr * Expr))) : nat :=
  fold_right (fun l n => (length l * n)%nat) 1%nat lists.

Fixpoint map_res {A B : Type} (f : A -> res B) (l : list A) : res (list B) :=
  match l with
  | [] => Ok []
  | x :: l' => y <- f x ;; ys <- map_res f l' ;; Ok (y :: ys)
  end.

(** ** prover.py: the search

    [hash_string] is the built-in hash of a [str]; [set_iter] is the order
    in which a [for] loop runs over a set of sequents, which Python leaves
    to the hash values.  Sets of sequents are lists without two members
    that are equal under the same hash.

    Expressions are values here and objects in the source.  The rules on
    quantifiers call [set_creation_time] on the instance of the body, and
    [Alphabet.replace] returns [self] on a [Variable] or a [Term] that it
    leaves as it is: the call also writes the [time] of the objects that
    the instance shares with the quantified formula, with the instances
    made before and with the sequents that hold them.  The embedding sets
    the times of the instance alone.  Times never enter [==], [str] or a
    hash, so the dictionaries, the sets and the frontier of the embedding
    are those of the source up to the times, and so is every test of the
    search but the comparison of times in [unify].  The times that
    [unify] reads are those of the values: they are the source's on
    propositional input, where no rule sets a time, and whenever the
    bodies of the quantifiers instantiated have no [Variable] or [Term]
    but the bound variable; on other input a shared [Variable] or [Term]
    can have, in the source, a later time than its value has here, and
    the properties below that are about the quantifier rules are stated
    up to the times. *)

Record state : Type := mkState {
  frontier : list Sequent;
  proven : list Sequent;
  store : list (list Sequent)
}.

Inductive step_result : Type :=
| Continue (st : state)
| Return (b : bool).

Section Search.
Variable hash_string : string -> Z.
Variable set_iter : list Sequent -> list Sequent.

Definition sequent_hash (s : Sequent) : Z := hash_string (sequent_str s).

(** [x in S] *)
Definition in_set (S : list Sequent) (x : Sequent) : bool :=
  existsb (fun y => Z.eqb (sequent_hash y) (sequent_hash x)
                    && sequent_eqb y x) S.

(** [S.add(x)] *)
Definition add (S : list Sequent) (x : Sequent) : list Sequent :=
  if in_set S x then S else (S ++ [x])%list.

(** [S |= T] *)
Definition union (S T : list Sequent) : list Sequent := fold_left add T S.

Fixpoint discard (S : list Sequent) (x : Sequent) : list Sequent :=
  match S with
  | [] => []
  | y :: S' =>
      if Z.eqb (sequent_hash y) (sequent_hash x) && sequent_eqb y x
      then S' else y :: discard S' x
  end.

(** [S.remove(x)] *)
Definition remove (S : list Sequent) (x : Sequent) : res (list Sequent) :=
  if in_set S x then Ok (discard S x) else Raise KeyError.

Definition store_get (st : list (list Sequent)) (a : nat) : list Sequent :=
  nth a st [].

Fixpoint store_set (st : list (list Sequent)) (a : nat)
  (S : list Sequent) : list (list Sequent) :=
  match st, a with
  | [], _ => []
  | _ :: st', O => S :: st'
  | S0 :: st', Datatypes.S a' => S0 :: store_set st' a' S
  end.

(** The first inner loop of [prove_sequent]:
    [while len(frontier) > 0 and (old_sequent is None or old_sequent in
    proven): old_sequent = frontier.pop(0)], from the first pop on. *)
Fixpoint dequeue_from (proven : list Sequent) (old_sequent : Sequent)
  (frontier : list Sequent) : Sequent * list Sequent :=
  match frontier with
  | [] => (old_sequent, [])
  | s :: frontier' =>
      if in_set proven old_sequent then dequeue_from proven s frontier'
      else (old_sequent, frontier)
  end.

Definition dequeue (proven frontier : list Sequent)
  : option (Sequent * list Sequent) :=
  match frontier with
  | [] => None
  | s :: frontier' => Some (dequeue_from proven s frontier')
  end.

(** [if new_sequent.siblings is not None:
    new_sequent.siblings.add(new_sequent)], then
    [frontier.append(new_sequent)]. *)
Definition push (st : state) (new_sequent : Sequent) : state :=
  mkState (frontier st ++ [new_sequent])%list (proven st)
    (match siblings new_sequent with
     | Some a => store_set (store st) a (add (store_get (store st) a) new_sequent)
     | None => store st
     end).

(** [old_sequent.siblings or set()]: the set of the parent unless it is
    [None] or empty, else a new empty set. *)
Definition siblings_or_set (st : state) (old_sequent : Sequent)
  : state * nat :=
  let fresh :=
    (mkState (frontier st) (proven st) (store st ++ [[]])%list,
     length (store st)) in
  match siblings old_sequent with
  | Some a =>
      match store_get (store st) a with
      | [] => fresh
      | _ :: _ => (st, a)
      end
  | None => fresh
  end.

(** The left rules.  A chosen formula of a class without a rule (a bare
    [Variable] or [Term]) leaves the inner [while True] without a
    [break]: the loop does not end.  In the two rules on quantifiers
    [formula.set_creation_time] is the function on values: the times of
    the instance are set, those of the objects that the source shares
    with it are not followed (see the head of this part). *)
Definition apply_left (st : state) (old_sequent : Sequent)
  (left_formula : Expr) : res state :=
  let new_depth := depth old_sequent + 1 in
  match left_formula with
  | Not formula =>
      l <- delete (left old_sequent) left_formula ;;
      d <- lookup (left old_sequent) left_formula ;;
      r <- assign (right old_sequent) formula (d + 1) ;;
      Ok (push st (mkSequent l r (siblings old_sequent) new_depth))
  | And formula1 formula2 =>
      l <- delete (left old_sequent) left_formula ;;
      d <- lookup (left old_sequent) left_formula ;;
      l <- assign l formula1 (d + 1) ;;
      d <- lookup (left old_sequent) left_formula ;;
      l <- assign l formula2 (d + 1) ;;
      Ok (push st (mkSequent l (right old_sequent)
                     (siblings old_sequent) new_depth))
  | Or formula1 formula2 =>
      la <- delete (left old_sequent) left_formula ;;
      lb <- delete (left old_sequent) left_formula ;;
      d <- lookup (left old_sequent) left_formula ;;
      la <- assign la formula1 (d + 1) ;;
      d <- lookup (left old_sequent) left_formula ;;
      lb <- assign lb formula2 (d + 1) ;;
      Ok (push
            (push st (mkSequent la (right old_sequent)
                        (siblings old_sequent) new_depth))
            (mkSequent lb (right old_sequent)
               (siblings old_sequent) new_depth))
  | Implies formula1 formula2 =>
      la <- delete (left old_sequent) left_formula ;;
      lb <- delete (left old_sequent) left_formula ;;
      d <- lookup (left old_sequent) left_formula ;;
      ra <- assign (right old_sequent) formula1 (d + 1) ;;
      d <- lookup (left old_sequent) left_formula ;;
      lb <- assign lb formula2 (d + 1) ;;
      Ok (push
            (push st (mkSequent la ra (siblings old_sequent) new_depth))
            (mkSequent lb (right old_sequent)
               (siblings old_sequent) new_depth))
  | ForAll variable body =>
      let (st, a) := siblings_or_set st old_sequent in
      d <- lookup (left old_sequent) left_formula ;;
      l <- assign (left old_sequent) left_formula (d + 1) ;;
      name <- get_variable_name old_sequent "t" ;;
      let formula :=
        set_creation_time (replace body variable (Term name 0)) new_depth in
      present <- member l formula ;;
      l <- (if present then Ok l
            else d <- lookup l left_formula ;; assign l formula d) ;;
      Ok (push st (mkSequent l (right old_sequent) (Some a) new_depth))
  | ThereExists variable body =>
      l <- delete (left old_sequent) left_formula ;;
      name <- get_variable_name old_sequent "v" ;;
      let formula :=
        set_creation_time (replace body variable (Var name 0)) new_depth in
      d <- lookup (left old_sequent) left_formula ;;
      l <- assign l formula (d + 1) ;;
      Ok (push st (mkSequent l (right old_sequent)
                     (siblings old_sequent) new_depth))
  | _ => Fuel
  end.

(** The right rules; the times in the two rules on quantifiers are as
    in the left rules. *)
Definition apply_right (st : state) (old_sequent : Sequent)
  (right_formula : Expr) : res state :=
  let new_depth := depth old_sequent + 1 in
  match right_formula with
  | Not formula =>
      r <- delete (right old_sequent) right_formula ;;
      d <- lookup (right old_sequent) right_formula ;;
      l <- assign (left old_sequent) formula (d + 1) ;;
      Ok (push st (mkSequent l r (siblings old_sequent) new_depth))
  | And formula1 formula2 =>
      ra <- delete (right old_sequent) right_formula ;;
      rb <- delete (right old_sequent) right_formula ;;
      d <- lookup (right old_sequent) right_formula ;;
      ra <- assign ra formula1 (d + 1) ;;
      d <- lookup (right old_sequent) right_formula ;;
      rb <- assign rb formula2 (d + 1) ;;
      Ok (push
            (push st (mkSequent (left old_sequent) ra
                        (siblings old_sequent) new_depth))
            (mkSequent (left old_sequent) rb
               (siblings old_sequent) new_depth))
  | Or formula1 formula2 =>
      r <- delete (right old_sequent) right_formula ;;
      d <- lookup (right old_sequent) right_formula ;;
      r <- assign r formula1 (d + 1) ;;
      d <- lookup (right old_sequent) right_formula ;;
      r <- assign r formula2 (d + 1) ;;
      Ok (push st (mkSequent (left old_sequent) r
                     (siblings old_sequent) new_depth))
  | Implies formula1 formula2 =>
      r <- delete (right old_sequent) right_formula ;;
      d <- lookup (right old_sequent) right_formula ;;
      l <- assign (left old_sequent) formula1 (d + 1) ;;
      d <- lookup (right old_sequent) right_formula ;;
      r <- assign r formula2 (d + 1) ;;
      Ok (push st (mkSequent l r (siblings old_sequent) new_depth))
  | ForAll variable body =>
      r <- delete (right old_sequent) right_formula ;;
      name <- get_variable_name old_sequent "v" ;;
      let formula :=
        set_creation_time (replace body variable (Var name 0)) new_depth in
      d <- lookup (right old_sequent) right_formula ;;
      r <- assign r formula (d + 1) ;;
      Ok (push st (mkSequent (left old_sequent) r
                     (siblings old_sequent) new_depth))
  | ThereExists variable body =>
      let (st, a) := siblings_or_set st old_sequent in
      d <- lookup (right old_sequent) right_formula ;;
      r <- assign (right old_sequent) right_formula (d + 1) ;;
      name <- get_variable_name old_sequent "t" ;;
      let formula :=
        set_creation_time (replace body variable (Term name 0)) new_depth in
      present <- member r formula ;;
      r <- (if present then Ok r
            else d <- lookup r right_formula ;; assign r formula d) ;;
      Ok (push st (mkSequent (left old_sequent) r (Some a) new_depth))
  | _ => Fuel
  end.

(** The last part of an iteration: the inner [while True]. *)
Definition expand (st : state) (old_sequent : Sequent) : res step_result :=
  match choose old_sequent with
  | ApplyLeft left_formula _ =>
      st' <- apply_left st old_sequent left_formula ;; Ok (Continue st')
  | ApplyRight right_formula _ =>
      st' <- apply_right st old_sequent right_formula ;; Ok (Continue st')
  | Stuck => Ok (Return false)
  end.

(** [proven |= old_sequent.siblings] and the frontier without the
    members of the group. *)
Definition close_siblings (st : state) (group : list Sequent) : state :=
  mkState (filter (fun s => negb (in_set group s)) (frontier st))
    (union (proven st) group) (store st).

(** What an iteration does with the sequent that it has dequeued, [st]
    being the state once the sequents are popped: the test for an axiom,
    the closure of the sibling group by unification, the rules.  [fuel]
    bounds the depth of [unify]. *)
Definition process (fuel : nat) (st : state) (old_sequent : Sequent)
  : res step_result :=
  if existsb (fun f => dict_mem (right old_sequent) f)
       (keys (left old_sequent))
  then
    Ok (Continue
          (mkState (frontier st) (add (proven st) old_sequent) (store st)))
  else
    match siblings old_sequent with
    | None => expand st old_sequent
    | Some a =>
        let group := store_get (store st) a in
        sibling_pair_lists <-
          map_res (get_unification_pairs fuel) (set_iter group) ;;
        if forallb (fun pair_list => Nat.ltb 0 (length pair_list))
             sibling_pair_lists
        then
          r <- search fuel (S (selections sibling_pair_lists))
                 sibling_pair_lists
                 (map (fun _ => 0%nat) sibling_pair_lists) ;;
          match r with
          | Some _ => Ok (Continue (close_siblings st group))
          | None => expand st old_sequent
          end
        else
          group' <- remove group old_sequent ;;
          expand (mkState (frontier st) (proven st)
                    (store_set (store st) a group'))
                 old_sequent
    end.

(** One iteration of the outer [while True], from the state in which
    the previous one ended: the dequeue loop, then the sequent that it
    leaves in [old_sequent] is processed. *)
Definition step (fuel : nat) (st : state) : res step_result :=
  match dequeue (proven st) (frontier st) with
  | None => Ok (Return true)
  | Some (old_sequent, frontier') =>
      process fuel (mkState frontier' (proven st) (store st)) old_sequent
  end.

(** The outer loop, [iterations] times at most. *)
Fixpoint run (fuel iterations : nat) (st : state) : res bool :=
  match iterations with
  | O => Fuel
  | S iterations' =>
      r <- step fuel st ;;
      match r with
      | Return b => Ok b
      | Continue st' => run fuel iterations' st'
      end
  end.

Definition reset_times (d : list (Expr * Z)) : list (Expr * Z) :=
  map (fun kv => (set_creation_time (fst kv) 0, snd kv)) d.

Definition initial_state (sequent : Sequent) : state :=
  mkState [sequent] [sequent] [].

Definition prove_sequent (fuel iterations : nat) (sequent : Sequent)
  : res bool :=
  run fuel iterations
    (initial_state
       (mkSequent (reset_times (left sequent)) (reset_times (right sequent))
          (siblings sequent) (depth sequent))).

(** [prove_formula]: the dictionary comprehension over the axioms and
    the one-entry dictionary of the goal. *)
Definition prove_formula (fuel iterations : nat) (axioms : list Expr)
  (formula : Expr) : res bool :=
  l <- fold_left (fun acc axiom => d <- acc ;; assign d axiom 0)
         axioms (Ok []) ;;
  r <- assign [] formula 0 ;;
  prove_sequent fuel iterations (mkSequent l r None 0).
End Search.

(** ** Notions of the specification

    [contains e c]: [c] is a subexpression of [e], subexpressions being
    compared with [==] as [replace] compares them; the bound variable of
    a quantifier is a child as its body is. *)
Fixpoint contains (e c : Expr) : bool :=
  eqb e c ||
  match e with
  | Var _ _ => false
  | Term _ _ => false
  | Functor _ ts _ => existsb (fun t => contains t c) ts
  | Predicate _ ts => existsb (fun t => contains t c) ts
  | Not f => contains f c
  | And f1 f2 => contains f1 c || contains f2 c
  | Or f1 f2 => contains f1 c || contains f2 c
  | Implies f1 f2 => contains f1 c || contains f2 c
  | ForAll v f => contains v c || contains f c
  | ThereExists v f => contains v c || contains f c
  end.

(** An expression without children. *)
Definition atomic (c : Expr) : bool :=
  match c with
  | Var _ _ => true
  | Term _ _ => true
  | Functor _ [] _ => true
  | Predicate _ [] => true
  | _ => false
  end.

(** [isinstance(e, Variable)] *)
Definition is_Var (e : Expr) : bool :=
  match e with
  | Var _ _ => true
  | _ => false
  end.

(** Every quantifier of [e] binds a [Variable]. *)
Fixpoint binds_variables (e : Expr) : bool :=
  match e with
  | Var _ _ => true
  | Term _ _ => true
  | Functor _ ts _ => forallb binds_variables ts
  | Predicate _ ts => forallb binds_variables ts
  | Not f => binds_variables f
  | And f1 f2 => binds_variables f1 && binds_variables f2
  | Or f1 f2 => binds_variables f1 && binds_variables f2
  | Implies f1 f2 => binds_variables f1 && binds_variables f2
  | ForAll v f => is_Var v && binds_variables f
  | ThereExists v f => is_Var v && binds_variables f
  end.

(** ** Definitions used in the statements *)

(** The printed form of a [Functor] or [Predicate], from the printed
    forms of its children. *)
Definition str_formula (n : string) (printed : list string) : string :=
  match printed with
  | [] => n
  | _ => n ++ "(" ++ String.concat ", " printed ++ ")"
  end.

(** A hash function on strings to run the definitions with; no theorem
    depends on which one it is. *)
Definition length_hash (s : string) : Z := Z.of_nat (String.length s).

(** Keys of a dictionary may change their times, and so may the key
    looked up. *)
Definition retime (t : Z) (d : list (Expr * Z)) : list (Expr * Z) :=
  map (fun kv => (set_creation_time (fst kv) t, snd kv)) d.

(** A sequent whose formulas have had their times set. *)
Definition retime_sequent (t : Z) (s : Sequent) : Sequent :=
  mkSequent (retime t (left s)) (retime t (right s)) (siblings s) (depth s).

(** The sequent [∀x. P(x) ⊢ P(a)], its successor by the ∀-left rule, and
    the state of the search after the first iteration. *)
Definition example_goal : Sequent :=
  mkSequent [(ForAll (Var "x" 0) (Predicate "P" [Var "x" 0]), 0)]
    [(Predicate "P" [Functor "a" [] 0], 0)] None 0.

(** The successor: the quantifier at depth [1], its instance [P(t1)]. *)
Definition example_successor : Sequent :=
  mkSequent [(ForAll (Var "x" 0) (Predicate "P" [Var "x" 0]), 1);
             (Predicate "P" [Term "t1" 1], 1)]
    [(Predicate "P" [Functor "a" [] 0], 0)] (Some 0%nat) 1.

(** The successor is the frontier and the only member of its sibling
    group; the goal is in [proven]. *)
Definition example_state : state :=
  mkState [example_successor] [example_goal] [[example_successor]].

(** ** Substitutions returned by [unify]

    The bindings of a returned substitution have [Term]s as keys, no two
    of them equal; no value holds its own key or the key of an earlier
    binding, so that applying the bindings in order removes every key; and
    every term of the substitution comes from the expressions unified. *)

(** Every key is a [Term]. *)
Definition term_keys (s : substitution) : Prop :=
  Forall (fun kv => is_Term (fst kv) = true) s.

(** In every value the quantifiers bind [Variable]s. *)
Definition values_bind_variables (s : substitution) : Prop :=
  Forall (fun kv => binds_variables (snd kv) = true) s.

(** No value holds its own key or the key of an earlier binding. *)
Fixpoint triangular (s : substitution) : Prop :=
  match s with
  | [] => True
  | (k, v) :: s' =>
      occurs v k = false /\
      Forall (fun kv => occurs (snd kv) k = false) s' /\
      triangular s'
  end.

(** No two keys are equal. *)
Fixpoint distinct_keys (s : substitution) : Prop :=
  match s with
  | [] => True
  | (k, _) :: s' => dict_mem s' k = false /\ distinct_keys s'
  end.

(** The term [k] occurs in a side of one of the pairs. *)
Definition occurs_in_pairs (pairs : list (Expr * Expr)) (k : Expr) : Prop :=
  Exists (fun p => occurs (fst p) k = true \/ occurs (snd p) k = true) pairs.

(** The terms of the substitution, keys and terms of values, occur in the
    pairs. *)
Definition supported (s : substitution) (pairs : list (Expr * Expr)) : Prop :=
  forall k, is_Term k = true ->
    dict_mem s k = true \/ Exists (fun kv => occurs (snd kv) k = true) s ->
    occurs_in_pairs pairs k.

(** The bindings applied in order make the two sides of [p] equal. *)
Definition unifies (s : substitution) (p : Expr * Expr) : Prop :=
  eqb (apply_substitution s (fst p)) (apply_substitution s (snd p)) = true.

(** What [unify] and its loop return for [pairs]. *)
Record solution (s : substitution) (pairs : list (Expr * Expr)) : Prop := {
  sol_keys : term_keys s;
  sol_values : values_bind_variables s;
  sol_triangular : triangular s;
  sol_distinct : distinct_keys s;
  sol_supported : supported s pairs;
  sol_unifies : Forall (unifies s) pairs
}.

(** First-order terms: the classes with a time. *)
Fixpoint timed (e : Expr) : bool :=
  match e with
  | Var _ _ => true
  | Term _ _ => true
  | Functor _ ts _ => forallb timed ts
  | _ => false
  end.

(** The number of nodes. *)
Fixpoint size (e : Expr) : nat :=
  match e with
  | Functor _ ts _ => S (list_sum (map size ts))
  | Predicate _ ts => S (list_sum (map size ts))
  | Not f => S (size f)
  | And f1 f2 => S (size f1 + size f2)
  | Or f1 f2 => S (size f1 + size f2)
  | Implies f1 f2 => S (size f1 + size f2)
  | ForAll v f => S (size v + size f)
  | ThereExists v f => S (size v + size f)
  | _ => 1%nat
  end.

(** The names of the terms that [occurs] finds. *)
Fixpoint term_names (e : Expr) : list string :=
  match e with
  | Var _ _ => []
  | Term n _ => [n]
  | Functor _ ts _ => flat_map term_names ts
  | Predicate _ ts => flat_map term_names ts
  | Not f => term_names f
  | And f1 f2 => term_names f1 ++ term_names f2
  | Or f1 f2 => term_names f1 ++ term_names f2
  | Implies f1 f2 => term_names f1 ++ term_names f2
  | ForAll _ f => term_names f
  | ThereExists _ f => term_names f
  end%list.

(** Every value of the substitution is a first-order term. *)
Definition values_timed (s : substitution) : Prop :=
  Forall (fun kv => timed (snd kv) = true) s.

(** The measure: the number of distinct term names of a pair, then its
    size. *)
Definition pair_names (a b : Expr) : list string :=
  (term_names a ++ term_names b)%list.

(** The number of distinct names. *)
Definition count (l : list string) : nat := length (nodup string_dec l).

(** [unify(a, b)] returns: some fuel is enough for a result that is no
    exception. *)
Definition returns (a b : Expr) : Prop :=
  exists fuel r, unify fuel a b = Ok r.

(** The classes of formulas: those without a time. *)
Definition is_formula (e : Expr) : bool :=
  match e with
  | Var _ _ | Term _ _ | Functor _ _ _ => false
  | _ => true
  end.

(** The name of a [Variable] or [Term]. *)
Definition name_of (e : Expr) : list string :=
  match e with
  | Var n _ => [n]
  | Term n _ => [n]
  | _ => []
  end.

(** The rank of an index vector among the selections, the last position
    running fastest. *)
Fixpoint rank (index lens : list nat) : nat :=
  match index, lens with
  | i :: index', _ :: lens' =>
      (i * fold_right Nat.mul 1 lens' + rank index' lens')%nat
  | _, _ => 0%nat
  end.

(** ** Notions used in the further properties

    Free variables, ground terms, the propositional fragment with its
    valuations, and the invariants of the search on that fragment. *)

(** [x] is a free variable of [e]: a [Variable] equal to [x] outside the
    body of every quantifier whose bound variable is equal to [x]. *)
Fixpoint free_in (e x : Expr) : bool :=
  match e with
  | Var _ _ => eqb e x
  | Term _ _ => false
  | Functor _ ts _ => existsb (fun t => free_in t x) ts
  | Predicate _ ts => existsb (fun t => free_in t x) ts
  | Not f => free_in f x
  | And f1 f2 => free_in f1 x || free_in f2 x
  | Or f1 f2 => free_in f1 x || free_in f2 x
  | Implies f1 f2 => free_in f1 x || free_in f2 x
  | ForAll v f => free_in f x && negb (eqb v x)
  | ThereExists v f => free_in f x && negb (eqb v x)
  end.

(** No quantifier on the way to a [Variable] has a [Functor], which is
    unhashable, in the place of its bound variable. *)
Fixpoint hashable_binders (e : Expr) : bool :=
  match e with
  | Var _ _ => true
  | Term _ _ => true
  | Functor _ ts _ => forallb hashable_binders ts
  | Predicate _ ts => forallb hashable_binders ts
  | Not f => hashable_binders f
  | And f1 f2 => hashable_binders f1 && hashable_binders f2
  | Or f1 f2 => hashable_binders f1 && hashable_binders f2
  | Implies f1 f2 => hashable_binders f1 && hashable_binders f2
  | ForAll v f => hashable_binders f && negb (is_Functor v)
  | ThereExists v f => hashable_binders f && negb (is_Functor v)
  end.

(** What [free_variables] returns on [e], or the exception it raises. *)
Definition free_variables_result (e : Expr) : Prop :=
  if hashable_binders e
  then exists fv, free_variables e = Ok fv /\
                  forall x, set_mem fv x = free_in e x
  else free_variables e = Raise TypeError.

(** Every [Variable], [Term] and [Functor] of [e] has the time [t]. *)
Fixpoint stamped (t : Z) (e : Expr) : bool :=
  match e with
  | Var _ u => Z.eqb u t
  | Term _ u => Z.eqb u t
  | Functor _ ts u => Z.eqb u t && forallb (stamped t) ts
  | Predicate _ ts => forallb (stamped t) ts
  | Not f => stamped t f
  | And f1 f2 => stamped t f1 && stamped t f2
  | Or f1 f2 => stamped t f1 && stamped t f2
  | Implies f1 f2 => stamped t f1 && stamped t f2
  | ForAll v f => stamped t v && stamped t f
  | ThereExists v f => stamped t v && stamped t f
  end.

(** An expression built from [Variable]s, [Functor]s and [Predicate]s
    only: no unification term, no connective, no quantifier. *)
Fixpoint ground (e : Expr) : bool :=
  match e with
  | Var _ _ => true
  | Functor _ ts _ => forallb ground ts
  | Predicate _ ts => forallb ground ts
  | _ => false
  end.

(** The value of every binding was created no later than its key. *)
Definition time_ordered (s : substitution) : Prop :=
  Forall (fun kv =>
            exists tk tv, get_time (fst kv) = Ok tk /\
                          get_time (snd kv) = Ok tv /\ tv <= tk) s.

(** The formulas of a sequent, left side first. *)
Definition sequent_keys (s : Sequent) : list Expr :=
  (keys (left s) ++ keys (right s))%list.

(** [name] is the name of a free variable or of a unification term of a
    formula of [s]. *)
Definition name_taken (s : Sequent) (name : string) : bool :=
  existsb (fun f => free_in f (Var name 0) || occurs f (Term name 0))
    (sequent_keys s).

(** Propositional formulas: [Predicate]s under the connectives. *)
Fixpoint propositional (e : Expr) : bool :=
  match e with
  | Predicate _ _ => true
  | Not f => propositional f
  | And f1 f2 => propositional f1 && propositional f2
  | Or f1 f2 => propositional f1 && propositional f2
  | Implies f1 f2 => propositional f1 && propositional f2
  | _ => false
  end.

(** The truth value of a formula under a valuation of its atoms.  Atoms
    are taken up to [==]: the valuation is asked about the atom with its
    times erased. *)
Fixpoint eval (v : Expr -> bool) (e : Expr) : bool :=
  match e with
  | Not f => negb (eval v f)
  | And f1 f2 => eval v f1 && eval v f2
  | Or f1 f2 => eval v f1 || eval v f2
  | Implies f1 f2 => implb (eval v f1) (eval v f2)
  | _ => v (set_creation_time e 0)
  end.

(** [v] makes every formula of the left side true and every formula of
    the right side false. *)
Definition falsifies (v : Expr -> bool) (s : Sequent) : bool :=
  forallb (eval v) (keys (left s))
  && forallb (fun k => negb (eval v k)) (keys (right s)).

(** A sequent of the propositional fragment: propositional formulas and
    no sibling set. *)
Definition propositional_sequent (s : Sequent) : bool :=
  forallb propositional (keys (left s))
  && forallb propositional (keys (right s))
  && match siblings s with None => true | Some _ => false end.

(** No two keys of the dictionary are equal, as in every Python
    dictionary. *)
Fixpoint unique_keys (d : list (Expr * Z)) : bool :=
  match d with
  | [] => true
  | (k, _) :: d' => negb (dict_mem d' k) && unique_keys d'
  end.

(** A sequent of the propositional fragment whose two dictionaries have
    keys that are not equal to one another. *)
Definition well_formed (s : Sequent) : bool :=
  propositional_sequent s && unique_keys (left s) && unique_keys (right s).

(** The number of nodes of the formulas of a dictionary. *)
Definition dict_size (d : list (Expr * Z)) : nat :=
  list_sum (map size (keys d)).

(** The number of nodes of the formulas of a sequent. *)
Definition sequent_size (s : Sequent) : nat :=
  (dict_size (left s) + dict_size (right s))%nat.

(** A bound on the number of iterations that a sequent of size [n] in the
    frontier can cause. *)
Definition weight (n : nat) : nat := (2 ^ S n - 1)%nat.

(** The sum of the weights of the sequents of a frontier. *)
Definition potential (frontier : list Sequent) : nat :=
  list_sum (map (fun s => weight (sequent_size s)) frontier).

(** The test for an axiom: a formula on both sides. *)
Definition common_key (s : Sequent) : bool :=
  existsb (fun f => dict_mem (right s) f) (keys (left s)).

(** The successors [succs] of [old] by a rule of the propositional
    fragment: one or two well-formed smaller sequents, falsified
    together by the valuations that falsify [old]. *)
Definition successors (old : Sequent) (succs : list Sequent) : Prop :=
  (1 <= length succs <= 2)%nat /\
  Forall (fun n => well_formed n = true /\
                   (sequent_size n < sequent_size old)%nat) succs /\
  forall v, falsifies v old = existsb (falsifies v) succs.

(** What an iteration does to a state whose frontier is well-formed. *)
Definition iteration (H : string -> Z) (st : state) (r : res step_result)
  : Prop :=
  match frontier st with
  | [] => r = Ok (Return true)
  | _ :: _ =>
      exists skipped old rest,
        frontier st = (skipped ++ old :: rest)%list /\
        Forall (fun s => in_set H (proven st) s = true) skipped /\
        ((common_key old = true /\
          r = Ok (Continue (mkState rest (add H (proven st) old) (store st))))
         \/
         (common_key old = false /\
          Forall (fun k => is_Predicate k = true) (keys (left old)) /\
          Forall (fun k => is_Predicate k = true) (keys (right old)) /\
          r = Ok (Return false))
         \/
         (common_key old = false /\
          exists succs,
            successors old succs /\
            r = Ok (Continue (mkState (rest ++ succs)%list (proven st)
                                (store st)))))
  end.

(** The state of the search for [goal]: the frontier is the goal alone,
    or holds smaller sequents; a proven sequent is the goal or cannot be
    falsified; a valuation that falsifies the goal falsifies a sequent of
    the frontier. *)
Definition sound_state (goal : Sequent) (st : state) : Prop :=
  Forall (fun s => well_formed s = true) (frontier st) /\
  (frontier st = [goal] \/
   Forall (fun s => (sequent_size s < sequent_size goal)%nat) (frontier st)) /\
  Forall (fun p => p = goal \/ forall v, falsifies v p = false) (proven st) /\
  forall v, falsifies v goal = true ->
            existsb (falsifies v) (frontier st) = true.

(** [{axiom: 0 for axiom in axioms}] *)
Definition dict_of (axioms : list Expr) : list (Expr * Z) :=
  fold_left (fun d axiom => dict_set d axiom 0) axioms [].

(** The sequent that [prove_formula] builds and [prove_sequent] resets. *)
Definition goal_sequent (axioms : list Expr) (formula : Expr) : Sequent :=
  mkSequent (reset_times (dict_of axioms)) (reset_times [(formula, 0)]) None 0.

(** [unify(formula_left, formula_right) is not None] *)
Definition unifiable (fuel : nat) (p : Expr * Expr) : bool :=
  match unify fuel (fst p) (snd p) with
  | Ok (Some _) => true
  | _ => false
  end.

(** The state in which the [n]-th iteration of the main loop ends, or the
    state in which the search returned if it did before. *)
Fixpoint iterate (H : string -> Z) (set_iter : list Sequent -> list Sequent)
  (fuel n : nat) (st : state) : res state :=
  match n with
  | O => Ok st
  | S n' =>
      r <- step H set_iter fuel st ;;
      match r with
      | Continue st' => iterate H set_iter fuel n' st'
      | Return _ => Ok st
      end
  end.

(** The formula [∃x. (¬Q(x) ∧ ¬Q(x))]. *)
Definition twice_the_same : Expr :=
  ThereExists (Var "x" 0)
    (And (Not (Predicate "Q" [Var "x" 0])) (Not (Predicate "Q" [Var "x" 0]))).

(** The state of the search for [twice_the_same] after seven
    iterations. *)
Definition state_before_the_removal : state :=
  Eval vm_compute in
    match iterate length_hash (fun S => S) 1 7
            (initial_state (goal_sequent [] twice_the_same)) with
    | Ok st => st
    | _ => initial_state (goal_sequent [] twice_the_same)
    end.

(** The state of that search after four iterations. *)
Definition state_with_an_empty_sibling_set : state :=
  Eval vm_compute in
    match iterate length_hash (fun S => S) 1 4
            (initial_state (goal_sequent [] twice_the_same)) with
    | Ok st => st
    | _ => initial_state (goal_sequent [] twice_the_same)
    end.

(** ** Induction on expressions, through the lists of children *)

Section ExprInduction.
Variable P : Expr -> Prop.
Hypothesis HVar : forall n t, P (Var n t).
Hypothesis HTerm : forall n t, P (Term n t).
Hypothesis HFunctor : forall n ts t, Forall P ts -> P (Functor n ts t).
Hypothesis HPredicate : forall n ts, Forall P ts -> P (Predicate n ts).
Hypothesis HNot : forall f, P f -> P (Not f).
Hypothesis HAnd : forall f1 f2, P f1 -> P f2 -> P (And f1 f2).
Hypothesis HOr : forall f1 f2, P f1 -> P f2 -> P (Or f1 f2).
Hypothesis HImplies : forall f1 f2, P f1 -> P f2 -> P (Implies f1 f2).
Hypothesis HForAll : forall v f, P v -> P f -> P (ForAll v f).
Hypothesis HThereExists : forall v f, P v -> P f -> P (ThereExists v f).

Fixpoint Expr_induction (e : Expr) : P e :=
  match e with
  | Var n t => HVar n t
  | Term n t => HTerm n t
  | Functor n ts t =>
      HFunctor n ts t
        ((fix children (l : list Expr) : Forall P l :=
            match l with
            | [] => Forall_nil P
            | e' :: l' => Forall_cons e' (Expr_induction e') (children l')
            end) ts)
  | Predicate n ts =>
      HPredicate n ts
        ((fix children (l : list Expr) : Forall P l :=
            match l with
            | [] => Forall_nil P
            | e' :: l' => Forall_cons e' (Expr_induction e') (children l')
            end) ts)
  | Not f => HNot f (Expr_induction f)
  | And f1 f2 => HAnd f1 f2 (Expr_induction f1) (Expr_induction f2)
  | Or f1 f2 => HOr f1 f2 (Expr_induction f1) (Expr_induction f2)
  | Implies f1 f2 => HImplies f1 f2 (Expr_induction f1) (Expr_induction f2)
  | ForAll v f => HForAll v f (Expr_induction v) (Expr_induction f)
  | ThereExists v f =>
      HThereExists v f (Expr_induction v) (Expr_induction f)
  end.
End ExprInduction.

(** ** Equality, printing and hashing ignore the creation time *)

Lemma bool_eq_iff (x y : bool) : (x = true <-> y = true) -> x = y.
Proof. destruct x, y; intuition congruence. Qed.

Lemma all2_map_eq (g : Expr -> Expr) (ts : list Expr) :
  Forall (fun a => forall b, eqb a b = true <-> g a = g b) ts ->
  forall us, length ts = length us ->
    (all2 eqb ts us = true <-> map g ts = map g us).
Proof.
  induction 1 as [|a ts Ha _ IH]; intros [|b us] Hlen; simpl in *;
    try discriminate; [tauto|].
  injection Hlen as Hlen. rewrite andb_true_iff, Ha, (IH us Hlen).
  split; [intros [-> ->]; reflexivity | intros E; injection E; auto].
Qed.

Lemma eqb_erase (a b : Expr) :
  eqb a b = true <-> set_creation_time a 0 = set_creation_time b 0.
Proof.
  revert b. induction a as [n t|n t|n ts t IH|n ts IH|f IH|f1 f2 IH1 IH2
    |f1 f2 IH1 IH2|f1 f2 IH1 IH2|v f IHv IHf|v f IHv IHf]
    using Expr_induction; intros [];
    simpl; try (split; discriminate).
  - rewrite String.eqb_eq. split; congruence.
  - rewrite String.eqb_eq. split; congruence.
  - rewrite !andb_true_iff, String.eqb_eq, Nat.eqb_eq. split.
    + intros [[-> Hlen] Hall]. f_equal.
      now apply (all2_map_eq (fun e => set_creation_time e 0) ts IH).
    + intros E. injection E as -> E.
      assert (Hlen : length ts = length terms)
        by (rewrite <- (length_map (fun e => set_creation_time e 0) ts), E;
            apply length_map).
      repeat split; auto.
      now apply (all2_map_eq (fun e => set_creation_time e 0) ts IH).
  - rewrite !andb_true_iff, String.eqb_eq, Nat.eqb_eq. split.
    + intros [[-> Hlen] Hall]. f_equal.
      now apply (all2_map_eq (fun e => set_creation_time e 0) ts IH).
    + intros E. injection E as -> E.
      assert (Hlen : length ts = length terms)
        by (rewrite <- (length_map (fun e => set_creation_time e 0) ts), E;
            apply length_map).
      repeat split; auto.
      now apply (all2_map_eq (fun e => set_creation_time e 0) ts IH).
  - rewrite IH. split; congruence.
  - rewrite andb_true_iff, IH1, IH2.
    split; [intros [-> ->]; reflexivity | intros E; injection E; auto].
  - rewrite andb_true_iff, IH1, IH2.
    split; [intros [-> ->]; reflexivity | intros E; injection E; auto].
  - rewrite andb_true_iff, IH1, IH2.
    split; [intros [-> ->]; reflexivity | intros E; injection E; auto].
  - rewrite andb_true_iff, IHv, IHf.
    split; [intros [-> ->]; reflexivity | intros E; injection E; auto].
  - rewrite andb_true_iff, IHv, IHf.
    split; [intros [-> ->]; reflexivity | intros E; injection E; auto].
Qed.

Lemma set_creation_time_twice (e : Expr) (t u : Z) :
  set_creation_time (set_creation_time e t) u = set_creation_time e u.
Proof.
  induction e using Expr_induction; simpl; try congruence.
  - f_equal. rewrite map_map. now apply map_ext_Forall.
  - f_equal. rewrite map_map. now apply map_ext_Forall.
Qed.

Lemma str_Functor (n : string) (ts : list Expr) (t : Z) :
  str (Functor n ts t) = str_formula n (map str ts).
Proof. now destruct ts. Qed.

Lemma str_Predicate (n : string) (ts : list Expr) :
  str (Predicate n ts) = str_formula n (map str ts).
Proof. now destruct ts. Qed.

Lemma str_set_creation_time (e : Expr) (t : Z) :
  str (set_creation_time e t) = str e.
Proof.
  induction e as [| |n ts t' IH|n ts IH| | | | | |] using Expr_induction;
    try (simpl; congruence).
  - cbn [set_creation_time]. rewrite !str_Functor, map_map.
    f_equal. now apply map_ext_Forall.
  - cbn [set_creation_time]. rewrite !str_Predicate, map_map.
    f_equal. now apply map_ext_Forall.
Qed.

Lemma eqb_refl (a : Expr) : eqb a a = true.
Proof. now apply eqb_erase. Qed.

Lemma eqb_sym (a b : Expr) : eqb a b = eqb b a.
Proof. apply bool_eq_iff. rewrite !eqb_erase. split; congruence. Qed.

Lemma eqb_trans (a b c : Expr) :
  eqb a b = true -> eqb b c = true -> eqb a c = true.
Proof. rewrite !eqb_erase. congruence. Qed.

(** Equal expressions are interchangeable on either side of [==]. *)
Lemma eqb_congr_l (a a' b : Expr) : eqb a a' = true -> eqb a b = eqb a' b.
Proof.
  intros E. apply bool_eq_iff. rewrite eqb_erase in E. rewrite !eqb_erase.
  split; congruence.
Qed.

Lemma eqb_congr_r (a b b' : Expr) : eqb b b' = true -> eqb a b = eqb a b'.
Proof. intros E. rewrite (eqb_sym a b), (eqb_sym a b'). now apply eqb_congr_l. Qed.

Lemma eqb_set_creation_time (a : Expr) (t : Z) :
  eqb (set_creation_time a t) a = true.
Proof. apply eqb_erase. apply set_creation_time_twice. Qed.

(** Whatever the times of two expressions are changed to, in whichever
    of their nodes, [==] answers as before. *)
Lemma eqb_retimed (a a' b b' : Expr) :
  set_creation_time a' 0 = set_creation_time a 0 ->
  set_creation_time b' 0 = set_creation_time b 0 ->
  eqb a' b' = eqb a b.
Proof.
  intros Ea Eb. apply bool_eq_iff. rewrite !eqb_erase. split; congruence.
Qed.

Lemma eqb_str (a b : Expr) : eqb a b = true -> str a = str b.
Proof.
  rewrite eqb_erase. intros E.
  rewrite <- (str_set_creation_time a 0), E. apply str_set_creation_time.
Qed.

Lemma eqb_is_Functor (a b : Expr) :
  eqb a b = true -> is_Functor a = is_Functor b.
Proof. destruct a, b; simpl; congruence. Qed.

Lemma is_Functor_set_creation_time (e : Expr) (t : Z) :
  is_Functor (set_creation_time e t) = is_Functor e.
Proof. now destruct e. Qed.

Lemma py_hash_set_creation_time (H : string -> Z) (e : Expr) (t : Z) :
  py_hash H (set_creation_time e t) = py_hash H e.
Proof.
  unfold py_hash.
  now rewrite is_Functor_set_creation_time, str_set_creation_time.
Qed.

(** C4, as it is stated, fails: a [Variable] and a [Term] of one name have
    the same printed form and are not equal ([__eq__] tests the class
    first). *)
Lemma same_print_not_equal :
  str (Var "x" 0) = str (Term "x" 0) /\ eqb (Var "x" 0) (Term "x" 0) = false.
Proof. split; reflexivity. Qed.

(** C4, as amended: [a == b] implies that [a] and [b] print alike; on
    every class that defines [__hash__] (all but [Functor]) the hash is
    the hash of the printed form, so equal expressions hash equal. *)
Theorem equal_implies_same_print_and_hash
  (H : string -> Z) (a b : Expr) :
  eqb a b = true ->
  str a = str b /\
  (is_Functor a = false ->
   py_hash H a = Ok (H (str a)) /\ py_hash H b = Ok (H (str a))).
Proof.
  intros E. pose proof (eqb_str a b E) as Es. split; [exact Es|].
  intros Hf. unfold py_hash.
  rewrite <- (eqb_is_Functor a b E), Hf, Es. split; reflexivity.
Qed.

Lemma equal_implies_same_print_and_hash_witness :
  str (Predicate "P" [Term "t" 0]) = str (Predicate "P" [Term "t" 3]) /\
  (is_Functor (Predicate "P" [Term "t" 0]) = false ->
   py_hash length_hash (Predicate "P" [Term "t" 0])
   = Ok (length_hash (str (Predicate "P" [Term "t" 0]))) /\
   py_hash length_hash (Predicate "P" [Term "t" 3])
   = Ok (length_hash (str (Predicate "P" [Term "t" 0])))).
Proof.
  exact (equal_implies_same_print_and_hash length_hash
           (Predicate "P" [Term "t" 0]) (Predicate "P" [Term "t" 3]) eq_refl).
Defined.

Lemma dict_get_set_creation_time (d : list (Expr * Z)) (k : Expr) (t : Z) :
  dict_get d (set_creation_time k t) = dict_get d k.
Proof.
  induction d as [|[k' v] d IH]; simpl; [reflexivity|].
  now rewrite (eqb_congr_r k' _ k (eqb_set_creation_time k t)), IH.
Qed.

Lemma dict_get_retime (d : list (Expr * Z)) (k : Expr) (t : Z) :
  dict_get (retime t d) k = dict_get d k.
Proof.
  induction d as [|[k' v] d IH]; simpl; [reflexivity|].
  now rewrite (eqb_congr_l _ k' k (eqb_set_creation_time k' t)), IH.
Qed.

Lemma keys_retime (t : Z) (d : list (Expr * Z)) :
  keys (retime t d) = map (fun k => set_creation_time k t) (keys d).
Proof. unfold keys, retime. now rewrite !map_map. Qed.

Lemma dict_mem_set_creation_time (d : list (Expr * Z)) (k : Expr) (t : Z) :
  dict_mem d (set_creation_time k t) = dict_mem d k.
Proof.
  unfold dict_mem. induction d as [|[k' v] d IH]; simpl; [reflexivity|].
  now rewrite (eqb_congr_r k' _ k (eqb_set_creation_time k t)), IH.
Qed.

Lemma dict_mem_retime (d : list (Expr * Z)) (k : Expr) (t : Z) :
  dict_mem (retime t d) k = dict_mem d k.
Proof.
  unfold dict_mem. induction d as [|[k' v] d IH]; simpl; [reflexivity|].
  now rewrite (eqb_congr_l _ k' k (eqb_set_creation_time k' t)), IH.
Qed.

Lemma forallb_keys_retime (p : Expr -> bool) (t : Z) (d : list (Expr * Z)) :
  (forall k, p (set_creation_time k t) = p k) ->
  forallb p (keys (retime t d)) = forallb p (keys d).
Proof.
  intros Hp. rewrite keys_retime.
  induction (keys d) as [|k ks IH]; simpl; [reflexivity|].
  now rewrite Hp, IH.
Qed.

Lemma forallb_pointwise {A : Type} (f g : A -> bool) (l : list A) :
  (forall a, f a = g a) -> forallb f l = forallb g l.
Proof.
  intros Hfg. induction l as [|a l IH]; simpl; [reflexivity|].
  now rewrite Hfg, IH.
Qed.

Lemma sequent_str_retime (t : Z) (s : Sequent) :
  sequent_str (retime_sequent t s) = sequent_str s.
Proof.
  unfold sequent_str, retime_sequent. cbn [left right].
  rewrite !keys_retime, !map_map.
  rewrite !(map_ext _ str (fun k => str_set_creation_time k t)).
  reflexivity.
Qed.

Lemma sequent_eqb_retime_r (t : Z) (y s : Sequent) :
  sequent_eqb y (retime_sequent t s) = sequent_eqb y s.
Proof.
  unfold sequent_eqb, retime_sequent. cbn [left right].
  rewrite !forallb_keys_retime
    by (intros; apply dict_mem_set_creation_time).
  rewrite (forallb_pointwise (fun f => dict_mem (retime t (left s)) f)
             (fun f => dict_mem (left s) f))
    by (intros; apply dict_mem_retime).
  rewrite (forallb_pointwise (fun f => dict_mem (retime t (right s)) f)
             (fun f => dict_mem (right s) f))
    by (intros; apply dict_mem_retime).
  reflexivity.
Qed.

Lemma in_set_retime (H : string -> Z) (S : list Sequent) (t : Z) (s : Sequent) :
  in_set H S (retime_sequent t s) = in_set H S s.
Proof.
  unfold in_set, sequent_hash. rewrite sequent_str_retime.
  induction S as [|y S IH]; simpl; [reflexivity|].
  now rewrite sequent_eqb_retime_r, IH.
Qed.

Lemma sequent_eqb_sym (a b : Sequent) : sequent_eqb a b = sequent_eqb b a.
Proof.
  unfold sequent_eqb.
  destruct (forallb _ (keys (left a))), (forallb _ (keys (left b))),
    (forallb _ (keys (right a))), (forallb _ (keys (right b))); reflexivity.
Qed.

Lemma sequent_eqb_retime_l (t : Z) (y s : Sequent) :
  sequent_eqb (retime_sequent t y) s = sequent_eqb y s.
Proof.
  now rewrite sequent_eqb_sym, sequent_eqb_retime_r, sequent_eqb_sym.
Qed.

Lemma in_set_retime_members (H : string -> Z) (S : list Sequent) (t : Z)
  (s : Sequent) :
  in_set H (map (retime_sequent t) S) s = in_set H S s.
Proof.
  unfold in_set, sequent_hash.
  induction S as [|y S IH]; simpl; [reflexivity|].
  now rewrite sequent_str_retime, sequent_eqb_retime_l, IH.
Qed.

(** C10.  [==] and [hash] do not depend on creation times: setting the
    time of either operand leaves [a == b] as it was, and [hash(a)] and
    the printed form of [a] with it; two [Term]s, or two [Variable]s, of
    one name are equal and hash equal whatever their times; a dictionary
    finds the same entry when the time of the key looked up, or of the
    keys stored, has been set; and a sequent is in a set of sequents, such
    as [proven], after the times of its formulas, or of those of the
    members, have been set exactly if it was before. *)
Theorem equality_and_hash_ignore_creation_time
  (H : string -> Z) (a b : Expr) (t : Z) (n : string) (t1 t2 : Z)
  (d : list (Expr * Z)) (S : list Sequent) (x : Sequent) :
  eqb (set_creation_time a t) b = eqb a b /\
  eqb a (set_creation_time b t) = eqb a b /\
  eqb (set_creation_time a t) (set_creation_time b t) = eqb a b /\
  py_hash H (set_creation_time a t) = py_hash H a /\
  str (set_creation_time a t) = str a /\
  eqb (Term n t1) (Term n t2) = true /\
  py_hash H (Term n t1) = py_hash H (Term n t2) /\
  eqb (Var n t1) (Var n t2) = true /\
  py_hash H (Var n t1) = py_hash H (Var n t2) /\
  dict_get d (set_creation_time a t) = dict_get d a /\
  dict_get (retime t d) a = dict_get d a /\
  in_set H S (retime_sequent t x) = in_set H S x /\
  in_set H (map (retime_sequent t) S) x = in_set H S x.
Proof.
  pose proof (eqb_set_creation_time a t) as Ea.
  pose proof (eqb_set_creation_time b t) as Eb.
  rewrite eqb_sym in Eb.
  repeat split.
  - now apply eqb_congr_l.
  - symmetry. now apply eqb_congr_r.
  - rewrite (eqb_congr_l _ a _ Ea). symmetry. now apply eqb_congr_r.
  - apply py_hash_set_creation_time.
  - apply str_set_creation_time.
  - simpl. apply String.eqb_refl.
  - simpl. apply String.eqb_refl.
  - apply dict_get_set_creation_time.
  - apply dict_get_retime.
  - apply in_set_retime.
  - apply in_set_retime_members.
Qed.

(** ** Replacement *)

Lemma replace_unfold (e c n : Expr) :
  replace e c n =
  if eqb e c then n
  else
    match e with
    | Var _ _ => e
    | Term _ _ => e
    | Functor m ts _ => Functor m (map (fun t => replace t c n) ts) 0
    | Predicate m ts => Predicate m (map (fun t => replace t c n) ts)
    | Not f => Not (replace f c n)
    | And f1 f2 => And (replace f1 c n) (replace f2 c n)
    | Or f1 f2 => Or (replace f1 c n) (replace f2 c n)
    | Implies f1 f2 => Implies (replace f1 c n) (replace f2 c n)
    | ForAll v f => ForAll (replace v c n) (replace f c n)
    | ThereExists v f => ThereExists (replace v c n) (replace f c n)
    end.
Proof. destruct e; reflexivity. Qed.

Lemma contains_unfold (e c : Expr) :
  contains e c =
  eqb e c ||
  match e with
  | Var _ _ => false
  | Term _ _ => false
  | Functor _ ts _ => existsb (fun t => contains t c) ts
  | Predicate _ ts => existsb (fun t => contains t c) ts
  | Not f => contains f c
  | And f1 f2 => contains f1 c || contains f2 c
  | Or f1 f2 => contains f1 c || contains f2 c
  | Implies f1 f2 => contains f1 c || contains f2 c
  | ForAll v f => contains v c || contains f c
  | ThereExists v f => contains v c || contains f c
  end.
Proof. destruct e; reflexivity. Qed.

Lemma all2_refl_map (g : Expr -> Expr) (ts : list Expr) :
  Forall (fun t => eqb (g t) t = true) ts -> all2 eqb (map g ts) ts = true.
Proof. induction 1; simpl; [reflexivity | now rewrite H, IHForall]. Qed.

Lemma existsb_false_Forall {A : Type} (p : A -> bool) (l : list A) :
  existsb p l = false <-> Forall (fun a => p a = false) l.
Proof.
  induction l; simpl; [intuition constructor|].
  rewrite orb_false_iff, IHl. split; [intros []; now constructor|].
  intros F. inversion F; auto.
Qed.

(** Where [c] is no subexpression of [e], [replace] rebuilds [e] as it
    is, up to the times of the rebuilt nodes. *)
Lemma replace_not_contained (e c n : Expr) :
  contains e c = false -> eqb (replace e c n) e = true.
Proof.
  induction e as [m t|m t|m ts t IH|m ts IH|f IH|f1 f2 IH1 IH2|f1 f2 IH1 IH2
    |f1 f2 IH1 IH2|v f IHv IHf|v f IHv IHf] using Expr_induction;
    rewrite contains_unfold, replace_unfold, orb_false_iff;
    intros [-> Hc]; try apply eqb_refl.
  - cbn [eqb]. rewrite String.eqb_refl, length_map, Nat.eqb_refl. simpl.
    apply all2_refl_map. apply existsb_false_Forall in Hc.
    rewrite Forall_forall in *. auto.
  - cbn [eqb]. rewrite String.eqb_refl, length_map, Nat.eqb_refl. simpl.
    apply all2_refl_map. apply existsb_false_Forall in Hc.
    rewrite Forall_forall in *. auto.
  - cbn [eqb]. auto.
  - apply orb_false_iff in Hc as [H1 H2]. cbn [eqb]. now rewrite IH1, IH2.
  - apply orb_false_iff in Hc as [H1 H2]. cbn [eqb]. now rewrite IH1, IH2.
  - apply orb_false_iff in Hc as [H1 H2]. cbn [eqb]. now rewrite IH1, IH2.
  - apply orb_false_iff in Hc as [H1 H2]. cbn [eqb]. now rewrite IHv, IHf.
  - apply orb_false_iff in Hc as [H1 H2]. cbn [eqb]. now rewrite IHv, IHf.
Qed.

(** A node rebuilt by [replace] is equal to a childless [c] only if the
    node was. *)
Lemma eqb_rebuilt_atomic (g : Expr -> Expr) (e c : Expr) :
  atomic c = true ->
  eqb e c = false ->
  eqb match e with
      | Var _ _ => e
      | Term _ _ => e
      | Functor m ts _ => Functor m (map g ts) 0
      | Predicate m ts => Predicate m (map g ts)
      | Not f => Not (g f)
      | And f1 f2 => And (g f1) (g f2)
      | Or f1 f2 => Or (g f1) (g f2)
      | Implies f1 f2 => Implies (g f1) (g f2)
      | ForAll v f => ForAll (g v) (g f)
      | ThereExists v f => ThereExists (g v) (g f)
      end c = false.
Proof.
  destruct c as [| |m [|u us] t|m [|u us]| | | | | |]; try discriminate;
    intros _; destruct e as [| |m' [|u' us'] t'|m' [|u' us']| | | | | |];
    simpl; auto; intros E; rewrite ?andb_false_r; auto.
Qed.

(** Replacing a childless [c] by an [n] without [c] leaves no [c]. *)
Lemma replace_removes_atomic (e c n : Expr) :
  atomic c = true ->
  contains n c = false ->
  contains (replace e c n) c = false.
Proof.
  intros Hat Hn.
  induction e as [m t|m t|m ts t IH|m ts IH|f IH|f1 f2 IH1 IH2|f1 f2 IH1 IH2
    |f1 f2 IH1 IH2|v f IHv IHf|v f IHv IHf] using Expr_induction;
    rewrite replace_unfold; destruct (eqb _ c) eqn:E; auto;
    rewrite contains_unfold;
    rewrite (eqb_rebuilt_atomic (fun t => replace t c n) _ c Hat E);
    cbn [orb]; rewrite ?IH, ?IH1, ?IH2, ?IHv, ?IHf; auto.
  - apply existsb_false_Forall. rewrite Forall_map. exact IH.
  - apply existsb_false_Forall. rewrite Forall_map. exact IH.
Qed.

(** C9, as it is stated, fails: with [e = f(f(a))], [c = f(a)] and
    [n = a], the first replacement turns [e] into [f(a)], which the second
    turns into [a]; [n] does not contain [c]. *)
Lemma replace_twice_differs :
  let a := Var "a" 0 in
  let c := Functor "f" [a] 0 in
  let e := Functor "f" [c] 0 in
  contains a c = false /\
  replace e c a = Functor "f" [a] 0 /\
  replace (replace e c a) c a = a /\
  eqb (replace (replace e c a) c a) (replace e c a) = false.
Proof. repeat split. Qed.

(** C9, as amended: [replace(replace(e, c, n), c, n) == replace(e, c, n)]
    whenever [n] does not contain [c] and [c] has no children (a
    [Variable], a [Term], or a [Functor] or [Predicate] without
    arguments). *)
Theorem replace_idempotent (e c n : Expr) :
  atomic c = true ->
  contains n c = false ->
  eqb (replace (replace e c n) c n) (replace e c n) = true.
Proof.
  intros Hat Hn. apply replace_not_contained.
  now apply replace_removes_atomic.
Qed.

Lemma replace_idempotent_witness :
  let e := Predicate "P" [Var "x" 0; Functor "f" [Var "x" 0; Term "t" 0] 0] in
  let c := Var "x" 0 in
  let n := Functor "g" [Term "t" 0] 0 in
  eqb (replace (replace e c n) c n) (replace e c n) = true.
Proof.
  exact (replace_idempotent
           (Predicate "P" [Var "x" 0; Functor "f" [Var "x" 0; Term "t" 0] 0])
           (Var "x" 0) (Functor "g" [Term "t" 0] 0) eq_refl eq_refl).
Defined.

(** ** The creation-time test of [unify] *)

(** C2, as it is stated, fails: [unify] compares the time of the whole
    expression only.  [f(x)] with time [0] is bound to a term of time [0]
    although its child [x] has time [1]. *)
Lemma unify_binds_later_subexpression :
  let tau := Term "t" 0 in
  let later := Var "x" 1 in
  let e := Functor "f" [later] 0 in
  unify 1 tau e = Ok (Some [(tau, e)]) /\
  unify 1 e tau = Ok (Some [(tau, e)]) /\
  contains e later = true /\
  get_time later = Ok 1 /\
  get_time tau = Ok 0.
Proof. repeat split. Qed.

(** C2, as amended: [unify(tau, e)] returns [None] whenever the creation
    time of [e] itself is greater than that of the term [tau], and so does
    [unify(e, tau)] when [e] is not a [Term]. *)
Theorem unify_fails_on_later_time
  (fuel : nat) (n : string) (time_tau : Z) (e : Expr) (time_e : Z) :
  get_time e = Ok time_e ->
  time_e > time_tau ->
  unify (S fuel) (Term n time_tau) e = Ok None /\
  (is_Term e = false -> unify (S fuel) e (Term n time_tau) = Ok None).
Proof.
  intros He Hgt.
  assert (Hb : bind_term (Term n time_tau) e = Ok None).
  { unfold bind_term. destruct (occurs e (Term n time_tau)); [reflexivity|].
    rewrite He. simpl. now apply Z.gtb_gt in Hgt as ->. }
  split; [exact Hb|]. intros Hn. simpl. now rewrite Hn.
Qed.

Lemma unify_fails_on_later_time_witness :
  unify 1 (Term "t" 2) (Functor "f" [Var "x" 0] 3) = Ok None /\
  (is_Term (Functor "f" [Var "x" 0] 3) = false ->
   unify 1 (Functor "f" [Var "x" 0] 3) (Term "t" 2) = Ok None).
Proof.
  refine (unify_fails_on_later_time 0 "t" 2 (Functor "f" [Var "x" 0] 3) 3
            eq_refl _).
  lia.
Defined.

(** Where [unify] raises: one argument is a [Term], the other is of a
    class without [time], and the term does not occur in it. *)
Lemma unify_raises_without_time (fuel : nat) (n : string) (t : Z) (e : Expr) :
  occurs e (Term n t) = false ->
  get_time e = Raise AttributeError ->
  unify (S fuel) (Term n t) e = Raise AttributeError /\
  unify (S fuel) e (Term n t) = Raise AttributeError.
Proof.
  intros Ho Ht.
  assert (Hb : bind_term (Term n t) e = Raise AttributeError)
    by (unfold bind_term; now rewrite Ho, Ht).
  split; [exact Hb|]. simpl.
  destruct e; simpl in *; try discriminate; exact Hb.
Qed.

(** ** The choice of the formula to expand *)

Lemma scan_spec (items : list (Expr * Z)) (best : option (Expr * Z)) :
  match scan items best with
  | None =>
      best = None /\ Forall (fun kv => is_Predicate (fst kv) = true) items
  | Some (f, d) =>
      (best = Some (f, d) \/ In (f, d) items /\ is_Predicate f = false) /\
      (forall f' d', best = Some (f', d') -> d <= d') /\
      (forall g e, In (g, e) items -> is_Predicate g = false -> d <= e)
  end.
Proof.
  revert best. induction items as [|[g e] items IH]; intros best; simpl.
  - destruct best as [[f d]|]; [|now split].
    repeat split; [now left | intros ? ? [= _ <-]; lia | contradiction].
  - match goal with |- context [scan items ?b] => specialize (IH b) end.
    destruct (scan items _) as [[f d]|].
    + destruct IH as (Hin & Hbest & Hmin).
      destruct best as [[bf bd]|]; simpl in *.
      * destruct (bd >? e) eqn:Hgt; simpl in *.
        -- destruct (is_Predicate g) eqn:Hg; simpl in *.
           ++ repeat split; [tauto | exact Hbest |].
              intros g' e' [[= <- <-]|Hi] Hp; [congruence | eauto].
           ++ pose proof (Hbest _ _ eq_refl) as Hle.
              apply Z.gtb_gt in Hgt. repeat split.
              ** destruct Hin as [[= <- <-]|[Hi Hp]]; auto.
              ** intros ? ? [= _ <-]. lia.
              ** intros g' e' [[= <- <-]|Hi] Hp; eauto.
        -- pose proof (Hbest _ _ eq_refl) as Hle.
           assert (bd <= e) by (rewrite Z.gtb_ltb in Hgt;
                                  now apply Z.ltb_ge in Hgt).
           repeat split; [tauto | exact Hbest |].
           intros g' e' [[= <- <-]|Hi] Hp; [lia | eauto].
      * destruct (is_Predicate g) eqn:Hg; simpl in *.
        -- repeat split; [tauto | discriminate |].
           intros g' e' [[= <- <-]|Hi] Hp; [congruence | eauto].
        -- pose proof (Hbest _ _ eq_refl) as Hle. repeat split.
           ++ destruct Hin as [[= <- <-]|[Hi Hp]]; auto.
           ++ discriminate.
           ++ intros g' e' [[= <- <-]|Hi] Hp; eauto.
    + destruct IH as (Hb & Hall).
      destruct best as [[bf bd]|]; simpl in *.
      * destruct (bd >? e), (is_Predicate g); simpl in *; discriminate.
      * destruct (is_Predicate g) eqn:Hg; simpl in *; [|discriminate].
        split; [reflexivity | now constructor].
Qed.

Lemma scan_None_spec (items : list (Expr * Z)) :
  match scan items None with
  | None => Forall (fun kv => is_Predicate (fst kv) = true) items
  | Some (f, d) =>
      In (f, d) items /\ is_Predicate f = false /\
      (forall g e, In (g, e) items -> is_Predicate g = false -> d <= e)
  end.
Proof.
  pose proof (scan_spec items None) as Hs.
  destruct (scan items None) as [[f d]|]; [|tauto].
  destruct Hs as ([Hn|[Hi Hp]] & _ & Hmin); [discriminate | auto].
Qed.

(** C5, as it is stated, fails: with [¬A] on the left and [¬B] on the
    right, both at depth [0], the right formula is expanded. *)
Lemma tie_expands_right :
  choose (mkSequent [(Not (Predicate "A" []), 0)]
            [(Not (Predicate "B" []), 0)] None 0)
  = ApplyRight (Not (Predicate "B" [])) 0.
Proof. reflexivity. Qed.

(** C5, as amended: the formula expanded is not a [Predicate] and has the
    smallest depth among the formulas of both sides that are not; the left
    formula is expanded only when its depth is smaller than that of every
    such formula on the right, so when the smallest depths of the two
    sides are equal the right formula is expanded; the search is stuck
    exactly when both sides hold predicates only. *)
Theorem choose_smallest_depth_right_on_ties (s : Sequent) :
  match choose s with
  | ApplyLeft f d =>
      In (f, d) (left s) /\ is_Predicate f = false /\
      (forall g e, In (g, e) (left s) -> is_Predicate g = false -> d <= e) /\
      (forall g e, In (g, e) (right s) -> is_Predicate g = false -> d < e)
  | ApplyRight f d =>
      In (f, d) (right s) /\ is_Predicate f = false /\
      (forall g e, In (g, e) (right s) -> is_Predicate g = false -> d <= e) /\
      (forall g e, In (g, e) (left s) -> is_Predicate g = false -> d <= e)
  | Stuck =>
      Forall (fun kv => is_Predicate (fst kv) = true) (left s) /\
      Forall (fun kv => is_Predicate (fst kv) = true) (right s)
  end /\
  (forall lf rf d,
     scan (left s) None = Some (lf, d) ->
     scan (right s) None = Some (rf, d) ->
     choose s = ApplyRight rf d).
Proof.
  unfold choose.
  pose proof (scan_None_spec (left s)) as Hl.
  pose proof (scan_None_spec (right s)) as Hr.
  split.
  - destruct (scan (left s) None) as [[lf ld]|],
             (scan (right s) None) as [[rf rd]|].
    + destruct Hl as (Hli & Hlp & Hlm), Hr as (Hri & Hrp & Hrm).
      destruct (ld <? rd) eqn:Hlt.
      * apply Z.ltb_lt in Hlt. repeat split; auto.
        intros g e Hi Hp. specialize (Hrm g e Hi Hp). lia.
      * apply Z.ltb_ge in Hlt. repeat split; auto.
        intros g e Hi Hp. specialize (Hlm g e Hi Hp). lia.
    + destruct Hl as (Hli & Hlp & Hlm). repeat split; auto.
      intros g e Hi Hp. rewrite Forall_forall in Hr.
      specialize (Hr _ Hi). simpl in Hr. congruence.
    + destruct Hr as (Hri & Hrp & Hrm). repeat split; auto.
      intros g e Hi Hp. rewrite Forall_forall in Hl.
      specialize (Hl _ Hi). simpl in Hl. congruence.
    + now split.
  - intros lf rf d -> ->. now rewrite Z.ltb_irrefl.
Qed.

(** ** Sets of sequents *)

Lemma dict_mem_keys {V : Type} (d : list (Expr * V)) (k : Expr) :
  In k (map fst d) -> dict_mem d k = true.
Proof.
  unfold dict_mem. intros Hin. apply in_map_iff in Hin as (kv & <- & Hin).
  apply existsb_exists. exists kv. split; [exact Hin | apply eqb_refl].
Qed.

Lemma sequent_eqb_refl (s : Sequent) : sequent_eqb s s = true.
Proof.
  unfold sequent_eqb, keys.
  rewrite !andb_true_iff, !forallb_forall.
  repeat split; intros; now apply dict_mem_keys.
Qed.

Section SetsOfSequents.
Variable H : string -> Z.

Lemma in_set_app (S T : list Sequent) (x : Sequent) :
  in_set H (S ++ T) x = in_set H S x || in_set H T x.
Proof. apply existsb_app. Qed.

Lemma in_set_self (x : Sequent) : in_set H [x] x = true.
Proof.
  unfold in_set. simpl. now rewrite Z.eqb_refl, sequent_eqb_refl.
Qed.

Lemma in_set_add_self (S : list Sequent) (x : Sequent) :
  in_set H (add H S x) x = true.
Proof.
  unfold add. destruct (in_set H S x) eqn:E; [exact E|].
  now rewrite in_set_app, in_set_self, orb_true_r.
Qed.

Lemma in_set_add_mono (S : list Sequent) (x y : Sequent) :
  in_set H S y = true -> in_set H (add H S x) y = true.
Proof.
  unfold add. intros Hy. destruct (in_set H S x); [exact Hy|].
  now rewrite in_set_app, Hy.
Qed.

Lemma in_set_union_mono (T S : list Sequent) (y : Sequent) :
  in_set H S y = true -> in_set H (union H S T) y = true.
Proof.
  unfold union. revert S. induction T as [|t T IH]; intros S Hy; simpl;
    [exact Hy|].
  apply IH. now apply in_set_add_mono.
Qed.

Lemma in_set_union_member (T S : list Sequent) (x : Sequent) :
  In x T -> in_set H (union H S T) x = true.
Proof.
  unfold union. revert S. induction T as [|t T IH]; intros S []; simpl.
  - subst. apply (in_set_union_mono T). apply in_set_add_self.
  - now apply IH.
Qed.

(** ** The dequeue loop *)

Lemma dequeue_from_spec (proven frontier : list Sequent) :
  forall old_sequent old rest,
    dequeue_from H proven old_sequent frontier = (old, rest) ->
    exists skipped,
      old_sequent :: frontier = (skipped ++ old :: rest)%list /\
      Forall (fun s => in_set H proven s = true) skipped /\
      (in_set H proven old = false \/ rest = []).
Proof.
  induction frontier as [|s frontier IH]; intros old_sequent old rest; simpl.
  - intros [= <- <-]. exists []. repeat split; auto.
  - destruct (in_set H proven old_sequent) eqn:E.
    + intros Hd. destruct (IH _ _ _ Hd) as (skipped & Heq & Hall & Hlast).
      exists (old_sequent :: skipped). simpl. rewrite Heq.
      repeat split; auto.
    + intros [= <- <-]. exists []. repeat split; auto.
Qed.

Lemma dequeue_from_complete (proven skipped : list Sequent) :
  forall old_sequent frontier old rest,
    old_sequent :: frontier = (skipped ++ old :: rest)%list ->
    Forall (fun s => in_set H proven s = true) skipped ->
    in_set H proven old = false \/ rest = [] ->
    dequeue_from H proven old_sequent frontier = (old, rest).
Proof.
  induction skipped as [|s skipped IH];
    intros old_sequent frontier old rest; simpl.
  - intros [= -> ->] _ Hlast. destruct rest as [|r rest]; [reflexivity|].
    destruct Hlast as [Hn|]; [|discriminate]. simpl. now rewrite Hn.
  - intros [= -> ->] Hall Hlast.
    assert (Hs : in_set H proven s = true) by now inversion Hall.
    assert (Hrest : Forall (fun s => in_set H proven s = true) skipped)
      by now inversion Hall.
    destruct skipped as [|s' skipped]; simpl.
    + rewrite Hs. now apply (IH old rest old rest).
    + rewrite Hs. now apply (IH s' (skipped ++ old :: rest)%list old rest).
Qed.

End SetsOfSequents.

Lemma expand_not_true (H : string -> Z) (st : state) (old_sequent : Sequent) :
  expand H st old_sequent <> Ok (Return true).
Proof.
  unfold expand. destruct (choose old_sequent).
  - destruct (apply_left H st old_sequent left_formula); discriminate.
  - destruct (apply_right H st old_sequent right_formula); discriminate.
  - discriminate.
Qed.

(** C1, as it is stated, fails: the goal sequent is in [proven] from the
    start, is the one dequeued by the first iteration, and is expanded
    ([P → P] below has its successor pushed); and with the goal [P], where
    the frontier holds no sequent outside [proven], the search returns
    [False]. *)
Lemma goal_in_proven_is_expanded :
  let P := Predicate "P" [] in
  let goal := mkSequent [] [(Implies P P, 0)] None 0 in
  let st := initial_state goal in
  let stuck := initial_state (mkSequent [] [(P, 0)] None 0) in
  in_set length_hash (proven st) goal = true /\
  dequeue length_hash (proven st) (frontier st) = Some (goal, []) /\
  step length_hash (fun S => S) 1 st
  = Ok (Continue (mkState [mkSequent [(P, 1)] [(P, 1)] None 1] [goal] [])) /\
  Forall (fun s => in_set length_hash (proven stuck) s = true)
    (frontier stuck) /\
  run length_hash (fun S => S) 1 1 stuck = Ok false.
Proof. repeat split. repeat constructor. Qed.

(** C1, as amended: an iteration returns [True] exactly when the frontier
    is empty at its start.  Otherwise the frontier splits in one way into
    the sequents that the dequeue loop pops and drops, all of them in
    [proven], the sequent at which the loop stops, and the rest; the loop
    stops at the first sequent that is not in [proven], or at the last
    sequent of the frontier when there is none.  The iteration is the
    processing of that one sequent in the state whose frontier is the
    rest: the sequents dropped are not processed and do not come back.
    The sequent processed is therefore not in [proven] unless it was the
    last sequent of the frontier. *)
Theorem dequeue_processes_last_popped
  (H : string -> Z) (set_iter : list Sequent -> list Sequent)
  (fuel : nat) (st : state) :
  (frontier st = [] <-> step H set_iter fuel st = Ok (Return true)) /\
  (forall skipped old_sequent rest,
     frontier st = (skipped ++ old_sequent :: rest)%list ->
     Forall (fun s => in_set H (proven st) s = true) skipped ->
     in_set H (proven st) old_sequent = false \/ rest = [] ->
     step H set_iter fuel st
     = process H set_iter fuel (mkState rest (proven st) (store st))
         old_sequent) /\
  (frontier st <> [] ->
   exists skipped old_sequent rest,
     frontier st = (skipped ++ old_sequent :: rest)%list /\
     Forall (fun s => in_set H (proven st) s = true) skipped /\
     (in_set H (proven st) old_sequent = false \/ rest = [])).
Proof.
  split; [|split].
  - unfold step, process, dequeue. destruct (frontier st) as [|s frontier0].
    + now split.
    + split; [discriminate|]. intros Hs. exfalso.
      destruct (dequeue_from H (proven st) s frontier0) as [old rest].
      cbn [frontier proven store] in Hs.
      destruct (existsb _ _); [discriminate|].
      destruct (siblings old) as [a|]; [|now apply expand_not_true in Hs].
      destruct (map_res _ _) as [lists| |]; cbn [bind] in Hs;
        try discriminate.
      destruct (forallb _ lists).
      * match type of Hs with
        | context [search ?f ?r ?l ?i] =>
            destruct (search f r l i) as [[sub|]| |]
        end; cbn [bind] in Hs; try discriminate.
        now apply expand_not_true in Hs.
      * destruct (remove H _ old); cbn [bind] in Hs; try discriminate.
        now apply expand_not_true in Hs.
  - intros skipped old rest Hf Hall Hlast. unfold step, dequeue.
    destruct (frontier st) as [|s frontier0];
      [now destruct skipped|].
    now rewrite (dequeue_from_complete H (proven st) skipped s frontier0
                   old rest Hf Hall Hlast).
  - unfold dequeue. destruct (frontier st) as [|s frontier0];
      [now intros []|]. intros _.
    destruct (dequeue_from H (proven st) s frontier0) as [old rest] eqn:Hd.
    destruct (dequeue_from_spec H _ _ _ _ _ Hd) as (skipped & Hs).
    now exists skipped, old, rest.
Qed.

Lemma dequeue_processes_last_popped_witness :
  let P := Predicate "P" [] in
  let goal := mkSequent [] [(Implies P P, 0)] None 0 in
  let next := mkSequent [(P, 1)] [(P, 1)] None 1 in
  let other := mkSequent [] [(P, 0)] None 0 in
  step length_hash (fun S => S) 0 (mkState [goal; goal; next; other] [goal] [])
  = process length_hash (fun S => S) 0 (mkState [other] [goal] []) next.
Proof.
  intros P goal next other.
  apply (proj1 (proj2 (dequeue_processes_last_popped length_hash
                         (fun S => S) 0
                         (mkState [goal; goal; next; other] [goal] [])))
           [goal; goal] next [other]).
  - reflexivity.
  - repeat constructor.
  - left. reflexivity.
Defined.

(** ** Closing a sibling group *)

(** C8.  When the search over the simultaneous selections returns a
    substitution, the iteration ends with every member of the sibling
    group of the dequeued sequent in [proven] and with no member left in
    the frontier; what was in [proven] stays there.  This holds whatever
    the order in which the set of siblings is run over. *)
Theorem siblings_close_together
  (H : string -> Z) (set_iter : list Sequent -> list Sequent) (fuel : nat)
  (st : state) (old_sequent : Sequent) (rest : list Sequent) (a : nat)
  (sibling_pair_lists : list (list (Expr * Expr))) (s : substitution) :
  dequeue H (proven st) (frontier st) = Some (old_sequent, rest) ->
  existsb (fun f => dict_mem (right old_sequent) f) (keys (left old_sequent))
  = false ->
  siblings old_sequent = Some a ->
  map_res (get_unification_pairs fuel) (set_iter (store_get (store st) a))
  = Ok sibling_pair_lists ->
  forallb (fun pair_list => Nat.ltb 0 (length pair_list)) sibling_pair_lists
  = true ->
  search fuel (S (selections sibling_pair_lists)) sibling_pair_lists
    (map (fun _ => 0%nat) sibling_pair_lists) = Ok (Some s) ->
  exists st',
    step H set_iter fuel st = Ok (Continue st') /\
    (forall x, In x (store_get (store st) a) ->
               in_set H (proven st') x = true) /\
    (forall x, In x (frontier st') ->
               in_set H (store_get (store st) a) x = false) /\
    (forall x, in_set H (proven st) x = true ->
               in_set H (proven st') x = true).
Proof.
  intros Hd Hax Hsib Hpairs Hall Hsearch.
  exists (close_siblings H (mkState rest (proven st) (store st))
            (store_get (store st) a)).
  split; [|repeat split].
  - unfold step, process. rewrite Hd. cbn [frontier proven store].
    rewrite Hax, Hsib, Hpairs. cbn [bind]. rewrite Hall, Hsearch.
    reflexivity.
  - intros x Hx. cbn. now apply in_set_union_member.
  - intros x Hx. cbn in Hx. apply filter_In in Hx as [_ Hx].
    now apply negb_true_iff in Hx.
  - intros x Hx. cbn. now apply in_set_union_mono.
Qed.

(** ** The rules that keep their quantifier *)

Lemma dict_get_mem {V} (d : list (Expr * V)) k v : dict_get d k = Some v -> dict_mem d k = true.
Proof.
  induction d as [|[k' v'] d IH]; simpl; [discriminate|].
  destruct (eqb k' k); simpl; auto.
Qed.

Lemma dict_mem_set_present {V} (d : list (Expr * V)) k v k' :
  dict_mem d k = true -> dict_mem (dict_set d k v) k' = dict_mem d k'.
Proof.
  induction d as [|[k0 v0] d IH]; simpl; [discriminate|].
  destruct (eqb k0 k) eqn:E; simpl; [reflexivity|].
  intros Hm. now rewrite (IH Hm).
Qed.

Lemma dict_get_set_same {V} (d : list (Expr * V)) k v :
  dict_get (dict_set d k v) k = Some v.
Proof.
  induction d as [|[k0 v0] d IH]; simpl.
  - now rewrite eqb_refl.
  - destruct (eqb k0 k) eqn:E; simpl; now rewrite E.
Qed.

Lemma dict_set_absent {V} (d : list (Expr * V)) k v :
  dict_mem d k = false -> dict_set d k v = (d ++ [(k, v)])%list.
Proof.
  induction d as [|[k0 v0] d IH]; simpl; [reflexivity|].
  destruct (eqb k0 k); simpl; [discriminate|]. intros Hm. now rewrite IH.
Qed.

Lemma dict_get_app_present {V} (d d' : list (Expr * V)) k v :
  dict_get d k = Some v -> dict_get (d ++ d') k = Some v.
Proof.
  induction d as [|[k0 v0] d IH]; simpl; [discriminate|].
  destruct (eqb k0 k); auto.
Qed.

Lemma siblings_or_set_frontier st old :
  frontier (fst (siblings_or_set st old)) = frontier st.
Proof.
  unfold siblings_or_set. destruct (siblings old) as [a|]; [|reflexivity].
  now destruct (store_get (store st) a).
Qed.

Lemma push_frontier H st new : frontier (push H st new) = (frontier st ++ [new])%list.
Proof. reflexivity. Qed.


(** The proof of either quantifier rule that keeps its formula: [side] is
    the dictionary the rule works on. *)
Ltac instantiate_rule Happ quantifier side :=
  match type of Happ with
  | context [siblings_or_set ?st ?old] =>
      let Hf := fresh "Hf" in
      pose proof (siblings_or_set_frontier st old) as Hf;
      destruct (siblings_or_set st old) as [st1 a]; simpl in Hf;
      unfold lookup, assign, member in Happ;
      cbn [hashed is_Functor bind] in Happ;
      destruct (dict_get side quantifier) as [d|] eqn:Eg; [|discriminate];
      cbn [bind] in Happ;
      destruct (get_variable_name old "t") as [name| |]; cbn [bind] in Happ;
      try discriminate;
      match type of Happ with
      | context [hashed ?f] =>
          destruct (hashed f) as [[]| |]; cbn [bind] in Happ;
          try discriminate;
          pose proof (dict_get_mem _ _ _ Eg) as Hm;
          rewrite (dict_mem_set_present _ _ _ _ Hm), dict_get_set_same in Happ;
          cbn [bind] in Happ;
          destruct (dict_mem side f) eqn:Em; cbn [bind] in Happ;
          injection Happ as <-;
          eexists; exists d, name; cbn [left right depth];
          rewrite push_frontier, Hf, ?Em;
          (repeat split; try reflexivity);
          [ apply dict_get_set_same
          | rewrite dict_set_absent
              by (now rewrite (dict_mem_set_present _ _ _ _ Hm));
            apply dict_get_app_present, dict_get_set_same
          | apply dict_set_absent;
            now rewrite (dict_mem_set_present _ _ _ _ Hm) ]
      end
  end.

(** What a rule that keeps its quantifier has built, as values, when it
    returns. *)
Lemma quantifier_rule_result
  (H : string -> Z) (st : state) (old_sequent : Sequent)
  (variable body : Expr) (st' : state) :
  (apply_left H st old_sequent (ForAll variable body) = Ok st' ->
   exists new_sequent d name,
     frontier st' = (frontier st ++ [new_sequent])%list /\
     depth new_sequent = depth old_sequent + 1 /\
     right new_sequent = right old_sequent /\
     dict_get (left old_sequent) (ForAll variable body) = Some d /\
     dict_get (left new_sequent) (ForAll variable body) = Some (d + 1) /\
     get_variable_name old_sequent "t" = Ok name /\
     let formula :=
       set_creation_time (replace body variable (Term name 0))
         (depth old_sequent + 1) in
     left new_sequent =
       if dict_mem (left old_sequent) formula
       then dict_set (left old_sequent) (ForAll variable body) (d + 1)
       else (dict_set (left old_sequent) (ForAll variable body) (d + 1)
             ++ [(formula, d + 1)])%list) /\
  (apply_right H st old_sequent (ThereExists variable body) = Ok st' ->
   exists new_sequent d name,
     frontier st' = (frontier st ++ [new_sequent])%list /\
     depth new_sequent = depth old_sequent + 1 /\
     left new_sequent = left old_sequent /\
     dict_get (right old_sequent) (ThereExists variable body) = Some d /\
     dict_get (right new_sequent) (ThereExists variable body) = Some (d + 1) /\
     get_variable_name old_sequent "t" = Ok name /\
     let formula :=
       set_creation_time (replace body variable (Term name 0))
         (depth old_sequent + 1) in
     right new_sequent =
       if dict_mem (right old_sequent) formula
       then dict_set (right old_sequent) (ThereExists variable body) (d + 1)
       else (dict_set (right old_sequent) (ThereExists variable body) (d + 1)
             ++ [(formula, d + 1)])%list).
Proof.
  split; intros Happ.
  - unfold apply_left in Happ.
    instantiate_rule Happ (ForAll variable body) (left old_sequent).
  - unfold apply_right in Happ.
    instantiate_rule Happ (ThereExists variable body) (right old_sequent).
Qed.

(** Two instances of one quantifier on one branch: the ∀-left rule on
    the successor adds [P(t2)] beside [P(t1)]. *)
Lemma instances_coexist :
  apply_left length_hash (mkState [] [] [[example_successor]])
    example_successor (ForAll (Var "x" 0) (Predicate "P" [Var "x" 0]))
  = Ok (mkState
          [mkSequent
             [(ForAll (Var "x" 0) (Predicate "P" [Var "x" 0]), 2);
              (Predicate "P" [Term "t1" 1], 1);
              (Predicate "P" [Term "t2" 2], 2)]
             [(Predicate "P" [Functor "a" [] 0], 0)] (Some 0%nat) 2]
          []
          [[example_successor;
            mkSequent
              [(ForAll (Var "x" 0) (Predicate "P" [Var "x" 0]), 2);
               (Predicate "P" [Term "t1" 1], 1);
               (Predicate "P" [Term "t2" 2], 2)]
              [(Predicate "P" [Functor "a" [] 0], 0)] (Some 0%nat) 2]]).
Proof. reflexivity. Qed.

Lemma siblings_close_together_witness :
  exists st',
    step length_hash (fun S => S) 3 example_state = Ok (Continue st') /\
    (forall x, In x (store_get (store example_state) 0) ->
               in_set length_hash (proven st') x = true) /\
    (forall x, In x (frontier st') ->
               in_set length_hash (store_get (store example_state) 0) x
               = false) /\
    (forall x, in_set length_hash (proven example_state) x = true ->
               in_set length_hash (proven st') x = true).
Proof.
  exact (siblings_close_together length_hash (fun S => S) 3 example_state
           example_successor [] 0
           [[(Predicate "P" [Term "t1" 1], Predicate "P" [Functor "a" [] 0])]]
           [(Term "t1" 1, Functor "a" [] 0)]
           eq_refl eq_refl eq_refl eq_refl eq_refl eq_refl).
Defined.

(** ** Soundness of unification *)

Lemma existsb_ext_in {A : Type} (f g : A -> bool) (l : list A) :
  (forall a, In a l -> f a = g a) -> existsb f l = existsb g l.
Proof.
  induction l as [|a l IH]; simpl; [reflexivity|]. intros Hfg.
  rewrite (Hfg a) by auto. f_equal. apply IH. auto.
Qed.

(** The occurrences of a [Term], as [occurs] finds them. *)
Lemma is_Term_eqb k k' : is_Term k = true -> eqb k k' = true -> is_Term k' = true.
Proof. destruct k, k'; simpl; congruence. Qed.

Lemma eqb_Term_r e k : is_Term k = true -> is_Term e = false -> eqb e k = false.
Proof. destruct e, k; simpl; congruence. Qed.

Lemma occurs_key_eqb e k k' : eqb k k' = true -> occurs e k = occurs e k'.
Proof.
  intros E.
  induction e as [m t|m t|m ts t IH|m ts IH|f IH|f1 f2 IH1 IH2|f1 f2 IH1 IH2
    |f1 f2 IH1 IH2|v f IHv IHf|v f IHv IHf] using Expr_induction;
    cbn [occurs]; try congruence.
  - now apply eqb_congr_r.
  - apply existsb_ext_in. intros; rewrite Forall_forall in IH; auto.
  - apply existsb_ext_in. intros; rewrite Forall_forall in IH; auto.
Qed.

Lemma contains_is_occurs e k :
  binds_variables e = true -> is_Term k = true -> contains e k = occurs e k.
Proof.
  intros Hwf Hk.
  induction e as [m t|m t|m ts t IH|m ts IH|f IH|f1 f2 IH1 IH2|f1 f2 IH1 IH2
    |f1 f2 IH1 IH2|v f IHv IHf|v f IHv IHf] using Expr_induction;
    rewrite contains_unfold; cbn [occurs binds_variables] in *.
  - rewrite eqb_Term_r; auto.
  - apply orb_false_r.
  - rewrite eqb_Term_r by auto. cbn [orb]. apply existsb_ext_in.
    rewrite forallb_forall in Hwf. rewrite Forall_forall in IH. auto.
  - rewrite eqb_Term_r by auto. cbn [orb]. apply existsb_ext_in.
    rewrite forallb_forall in Hwf. rewrite Forall_forall in IH. auto.
  - rewrite eqb_Term_r by auto. cbn [orb]. auto.
  - apply andb_true_iff in Hwf as [H1 H2]. rewrite eqb_Term_r by auto.
    cbn [orb]. now rewrite IH1, IH2.
  - apply andb_true_iff in Hwf as [H1 H2]. rewrite eqb_Term_r by auto.
    cbn [orb]. now rewrite IH1, IH2.
  - apply andb_true_iff in Hwf as [H1 H2]. rewrite eqb_Term_r by auto.
    cbn [orb]. now rewrite IH1, IH2.
  - apply andb_true_iff in Hwf as [H1 H2]. rewrite eqb_Term_r by auto.
    cbn [orb]. rewrite IHf by auto. destruct v; try discriminate.
    rewrite contains_unfold, eqb_Term_r; auto.
  - apply andb_true_iff in Hwf as [H1 H2]. rewrite eqb_Term_r by auto.
    cbn [orb]. rewrite IHf by auto. destruct v; try discriminate.
    rewrite contains_unfold, eqb_Term_r; auto.
Qed.

Lemma binds_variables_replace e k v :
  binds_variables e = true -> binds_variables v = true -> is_Term k = true ->
  binds_variables (replace e k v) = true.
Proof.
  intros Hwf Hv Hk.
  induction e as [m t|m t|m ts t IH|m ts IH|f IH|f1 f2 IH1 IH2|f1 f2 IH1 IH2
    |f1 f2 IH1 IH2|x f IHv IHf|x f IHv IHf] using Expr_induction;
    rewrite replace_unfold; destruct (eqb _ k) eqn:E; auto;
    cbn [binds_variables] in *;
    try (apply andb_true_iff in Hwf as [H1 H2]; apply andb_true_iff; split); auto.
  - rewrite forallb_forall in *. rewrite Forall_forall in IH.
    intros y Hy. apply in_map_iff in Hy as (z & <- & Hz). auto.
  - rewrite forallb_forall in *. rewrite Forall_forall in IH.
    intros y Hy. apply in_map_iff in Hy as (z & <- & Hz). auto.
  - destruct x; try discriminate. rewrite replace_unfold, eqb_Term_r; auto.
  - destruct x; try discriminate. rewrite replace_unfold, eqb_Term_r; auto.
Qed.

Lemma occurs_replace e k v k' :
  occurs (replace e k v) k' = true -> occurs e k' = true \/ occurs v k' = true.
Proof.
  induction e as [m t|m t|m ts t IH|m ts IH|f IH|f1 f2 IH1 IH2|f1 f2 IH1 IH2
    |f1 f2 IH1 IH2|x f IHv IHf|x f IHv IHf] using Expr_induction;
    rewrite replace_unfold; destruct (eqb _ k) eqn:E; auto;
    cbn [occurs]; auto.
  - rewrite !existsb_exists. intros (y & Hy & Ho).
    apply in_map_iff in Hy as (z & <- & Hz). rewrite Forall_forall in IH.
    destruct (IH z Hz Ho); eauto.
  - rewrite !existsb_exists. intros (y & Hy & Ho).
    apply in_map_iff in Hy as (z & <- & Hz). rewrite Forall_forall in IH.
    destruct (IH z Hz Ho); eauto.
  - rewrite !orb_true_iff. intuition.
  - rewrite !orb_true_iff. intuition.
  - rewrite !orb_true_iff. intuition.
Qed.

Lemma replace_no_occurrence e k v :
  binds_variables e = true -> is_Term k = true -> occurs e k = false ->
  eqb (replace e k v) e = true.
Proof.
  intros Hwf Hk Ho. apply replace_not_contained.
  now rewrite contains_is_occurs.
Qed.

Lemma is_Term_atomic k : is_Term k = true -> atomic k = true.
Proof. now destruct k. Qed.

Lemma replace_eliminates e k v :
  binds_variables e = true -> binds_variables v = true -> is_Term k = true ->
  occurs v k = false -> occurs (replace e k v) k = false.
Proof.
  intros Hwf Hv Hk Ho.
  rewrite <- contains_is_occurs by (auto using binds_variables_replace).
  apply replace_removes_atomic; [now apply is_Term_atomic|].
  now rewrite contains_is_occurs.
Qed.

(** [replace] respects [==]. *)
Lemma replace_erase e k v :
  set_creation_time (replace (set_creation_time e 0) k v) 0
  = set_creation_time (replace e k v) 0.
Proof.
  induction e as [m t|m t|m ts t IH|m ts IH|f IH|f1 f2 IH1 IH2|f1 f2 IH1 IH2
    |f1 f2 IH1 IH2|x f IHv IHf|x f IHv IHf] using Expr_induction;
    rewrite (replace_unfold (set_creation_time _ 0)), (replace_unfold);
    rewrite (eqb_congr_l _ _ k (eqb_set_creation_time _ 0));
    destruct (eqb _ k); auto; cbn [set_creation_time]; try congruence.
  - f_equal. rewrite !map_map. now apply map_ext_Forall.
  - f_equal. rewrite !map_map. now apply map_ext_Forall.
Qed.

Lemma replace_congr x y k v :
  eqb x y = true -> eqb (replace x k v) (replace y k v) = true.
Proof.
  rewrite !eqb_erase. intros E.
  now rewrite <- (replace_erase x), <- (replace_erase y), E.
Qed.

Lemma apply_substitution_app (s1 s2 : substitution) (e : Expr) :
  apply_substitution (s1 ++ s2)%list e
  = apply_substitution s2 (apply_substitution s1 e).
Proof. apply fold_left_app. Qed.

Lemma apply_substitution_cons (k v : Expr) (s : substitution) (e : Expr) :
  apply_substitution ((k, v) :: s) e = apply_substitution s (replace e k v).
Proof. reflexivity. Qed.

Lemma apply_substitution_congr s x y :
  eqb x y = true ->
  eqb (apply_substitution s x) (apply_substitution s y) = true.
Proof.
  revert x y. induction s as [|[k v] s IH]; intros x y E; simpl; [exact E|].
  apply IH. now apply replace_congr.
Qed.

Lemma binds_variables_apply s e :
  term_keys s -> values_bind_variables s -> binds_variables e = true ->
  binds_variables (apply_substitution s e) = true.
Proof.
  revert e. induction s as [|[k v] s IH]; intros e Hk Hv He; simpl; [exact He|].
  inversion Hk; inversion Hv; subst. apply IH; auto.
  now apply binds_variables_replace.
Qed.

Lemma occurs_apply s e k :
  occurs (apply_substitution s e) k = true ->
  occurs e k = true \/ Exists (fun kv => occurs (snd kv) k = true) s.
Proof.
  revert e. induction s as [|[k0 v0] s IH]; intros e; simpl; [auto|].
  intros Ho. destruct (IH _ Ho) as [Hr|Hs]; [|now right; right].
  destruct (occurs_replace _ _ _ _ Hr); [now left | right; now left].
Qed.

Lemma apply_eliminates s e :
  term_keys s -> values_bind_variables s -> triangular s ->
  binds_variables e = true ->
  Forall (fun kv => occurs (apply_substitution s e) (fst kv) = false) s.
Proof.
  revert e. induction s as [|[k v] s IH]; intros e Hk Hv Ht He; [constructor|].
  inversion Hk as [|? ? Hk1 Hk2]; inversion Hv as [|? ? Hv1 Hv2]; subst.
  destruct Ht as (Hvk & Hrest & Ht). simpl in *.
  assert (He1 : binds_variables (replace e k v) = true)
    by now apply binds_variables_replace.
  constructor; [|now apply IH].
  simpl. destruct (occurs (apply_substitution s (replace e k v)) k) eqn:Ho;
    [|reflexivity].
  exfalso. destruct (occurs_apply _ _ _ Ho) as [Hr|Hs].
  - rewrite replace_eliminates in Hr; auto; discriminate.
  - apply Exists_exists in Hs as (kv & Hin & Hkv).
    rewrite Forall_forall in Hrest. rewrite (Hrest kv Hin) in Hkv.
    discriminate.
Qed.

Lemma apply_Functor s n ts t :
  term_keys s ->
  exists t', apply_substitution s (Functor n ts t)
             = Functor n (map (apply_substitution s) ts) t'.
Proof.
  revert ts t. induction s as [|[k v] s IH]; intros ts t Hk.
  - exists t. simpl. now rewrite map_id.
  - inversion Hk; subst. rewrite apply_substitution_cons.
    rewrite replace_unfold, eqb_Term_r by auto.
    destruct (IH (map (fun x => replace x k v) ts) 0) as (t' & ->); auto.
    exists t'. now rewrite map_map.
Qed.

Lemma apply_Predicate s n ts :
  term_keys s ->
  apply_substitution s (Predicate n ts)
  = Predicate n (map (apply_substitution s) ts).
Proof.
  revert ts. induction s as [|[k v] s IH]; intros ts Hk.
  - simpl. now rewrite map_id.
  - inversion Hk; subst. rewrite apply_substitution_cons.
    rewrite replace_unfold, eqb_Term_r by auto.
    rewrite IH by auto. now rewrite map_map.
Qed.

Lemma dict_mem_app {V} (d1 d2 : list (Expr * V)) k :
  dict_mem (d1 ++ d2)%list k = dict_mem d1 k || dict_mem d2 k.
Proof. apply existsb_app. Qed.

Lemma dict_mem_false {V} (d : list (Expr * V)) k :
  dict_mem d k = false <-> Forall (fun kv => eqb (fst kv) k = false) d.
Proof. apply existsb_false_Forall. Qed.

Lemma merge_fresh sub : forall s,
  distinct_keys sub ->
  Forall (fun kv => dict_mem s (fst kv) = false) sub ->
  merge s sub = (s ++ sub)%list.
Proof.
  unfold merge. induction sub as [|[k v] sub IH]; intros s Hd Hf; simpl.
  - now rewrite app_nil_r.
  - destruct Hd as (Hk & Hd). inversion Hf as [|? ? Hf1 Hf2]; subst.
    simpl in Hf1. rewrite (dict_set_absent s k v Hf1), IH; auto.
    + now rewrite <- app_assoc.
    + apply dict_mem_false in Hk. rewrite Forall_forall in *.
      intros kv Hin. rewrite dict_mem_app, (Hf2 kv Hin). simpl.
      rewrite orb_false_r, eqb_sym. now apply Hk.
Qed.

Lemma triangular_app (s1 s2 : substitution) :
  triangular s1 -> triangular s2 ->
  Forall (fun kv1 => Forall (fun kv2 => occurs (snd kv2) (fst kv1) = false) s2)
    s1 ->
  triangular (s1 ++ s2)%list.
Proof.
  induction s1 as [|[k v] s1 IH]; simpl; [auto|].
  intros (Hv & Hrest & Ht) H2 Hc. inversion Hc; subst.
  repeat split; auto. now apply Forall_app.
Qed.

Lemma distinct_keys_app (s1 s2 : substitution) :
  distinct_keys s1 -> distinct_keys s2 ->
  Forall (fun kv => dict_mem s1 (fst kv) = false) s2 ->
  distinct_keys (s1 ++ s2)%list.
Proof.
  induction s1 as [|[k v] s1 IH]; simpl; [auto|].
  intros (Hk & Hd) H2 Hf. split.
  - rewrite dict_mem_app, Hk. simpl. apply dict_mem_false.
    rewrite Forall_forall in *. intros kv Hin. specialize (Hf kv Hin).
    simpl in Hf. apply orb_false_iff in Hf as [Hf _]. now rewrite eqb_sym.
  - apply IH; auto. rewrite Forall_forall in *. intros kv Hin.
    specialize (Hf kv Hin). simpl in Hf. now apply orb_false_iff in Hf as [_ Hf].
Qed.

Lemma dict_mem_In {V} (d : list (Expr * V)) kv :
  In kv d -> dict_mem d (fst kv) = true.
Proof.
  intros Hin. apply existsb_exists. exists kv. split; [exact Hin|apply eqb_refl].
Qed.

Lemma occurs_in_pairs_app pairs1 pairs2 k :
  occurs_in_pairs (pairs1 ++ pairs2)%list k <->
  occurs_in_pairs pairs1 k \/ occurs_in_pairs pairs2 k.
Proof. apply Exists_app. Qed.

Lemma occurs_in_pair a b k :
  occurs_in_pairs [(a, b)] k <-> occurs a k = true \/ occurs b k = true.
Proof.
  unfold occurs_in_pairs. rewrite Exists_cons, Exists_nil. simpl. tauto.
Qed.

(** One more pair: the solution of the pair under the substitution found
    so far extends that substitution. *)
Lemma solution_extend (done : list (Expr * Expr)) (s0 sub : substitution)
  (a b : Expr) :
  solution s0 done ->
  binds_variables a = true -> binds_variables b = true ->
  solution sub [(apply_substitution s0 a, apply_substitution s0 b)] ->
  merge s0 sub = (s0 ++ sub)%list /\
  solution (s0 ++ sub)%list (done ++ [(a, b)])%list.
Proof.
  intros [Hk0 Hv0 Ht0 Hd0 Hs0 Hu0] Ha Hb [Hk Hv Ht Hd Hs Hu].
  set (a' := apply_substitution s0 a) in *.
  set (b' := apply_substitution s0 b) in *.
  pose proof (apply_eliminates s0 a Hk0 Hv0 Ht0 Ha) as Ea.
  pose proof (apply_eliminates s0 b Hk0 Hv0 Ht0 Hb) as Eb.
  fold a' in Ea. fold b' in Eb.
  assert (F2 : forall k, occurs_in_pairs [(a', b')] k ->
                         Forall (fun kv => eqb (fst kv) k = false) s0).
  { intros k Hok. apply occurs_in_pair in Hok.
    rewrite Forall_forall in *. intros kv Hin.
    destruct (eqb (fst kv) k) eqn:E; [|reflexivity]. exfalso.
    rewrite <- (occurs_key_eqb a' _ _ E), <- (occurs_key_eqb b' _ _ E) in Hok.
    rewrite (Ea kv Hin), (Eb kv Hin) in Hok. destruct Hok; discriminate. }
  assert (F3 : Forall (fun kv => dict_mem s0 (fst kv) = false) sub).
  { rewrite Forall_forall. intros kv Hin. apply dict_mem_false, F2.
    unfold term_keys in Hk. rewrite Forall_forall in Hk.
    apply Hs; [now apply Hk | left; now apply dict_mem_In]. }
  assert (F4 : Forall (fun kv1 =>
                 Forall (fun kv2 => occurs (snd kv2) (fst kv1) = false) sub) s0).
  { rewrite Forall_forall. intros kv1 Hin1. rewrite Forall_forall.
    intros kv2 Hin2. destruct (occurs (snd kv2) (fst kv1)) eqn:E; [|reflexivity].
    exfalso. unfold term_keys in Hk0. rewrite Forall_forall in Hk0.
    assert (Hok : occurs_in_pairs [(a', b')] (fst kv1)).
    { apply Hs; [now apply Hk0|]. right. apply Exists_exists. eauto. }
    apply F2 in Hok. rewrite Forall_forall in Hok.
    specialize (Hok kv1 Hin1). now rewrite eqb_refl in Hok. }
  split; [now apply merge_fresh|]. constructor.
  - now apply Forall_app.
  - now apply Forall_app.
  - now apply triangular_app.
  - now apply distinct_keys_app.
  - intros k Hkt Hor. apply occurs_in_pairs_app.
    rewrite dict_mem_app, orb_true_iff, Exists_app in Hor.
    assert (Hcase : (dict_mem s0 k = true \/
                     Exists (fun kv => occurs (snd kv) k = true) s0) \/
                    (dict_mem sub k = true \/
                     Exists (fun kv => occurs (snd kv) k = true) sub))
      by tauto.
    destruct Hcase as [H0|H1]; [left; now apply Hs0|].
    apply (Hs k Hkt), occurs_in_pair in H1.
    destruct H1 as [H1|H1]; apply occurs_apply in H1 as [H1|H1].
    + right. apply occurs_in_pair. now left.
    + left. apply Hs0; auto.
    + right. apply occurs_in_pair. now right.
    + left. apply Hs0; auto.
  - apply Forall_app. split.
    + rewrite Forall_forall in *. intros p Hin. unfold unifies.
      rewrite !apply_substitution_app. apply apply_substitution_congr.
      now apply Hu0.
    + constructor; [|constructor]. unfold unifies. simpl.
      rewrite !apply_substitution_app. inversion Hu; subst. assumption.
Qed.

Lemma solution_nil : solution [] [].
Proof. constructor; try constructor. intros k _ [H|H]; [discriminate | inversion H]. Qed.

Section Loop.
Variable unify_rec : Expr -> Expr -> res (option substitution).
Hypothesis unify_rec_solution : forall a b s,
  binds_variables a = true -> binds_variables b = true ->
  unify_rec a b = Ok (Some s) -> solution s [(a, b)].

Lemma unify_loop_solution (pairs : list (Expr * Expr)) :
  forall done s0 s,
    Forall (fun p => binds_variables (fst p) = true /\
                     binds_variables (snd p) = true) pairs ->
    solution s0 done ->
    unify_loop unify_rec s0 pairs = Ok (Some s) ->
    solution s (done ++ pairs)%list.
Proof.
  induction pairs as [|[a b] pairs IH]; intros done s0 s Hwf Hsol; simpl.
  - intros [= <-]. now rewrite app_nil_r.
  - inversion Hwf as [|? ? [Ha Hb] Hwf']; subst. simpl in Ha, Hb.
    destruct (unify_rec (apply_substitution s0 a) (apply_substitution s0 b))
      as [[sub|]| |] eqn:Eu; cbn [bind]; try discriminate.
    intros Hloop.
    assert (Hsub : solution sub
                     [(apply_substitution s0 a, apply_substitution s0 b)]).
    { apply unify_rec_solution; auto;
        apply binds_variables_apply; auto; apply Hsol. }
    destruct (solution_extend done s0 sub a b Hsol Ha Hb Hsub) as [Hm Hext].
    rewrite Hm in Hloop.
    replace (done ++ (a, b) :: pairs)%list
      with ((done ++ [(a, b)]) ++ pairs)%list
      by (now rewrite <- app_assoc).
    now apply (IH _ (s0 ++ sub)%list).
Qed.
End Loop.

Lemma bind_term_Some (t e : Expr) (s : substitution) :
  bind_term t e = Ok (Some s) -> s = [(t, e)] /\ occurs e t = false.
Proof.
  unfold bind_term. destruct (occurs e t); [discriminate|].
  destruct (get_time e); cbn [bind]; try discriminate.
  destruct (get_time t); cbn [bind]; try discriminate.
  destruct (_ >? _); [discriminate|]. now intros [= <-].
Qed.

Lemma replace_same (t e : Expr) : replace t t e = e.
Proof. now rewrite replace_unfold, eqb_refl. Qed.

Lemma solution_binding (t e : Expr) :
  is_Term t = true -> binds_variables e = true -> occurs e t = false ->
  solution [(t, e)] [(t, e)] /\ solution [(t, e)] [(e, t)].
Proof.
  intros Ht He Ho.
  assert (Hr : eqb (replace e t e) e = true)
    by now apply replace_no_occurrence.
  assert (Hsup : forall k, is_Term k = true ->
            dict_mem [(t, e)] k = true \/
            Exists (fun kv => occurs (snd kv) k = true) [(t, e)] ->
            occurs t k = true \/ occurs e k = true).
  { intros k Hk [Hm|Hx].
    - left. unfold dict_mem in Hm. simpl in Hm. rewrite orb_false_r in Hm.
      destruct t; try discriminate. exact Hm.
    - right. inversion Hx as [? ? Hx'|? ? Hx']; subst; [exact Hx'|inversion Hx']. }
  split; constructor; try (repeat constructor; assumption).
  - intros k Hk Hor. apply occurs_in_pair. auto.
  - constructor; [|constructor]. unfold unifies. simpl.
    rewrite replace_same. now rewrite eqb_sym.
  - intros k Hk Hor. apply occurs_in_pair. destruct (Hsup k Hk Hor); auto.
  - constructor; [|constructor]. unfold unifies. simpl.
    now rewrite replace_same.
Qed.

Lemma combine_sides (ts us : list Expr) :
  length ts = length us ->
  map fst (combine ts us) = ts /\ map snd (combine ts us) = us.
Proof.
  revert us. induction ts as [|t ts IH]; intros [|u us]; simpl;
    try discriminate; auto.
  intros [= Hlen]. destruct (IH us Hlen) as [-> ->]. auto.
Qed.

Lemma all2_unifies (s : substitution) (ts us : list Expr) :
  Forall (unifies s) (combine ts us) ->
  all2 eqb (map (apply_substitution s) ts) (map (apply_substitution s) us)
  = true.
Proof.
  revert us. induction ts as [|t ts IH]; intros [|u us]; simpl; auto.
  intros Hf. inversion Hf; subst. unfold unifies in *. simpl in *.
  rewrite IH; auto. now rewrite andb_true_r.
Qed.

Lemma occurs_in_combine (ts us : list Expr) (k : Expr) :
  occurs_in_pairs (combine ts us) k ->
  existsb (fun t => occurs t k) ts = true \/
  existsb (fun t => occurs t k) us = true.
Proof.
  unfold occurs_in_pairs. rewrite Exists_exists.
  intros ([t u] & Hin & Ho). simpl in Ho.
  pose proof (in_combine_l _ _ _ _ Hin). pose proof (in_combine_r _ _ _ _ Hin).
  rewrite !existsb_exists. destruct Ho; eauto.
Qed.

Lemma binds_variables_combine (ts us : list Expr) :
  forallb binds_variables ts = true -> forallb binds_variables us = true ->
  Forall (fun p => binds_variables (fst p) = true /\
                   binds_variables (snd p) = true) (combine ts us).
Proof.
  rewrite !forallb_forall, Forall_forall. intros Ht Hu [t u] Hin.
  pose proof (in_combine_l _ _ _ _ Hin). pose proof (in_combine_r _ _ _ _ Hin).
  simpl. auto.
Qed.

(** The children of two nodes of one class, name and arity. *)
Lemma solution_children (s : substitution) (ts us : list Expr)
  (a b : Expr) :
  length ts = length us ->
  (forall k, occurs a k = existsb (fun t => occurs t k) ts) ->
  (forall k, occurs b k = existsb (fun t => occurs t k) us) ->
  (term_keys s -> Forall (unifies s) (combine ts us) ->
   eqb (apply_substitution s a) (apply_substitution s b) = true) ->
  solution s (combine ts us) -> solution s [(a, b)].
Proof.
  intros Hlen Hoa Hob Hcl [Hk Hv Ht Hd Hs Hu]. constructor; auto.
  - intros k Hkt Hor. apply occurs_in_pair. rewrite Hoa, Hob.
    apply occurs_in_combine. now apply Hs.
  - constructor; [|constructor]. unfold unifies. simpl. auto.
Qed.

Lemma unify_solution (fuel : nat) : forall (a b : Expr) (s : substitution),
  binds_variables a = true -> binds_variables b = true ->
  unify fuel a b = Ok (Some s) -> solution s [(a, b)].
Proof.
  induction fuel as [|fuel IH]; intros a b s Ha Hb; [discriminate|].
  cbn [unify]. destruct (is_Term a) eqn:Hta.
  { intros Hu. apply bind_term_Some in Hu as [-> Ho].
    now apply solution_binding. }
  destruct (is_Term b) eqn:Htb.
  { intros Hu. apply bind_term_Some in Hu as [-> Ho].
    now apply solution_binding. }
  destruct a as [n t|n t|n ts t|n ts| | | | | |];
    destruct b as [m u|m u|m us u|m us| | | | | |]; try discriminate.
  - destruct (eqb (Var n t) (Var m u)) eqn:E; [|discriminate].
    intros [= <-]. constructor; try (now constructor).
    intros k _ [H|H]; [discriminate | inversion H].
  - destruct (String.eqb n m) eqn:En; [|discriminate]. cbn [negb].
    destruct (Nat.eqb (length ts) (length us)) eqn:El; [|discriminate].
    cbn [negb]. apply Nat.eqb_eq in El. intros Hloop.
    apply (solution_children s ts us); auto.
    + intros Hk Hall.
      destruct (apply_Functor s n ts t Hk) as (t1 & ->).
      destruct (apply_Functor s m us u Hk) as (t2 & ->).
      cbn [eqb]. rewrite En, !length_map, El, Nat.eqb_refl. simpl.
      now apply all2_unifies.
    + apply (unify_loop_solution (unify fuel) IH (combine ts us) [] [] s);
        auto using solution_nil.
      now apply binds_variables_combine.
  - destruct (String.eqb n m) eqn:En; [|discriminate]. cbn [negb].
    destruct (Nat.eqb (length ts) (length us)) eqn:El; [|discriminate].
    cbn [negb]. apply Nat.eqb_eq in El. intros Hloop.
    apply (solution_children s ts us); auto.
    + intros Hk Hall. rewrite !apply_Predicate by auto.
      cbn [eqb]. rewrite En, !length_map, El, Nat.eqb_refl. simpl.
      now apply all2_unifies.
    + apply (unify_loop_solution (unify fuel) IH (combine ts us) [] [] s);
        auto using solution_nil.
      now apply binds_variables_combine.
Qed.

(** The expressions of the language have a [Variable] in the binder of
    every quantifier, which is what [binds_variables] says and what the
    statement below assumes.  The assumption is used: [occurs] does not
    look at the binder of a quantifier and [replace] does, so on an
    expression that is not of the language, with the [Term] [t] in a
    binder inside [f(...)], [unify(t, f(∀t. P))] returns [{t: f(∀t. P)}]
    and applying it gives [f(∀t. P)] and [f(∀f(∀t. P). P)]. *)
Lemma unify_on_a_binder_of_sort_term :
  let t := Term "t" 0 in
  let P := Predicate "P" [] in
  let b := Functor "f" [ForAll t P] 0 in
  binds_variables b = false /\
  unify 1 t b = Ok (Some [(t, b)]) /\
  apply_substitution [(t, b)] t = b /\
  apply_substitution [(t, b)] b = Functor "f" [ForAll b P] 0 /\
  eqb (apply_substitution [(t, b)] t) (apply_substitution [(t, b)] b) = false.
Proof. repeat split. Qed.

(** C3.  For all expressions [a] and [b] of the language, in which every
    quantifier binds a [Variable], if [unify(a, b)] returns a substitution
    then applying its bindings in order, by [replace], to [a] and to [b]
    yields two expressions that are equal ([==]). *)
Theorem unify_sound (fuel : nat) (a b : Expr) (s : substitution) :
  binds_variables a = true ->
  binds_variables b = true ->
  unify fuel a b = Ok (Some s) ->
  eqb (apply_substitution s a) (apply_substitution s b) = true.
Proof.
  intros Ha Hb Hu.
  pose proof (sol_unifies _ _ (unify_solution fuel a b s Ha Hb Hu)) as Hall.
  now inversion Hall.
Qed.

Lemma unify_sound_witness :
  let a := Predicate "P" [Term "t1" 0; Functor "f" [Term "t2" 0] 0] in
  let b := Predicate "P" [Functor "g" [Term "t2" 0] 0;
                          Functor "f" [Functor "c" [] 0] 0] in
  let s := [(Term "t1" 0, Functor "g" [Term "t2" 0] 0);
            (Term "t2" 0, Functor "c" [] 0)] in
  eqb (apply_substitution s a) (apply_substitution s b) = true.
Proof.
  exact (unify_sound 3
           (Predicate "P" [Term "t1" 0; Functor "f" [Term "t2" 0] 0])
           (Predicate "P" [Functor "g" [Term "t2" 0] 0;
                           Functor "f" [Functor "c" [] 0] 0])
           [(Term "t1" 0, Functor "g" [Term "t2" 0] 0);
            (Term "t2" 0, Functor "c" [] 0)]
           eq_refl eq_refl eq_refl).
Defined.

(** ** Termination of unification on first-order terms *)

Lemma occurs_term_names (e : Expr) (n : string) (t : Z) :
  occurs e (Term n t) = true <-> In n (term_names e).
Proof.
  induction e as [m u|m u|m ts u IH|m ts IH|f IH|f1 f2 IH1 IH2|f1 f2 IH1 IH2
    |f1 f2 IH1 IH2|v f IHv IHf|v f IHv IHf] using Expr_induction;
    cbn [occurs term_names]; rewrite ?orb_true_iff, ?in_app_iff;
    try tauto.
  - split; [discriminate | contradiction].
  - simpl. rewrite String.eqb_eq. intuition.
  - rewrite existsb_exists, in_flat_map. rewrite Forall_forall in IH.
    split; intros (x & Hx & Ho); exists x; (split; [exact Hx|]);
      now apply (IH x Hx).
  - rewrite existsb_exists, in_flat_map. rewrite Forall_forall in IH.
    split; intros (x & Hx & Ho); exists x; (split; [exact Hx|]);
      now apply (IH x Hx).
Qed.

Lemma timed_binds_variables (e : Expr) :
  timed e = true -> binds_variables e = true.
Proof.
  induction e as [m u|m u|m ts u IH| | | | | | |] using Expr_induction;
    cbn [timed binds_variables]; try discriminate; auto.
  rewrite !forallb_forall. rewrite Forall_forall in IH. auto.
Qed.

Lemma timed_get_time (e : Expr) :
  timed e = true -> exists t, get_time e = Ok t.
Proof. destruct e; try discriminate; simpl; eauto. Qed.

Lemma timed_replace (e k v : Expr) :
  timed e = true -> timed v = true -> timed (replace e k v) = true.
Proof.
  intros He Hv.
  induction e as [m u|m u|m ts u IH| | | | | | |] using Expr_induction;
    try discriminate; rewrite replace_unfold; destruct (eqb _ k); auto.
  cbn [timed] in *. rewrite forallb_forall in *. rewrite Forall_forall in IH.
  intros y Hy. apply in_map_iff in Hy as (z & <- & Hz). auto.
Qed.

Lemma timed_apply (s : substitution) (e : Expr) :
  values_timed s -> timed e = true -> timed (apply_substitution s e) = true.
Proof.
  revert e. induction s as [|[k v] s IH]; intros e Hv He; [exact He|].
  inversion Hv; subst. rewrite apply_substitution_cons. apply IH; auto.
  now apply timed_replace.
Qed.

Lemma values_timed_dict_set (s : substitution) (k v : Expr) :
  values_timed s -> timed v = true -> values_timed (dict_set s k v).
Proof.
  induction s as [|[k0 v0] s IH]; simpl; intros Hs Hv.
  - now constructor.
  - inversion Hs; subst. destruct (eqb k0 k); constructor; auto.
    now apply IH.
Qed.

Lemma values_timed_merge (sub s : substitution) :
  values_timed s -> values_timed sub -> values_timed (merge s sub).
Proof.
  unfold merge. revert s. induction sub as [|[k v] sub IH]; intros s Hs Hsub;
    simpl; [exact Hs|].
  inversion Hsub; subst. apply IH; auto. now apply values_timed_dict_set.
Qed.

Lemma unify_loop_values_timed
  (unify_rec : Expr -> Expr -> res (option substitution)) :
  (forall a b s, timed a = true -> timed b = true ->
                 unify_rec a b = Ok (Some s) -> values_timed s) ->
  forall pairs s0 s,
    Forall (fun p => timed (fst p) = true /\ timed (snd p) = true) pairs ->
    values_timed s0 ->
    unify_loop unify_rec s0 pairs = Ok (Some s) -> values_timed s.
Proof.
  intros Hrec. induction pairs as [|[a b] pairs IH]; intros s0 s Hp Hs0; simpl.
  - now intros [= <-].
  - inversion Hp as [|? ? [Ha Hb] Hp']; subst. simpl in Ha, Hb.
    destruct (unify_rec _ _) as [[sub|]| |] eqn:Eu; cbn [bind];
      try discriminate.
    apply IH; auto. apply values_timed_merge; auto.
    apply (Hrec _ _ _ (timed_apply s0 a Hs0 Ha) (timed_apply s0 b Hs0 Hb) Eu).
Qed.

Lemma timed_combine (ts us : list Expr) :
  forallb timed ts = true -> forallb timed us = true ->
  Forall (fun p => timed (fst p) = true /\ timed (snd p) = true)
    (combine ts us).
Proof.
  rewrite !forallb_forall, Forall_forall. intros Ht Hu [t u] Hin.
  pose proof (in_combine_l _ _ _ _ Hin). pose proof (in_combine_r _ _ _ _ Hin).
  simpl. auto.
Qed.

Lemma unify_values_timed (fuel : nat) : forall a b s,
  timed a = true -> timed b = true ->
  unify fuel a b = Ok (Some s) -> values_timed s.
Proof.
  induction fuel as [|fuel IH]; intros a b s Ha Hb; [discriminate|].
  cbn [unify]. destruct (is_Term a).
  { intros Hu. apply bind_term_Some in Hu as [-> _]. now repeat constructor. }
  destruct (is_Term b).
  { intros Hu. apply bind_term_Some in Hu as [-> _]. now repeat constructor. }
  destruct a as [n t|n t|n ts t|n ts| | | | | |]; try discriminate;
    destruct b as [m u|m u|m us u|m us| | | | | |]; try discriminate.
  - destruct (eqb _ _); [|discriminate]. intros [= <-]. constructor.
  - destruct (String.eqb n m); [|discriminate]. cbn [negb].
    destruct (Nat.eqb _ _); [|discriminate]. cbn [negb].
    apply (unify_loop_values_timed (unify fuel) IH); [|constructor].
    now apply timed_combine.
Qed.

(** More fuel does not change a result. *)
Lemma unify_loop_mono
  (f g : Expr -> Expr -> res (option substitution)) :
  (forall a b r, f a b = Ok r -> g a b = Ok r) ->
  forall pairs s r,
    unify_loop f s pairs = Ok r -> unify_loop g s pairs = Ok r.
Proof.
  intros Hfg. induction pairs as [|[a b] pairs IH]; intros s r; simpl; auto.
  destruct (f _ _) as [[sub|]| |] eqn:Ef; cbn [bind]; try discriminate;
    rewrite (Hfg _ _ _ Ef); cbn [bind]; auto.
Qed.

Lemma unify_mono (n : nat) : forall m a b r,
  (n <= m)%nat -> unify n a b = Ok r -> unify m a b = Ok r.
Proof.
  induction n as [|n IH]; intros m a b r Hle; [discriminate|].
  destruct m as [|m]; [lia|]. cbn [unify].
  destruct (is_Term a); auto. destruct (is_Term b); auto.
  destruct a; auto; destruct b; auto;
    destruct (negb (String.eqb _ _)); auto;
    destruct (negb (Nat.eqb _ _)); auto;
    apply unify_loop_mono; intros; apply IH; auto; lia.
Qed.

Lemma count_incl (l1 l2 : list string) :
  incl l1 l2 -> (count l1 <= count l2)%nat.
Proof.
  intros Hi. apply NoDup_incl_length; [apply NoDup_nodup|].
  intros x Hx. apply nodup_In. apply Hi. now apply nodup_In in Hx.
Qed.

Lemma count_strict (l1 l2 : list string) (x : string) :
  incl l1 l2 -> In x l2 -> ~ In x l1 -> (count l1 < count l2)%nat.
Proof.
  intros Hi Hx Hn. unfold count.
  assert (Hnd : NoDup (x :: nodup string_dec l1)).
  { constructor; [|apply NoDup_nodup]. now rewrite nodup_In. }
  apply (NoDup_incl_length Hnd (l' := nodup string_dec l2)).
  intros y [<-|Hy]; apply nodup_In; auto. apply Hi. now apply nodup_In in Hy.
Qed.

Lemma is_Term_inv (k : Expr) :
  is_Term k = true -> exists n t, k = Term n t.
Proof. destruct k; try discriminate. eauto. Qed.

Lemma names_of_apply (s : substitution) (done : list (Expr * Expr))
  (e : Expr) (P : list string) :
  solution s done ->
  Forall (fun p => incl (pair_names (fst p) (snd p)) P) done ->
  incl (term_names e) P ->
  incl (term_names (apply_substitution s e)) P.
Proof.
  intros Hsol Hdone He n Hn.
  apply (occurs_term_names _ n 0) in Hn.
  apply occurs_apply in Hn as [Hn|Hn].
  - apply He. now apply (occurs_term_names _ n 0).
  - assert (Ho : occurs_in_pairs done (Term n 0))
      by (apply (sol_supported _ _ Hsol); auto).
    apply Exists_exists in Ho as (p & Hin & Hp).
    rewrite Forall_forall in Hdone. apply (Hdone p Hin).
    unfold pair_names. apply in_app_iff.
    destruct Hp as [Hp|Hp]; apply occurs_term_names in Hp; auto.
Qed.

Section LoopTermination.
Variable P : list string.
Variable bound : nat.
Hypothesis smaller_returns : forall a b,
  timed a = true -> timed b = true ->
  (count (pair_names a b) < count P)%nat \/
  incl (pair_names a b) P /\ (size a + size b < bound)%nat ->
  returns a b.

Lemma unify_loop_returns (pairs : list (Expr * Expr)) :
  forall done s,
    solution s done -> values_timed s ->
    Forall (fun p => incl (pair_names (fst p) (snd p)) P) done ->
    Forall (fun p => timed (fst p) = true /\ timed (snd p) = true /\
                     incl (pair_names (fst p) (snd p)) P /\
                     (size (fst p) + size (snd p) < bound)%nat) pairs ->
    exists fuel r, unify_loop (unify fuel) s pairs = Ok r.
Proof.
  induction pairs as [|[a b] pairs IH]; intros done s Hsol Hvt Hdone Hp.
  - exists 0%nat, (Some s). reflexivity.
  - inversion Hp as [|? ? (Ha & Hb & Hn & Hsz) Hp']; subst.
    simpl in Ha, Hb, Hn, Hsz.
    assert (Hcase : s = [] \/ exists n0 t0 v0, In (Term n0 t0, v0) s).
    { pose proof (sol_keys _ _ Hsol) as Hk.
      destruct s as [|[k0 v0] s1]; [now left|right].
      inversion Hk as [|? ? Hk0 _]; subst.
      destruct (is_Term_inv k0 Hk0) as (n0 & t0 & ->).
      exists n0, t0, v0. now left. }
    set (a' := apply_substitution s a). set (b' := apply_substitution s b).
    assert (Ha' : timed a' = true) by now apply timed_apply.
    assert (Hb' : timed b' = true) by now apply timed_apply.
    assert (Hincl : incl (pair_names a' b') P).
    { unfold pair_names in *. apply incl_app.
      - apply (names_of_apply s done); auto.
        intros n Hin. apply Hn, in_app_iff. auto.
      - apply (names_of_apply s done); auto.
        intros n Hin. apply Hn, in_app_iff. auto. }
    assert (Hsmall : (count (pair_names a' b') < count P)%nat \/
              incl (pair_names a' b') P /\ (size a' + size b' < bound)%nat).
    { destruct Hcase as [->|(n0 & t0 & v0 & Hmem)]; [right; now split|].
      left. apply (count_strict _ _ n0); auto.
      - assert (Ho : occurs_in_pairs done (Term n0 t0)).
        { apply (sol_supported _ _ Hsol); auto. left.
          now apply (dict_mem_In s _ Hmem). }
        apply Exists_exists in Ho as (p & Hin & Hp0).
        rewrite Forall_forall in Hdone. apply (Hdone p Hin).
        unfold pair_names. apply in_app_iff.
        destruct Hp0 as [Hp0|Hp0]; apply occurs_term_names in Hp0; auto.
      - pose proof (apply_eliminates s a (sol_keys _ _ Hsol)
                      (sol_values _ _ Hsol) (sol_triangular _ _ Hsol)
                      (timed_binds_variables a Ha)) as Ea.
        pose proof (apply_eliminates s b (sol_keys _ _ Hsol)
                      (sol_values _ _ Hsol) (sol_triangular _ _ Hsol)
                      (timed_binds_variables b Hb)) as Eb.
        rewrite Forall_forall in Ea, Eb.
        specialize (Ea _ Hmem). specialize (Eb _ Hmem). simpl in Ea, Eb.
        unfold pair_names. rewrite in_app_iff.
        rewrite <- !(occurs_term_names _ n0 t0). subst a' b'.
        rewrite Ea, Eb. intros [|]; discriminate. }
    destruct (smaller_returns a' b' Ha' Hb' Hsmall) as (fuel1 & r1 & Hu1).
    destruct r1 as [sub|].
    + assert (Hsub : solution sub [(a', b')])
        by (apply (unify_solution fuel1); auto using timed_binds_variables).
      destruct (solution_extend done s sub a b Hsol
                  (timed_binds_variables a Ha) (timed_binds_variables b Hb)
                  Hsub) as [Hm Hext].
      assert (Hvt' : values_timed (s ++ sub)%list).
      { apply Forall_app. split; [exact Hvt|].
        now apply (unify_values_timed fuel1 a' b'). }
      assert (Hdone' : Forall (fun p => incl (pair_names (fst p) (snd p)) P)
                         (done ++ [(a, b)])%list).
      { apply Forall_app. split; [exact Hdone|]. now repeat constructor. }
      destruct (IH _ _ Hext Hvt' Hdone' Hp') as (fuel2 & r2 & Hu2).
      exists (Nat.max fuel1 fuel2), r2. cbn [unify_loop]. fold a' b'.
      rewrite (unify_mono fuel1 _ a' b' _ (Nat.le_max_l _ _) Hu1).
      cbn [bind]. rewrite Hm.
      apply (unify_loop_mono (unify fuel2)); auto.
      intros x y r. apply unify_mono. apply Nat.le_max_r.
    + exists fuel1, None. cbn [unify_loop]. fold a' b'. now rewrite Hu1.
Qed.
End LoopTermination.

Lemma bind_term_returns (t e : Expr) :
  is_Term t = true -> timed e = true -> exists r, bind_term t e = Ok r.
Proof.
  intros Ht He. unfold bind_term. destruct (occurs e t); [eauto|].
  destruct (timed_get_time e He) as (te & ->).
  destruct t; try discriminate. cbn. destruct (_ >? _); eauto.
Qed.

Lemma size_in_children (t : Expr) (ts : list Expr) :
  In t ts -> (size t <= list_sum (map size ts))%nat.
Proof.
  induction ts as [|u ts IH]; intros []; simpl; [subst; lia|].
  specialize (IH H). lia.
Qed.

Lemma term_names_in_children (t : Expr) (ts : list Expr) :
  In t ts -> incl (term_names t) (flat_map term_names ts).
Proof. intros Hin n Hn. apply in_flat_map. eauto. Qed.

(** The pairs of children of two nodes are below the nodes in the
    measure. *)
Lemma children_below (ts us : list Expr) (P : list string) (bound : nat) :
  forallb timed ts = true -> forallb timed us = true ->
  incl (flat_map term_names ts ++ flat_map term_names us)%list P ->
  (list_sum (map size ts) + list_sum (map size us) < bound)%nat ->
  Forall (fun p => timed (fst p) = true /\ timed (snd p) = true /\
                   incl (pair_names (fst p) (snd p)) P /\
                   (size (fst p) + size (snd p) < bound)%nat)
    (combine ts us).
Proof.
  rewrite !forallb_forall, Forall_forall. intros Ht Hu Hi Hb [t u] Hin.
  pose proof (in_combine_l _ _ _ _ Hin) as Hl.
  pose proof (in_combine_r _ _ _ _ Hin) as Hr.
  pose proof (size_in_children _ _ Hl). pose proof (size_in_children _ _ Hr).
  simpl. repeat split; auto; [|lia].
  unfold pair_names. intros n Hn. apply Hi.
  apply in_app_iff in Hn as [Hn|Hn]; apply in_app_iff;
    [left|right]; eapply term_names_in_children; eauto.
Qed.

Lemma returns_below (v : nat) : forall (sz : nat) (a b : Expr),
  timed a = true -> timed b = true ->
  (count (pair_names a b) <= v)%nat -> (size a + size b <= sz)%nat ->
  returns a b.
Proof.
  induction v as [v IHv] using lt_wf_ind.
  induction sz as [sz IHsz] using lt_wf_ind.
  intros a b Ha Hb Hv Hsz.
  destruct (is_Term a) eqn:Hta.
  { destruct (bind_term_returns a b Hta Hb) as (r & Hr).
    exists 1%nat, r. cbn [unify]. now rewrite Hta. }
  destruct (is_Term b) eqn:Htb.
  { destruct (bind_term_returns b a Htb Ha) as (r & Hr).
    exists 1%nat, r. cbn [unify]. now rewrite Hta, Htb. }
  destruct a as [n t|n t|n ts t| | | | | | |]; try discriminate;
    destruct b as [m u|m u|m us u| | | | | | |]; try discriminate;
    try (now exists 1%nat; eexists; reflexivity).
  destruct (negb (String.eqb n m)) eqn:En;
    [exists 1%nat, None; cbn [unify is_Term]; now rewrite En|].
  destruct (negb (Nat.eqb (length ts) (length us))) eqn:El;
    [exists 1%nat, None; cbn [unify is_Term]; now rewrite En, El|].
  cbn [timed] in Ha, Hb. cbn [size] in Hsz.
  destruct (unify_loop_returns
              (pair_names (Functor n ts t) (Functor m us u))
              (size (Functor n ts t) + size (Functor m us u))%nat)
    with (pairs := combine ts us) (done := @nil (Expr * Expr))
         (s := @nil (Expr * Expr)) as (fuel & r & Hloop).
  - intros a' b' Ha' Hb' [Hlt|[Hi Hlt]].
    + apply (IHv (count (pair_names a' b')))
        with (sz := (size a' + size b')%nat); auto.
      exact (Nat.lt_le_trans _ _ _ Hlt Hv).
    + apply (IHsz (size a' + size b')%nat); auto.
      * exact (Nat.lt_le_trans _ _ _ Hlt Hsz).
      * exact (Nat.le_trans _ _ _ (count_incl _ _ Hi) Hv).
  - apply solution_nil.
  - constructor.
  - constructor.
  - apply children_below; auto.
    + unfold pair_names. cbn [term_names]. apply incl_refl.
    + cbn [size]. lia.
  - exists (S fuel), r. cbn [unify is_Term]. now rewrite En, El.
Qed.

(** C6, as it is stated, fails: a [Term] against a formula in which it
    does not occur makes [unify] read [time] on a class that has none. *)
Lemma unify_raises_on_formula :
  unify 1 (Term "t" 0) (Not (Predicate "P" [])) = Raise AttributeError /\
  unify 1 (Predicate "P" []) (Term "t" 0) = Raise AttributeError.
Proof. split; reflexivity. Qed.

(** C6, as amended: [unify(a, b)] returns a substitution or [None], and
    raises nothing, when [a] and [b] are both first-order terms (built
    from [Variable], [Term] and [Functor]), when they are both
    [Predicate]s applied to first-order terms, and when they are both
    formulas and not both [Predicate]s. *)
Theorem unify_returns_on_sorted_pairs (a b : Expr) :
  (timed a = true -> timed b = true ->
   exists fuel r, unify fuel a b = Ok r) /\
  (forall n ts m us,
     a = Predicate n ts -> b = Predicate m us ->
     forallb timed ts = true -> forallb timed us = true ->
     exists fuel r, unify fuel a b = Ok r) /\
  (is_formula a = true -> is_formula b = true ->
   is_Predicate a && is_Predicate b = false ->
   unify 1 a b = Ok None).
Proof.
  repeat split.
  - intros Ha Hb.
    now apply (returns_below (count (pair_names a b))
                 (size a + size b)%nat).
  - intros n ts m us -> -> Hts Hus.
    destruct (negb (String.eqb n m)) eqn:En;
      [exists 1%nat, None; cbn [unify is_Term]; now rewrite En|].
    destruct (negb (Nat.eqb (length ts) (length us))) eqn:El;
      [exists 1%nat, None; cbn [unify is_Term]; now rewrite En, El|].
    destruct (unify_loop_returns
                (flat_map term_names ts ++ flat_map term_names us)%list
                (S (list_sum (map size ts) + list_sum (map size us))))
      with (pairs := combine ts us) (done := @nil (Expr * Expr))
           (s := @nil (Expr * Expr)) as (fuel & r & Hloop).
    + intros a' b' Ha' Hb' _.
      now apply (returns_below (count (pair_names a' b'))
                   (size a' + size b')%nat).
    + apply solution_nil.
    + constructor.
    + constructor.
    + apply children_below;
        [assumption | assumption | apply incl_refl | apply Nat.lt_succ_diag_r].
    + exists (S fuel), r. cbn [unify is_Term]. now rewrite En, El.
  - destruct a; try discriminate; destruct b; try discriminate;
      reflexivity.
Qed.

Lemma unify_returns_on_sorted_pairs_witness :
  exists fuel r,
    unify fuel (Functor "f" [Term "t1" 0; Functor "g" [Term "t1" 0] 0] 0)
      (Functor "f" [Functor "c" [] 0; Term "t2" 0] 0) = Ok r.
Proof.
  exact (proj1 (unify_returns_on_sorted_pairs
                  (Functor "f" [Term "t1" 0; Functor "g" [Term "t1" 0] 0] 0)
                  (Functor "f" [Functor "c" [] 0; Term "t2" 0] 0))
           eq_refl eq_refl).
Defined.

(** ** The loop of [get_variable_name] ends *)

Lemma str_of_nat_inj (i j : nat) : str_of_nat i = str_of_nat j -> i = j.
Proof.
  unfold str_of_nat. intros E.
  assert (Hn : forall n, Nat.to_uint n <> Decimal.Nil).
  { intros n Hn. pose proof (Unsigned.of_to n) as Hof. rewrite Hn in Hof.
    simpl in Hof. subst n. discriminate. }
  apply Unsigned.to_uint_inj.
  pose proof (NilZero.usu _ (Hn i)) as Hi.
  pose proof (NilZero.usu _ (Hn j)) as Hj.
  rewrite E in Hi. congruence.
Qed.

Lemma append_inj (prefix a b : string) : prefix ++ a = prefix ++ b -> a = b.
Proof. induction prefix; simpl; [auto|]. intros [= E]. auto. Qed.

Lemma set_mem_name (fv : list Expr) (name : string) :
  set_mem fv (Var name 0) || set_mem fv (Term name 0) = true ->
  In name (flat_map name_of fv).
Proof.
  unfold set_mem. rewrite orb_true_iff, !existsb_exists.
  intros [(e & Hin & He)|(e & Hin & He)]; apply in_flat_map; exists e;
    (split; [exact Hin|]); destruct e; try discriminate; simpl in *;
    apply String.eqb_eq in He; auto.
Qed.

Lemma length_names (fv : list Expr) :
  (length (flat_map name_of fv) <= length fv)%nat.
Proof.
  induction fv as [|e fv IH]; simpl; [lia|].
  rewrite length_app. destruct e; simpl; lia.
Qed.

Lemma get_variable_name_loop_returns (fv : list Expr) (prefix : string)
  (fuel : nat) : forall (index : nat) (tested : list string),
  NoDup tested ->
  incl tested (flat_map name_of fv) ->
  (forall n, In n tested ->
             exists j, (j < index)%nat /\ n = prefix ++ str_of_nat j) ->
  (length (flat_map name_of fv) < length tested + fuel)%nat ->
  exists name,
    get_variable_name_loop fuel fv prefix index = Ok name /\
    set_mem fv (Var name 0) || set_mem fv (Term name 0) = false.
Proof.
  induction fuel as [|fuel IH]; intros index tested Hnd Hincl Hold Hlen.
  - pose proof (NoDup_incl_length Hnd Hincl). lia.
  - cbn [get_variable_name_loop].
    destruct (set_mem fv (Var (prefix ++ str_of_nat index) 0)
              || set_mem fv (Term (prefix ++ str_of_nat index) 0)) eqn:E;
      [|eauto].
    apply (IH (S index) ((prefix ++ str_of_nat index) :: tested)).
    + constructor; [|exact Hnd]. intros Hin.
      destruct (Hold _ Hin) as (j & Hj & Ej).
      apply append_inj, str_of_nat_inj in Ej. lia.
    + intros n [<-|Hn]; [now apply set_mem_name | now apply Hincl].
    + intros n [<-|Hn]; [exists index; split; [lia|reflexivity]|].
      destruct (Hold _ Hn) as (j & Hj & Ej). exists j. split; [lia|exact Ej].
    + simpl. lia.
Qed.

(** With the free variables and terms of the sequent at hand,
    [get_variable_name] returns a name that is not among them. *)
Lemma get_variable_name_returns (s : Sequent) (prefix : string)
  (v : list Expr) :
  sequent_free_variables s = Ok v ->
  exists name,
    get_variable_name s prefix = Ok name /\
    set_mem (set_union v (sequent_free_terms s)) (Var name 0)
    || set_mem (set_union v (sequent_free_terms s)) (Term name 0) = false.
Proof.
  intros Hv. unfold get_variable_name. rewrite Hv. cbn [bind].
  apply (get_variable_name_loop_returns _ prefix _ 1%nat []).
  - constructor.
  - intros n [].
  - intros n [].
  - pose proof (length_names (set_union v (sequent_free_terms s))).
    simpl. lia.
Qed.

(** ** The odometer visits every selection within [selections] rounds *)

Lemma increment_spec (index : list nat) : forall lens,
  Forall2 lt index lens ->
  let (carry, index') := increment index lens in
  if carry
  then (rank index lens + 1 = fold_right Nat.mul 1 lens)%nat /\
       rank index' lens = 0%nat /\ Forall2 lt index' lens
  else rank index' lens = (rank index lens + 1)%nat /\ Forall2 lt index' lens.
Proof.
  induction index as [|i index IH]; intros lens Hv; inversion Hv; subst.
  - simpl. repeat split. constructor.
  - rename y into n. rename l' into lens'. cbn [increment].
    specialize (IH lens' H3).
    destruct (increment index lens') as [carry rest].
    destruct carry.
    + destruct IH as (Hr & Hz & Hv').
      destruct (Nat.ltb (S i) n) eqn:El.
      * apply Nat.ltb_lt in El. cbn [rank fold_right].
        split; [|constructor; auto]. rewrite Hz. lia.
      * apply Nat.ltb_ge in El. cbn [rank fold_right].
        assert (n = S i) by lia. subst n.
        repeat split; [lia | rewrite Hz; lia | constructor; auto; lia].
    + destruct IH as (Hr & Hv'). cbn [rank fold_right].
      split; [lia | constructor; auto].
Qed.

Lemma rank_bound (index : list nat) : forall lens,
  Forall2 lt index lens -> (rank index lens < fold_right Nat.mul 1 lens)%nat.
Proof.
  induction index as [|i index IH]; intros lens Hv; inversion Hv; subst;
    cbn [rank fold_right]; [lia|].
  specialize (IH _ H3). nia.
Qed.

Lemma selection_returns (lists : list (list (Expr * Expr))) :
  forall index, Forall2 lt index (map (@length _) lists) ->
  exists sel, selection lists index = Ok sel.
Proof.
  induction lists as [|l lists IH]; intros index Hv.
  - destruct index; simpl; eauto.
  - inversion Hv; subst. cbn [selection].
    destruct (nth_error l x) eqn:En;
      [|apply nth_error_None in En; lia].
    destruct (IH _ H3) as (sel & ->). cbn [bind]. eauto.
Qed.

Lemma selections_product (lists : list (list (Expr * Expr))) :
  selections lists = fold_right Nat.mul 1%nat (map (@length _) lists).
Proof.
  unfold selections. induction lists; simpl; congruence.
Qed.

(** [search] runs out of rounds only if a call of [unify_list] ran out of
    fuel. *)
Lemma search_rounds (fuel : nat) (lists : list (list (Expr * Expr)))
  (rounds : nat) : forall index,
  Forall2 lt index (map (@length _) lists) ->
  (selections lists < rank index (map (@length _) lists) + rounds)%nat ->
  search fuel rounds lists index = Fuel ->
  exists sel, unify_list fuel sel = Fuel.
Proof.
  induction rounds as [|rounds IH]; intros index Hv Hr.
  - pose proof (rank_bound _ _ Hv). rewrite selections_product in Hr. lia.
  - cbn [search]. destruct (selection_returns lists index Hv) as (sel & ->).
    cbn [bind]. destruct (unify_list fuel sel) as [[s|]| |] eqn:Eu;
      cbn [bind]; try discriminate; [|eauto].
    pose proof (increment_spec index _ Hv) as Hi.
    destruct (increment index (map (@length _) lists)) as [carry index'].
    destruct carry; [discriminate|]. destruct Hi as (Hrank & Hv').
    apply IH; [exact Hv'|]. rewrite Hrank. lia.
Qed.

Lemma search_rounds_suffice (fuel : nat) (lists : list (list (Expr * Expr))) :
  forallb (fun pair_list => Nat.ltb 0 (length pair_list)) lists = true ->
  search fuel (S (selections lists)) lists (map (fun _ => 0%nat) lists) = Fuel ->
  exists sel, unify_list fuel sel = Fuel.
Proof.
  intros Hne. apply search_rounds; [|lia].
  rewrite forallb_forall in Hne.
  induction lists as [|l lists IH]; simpl; constructor.
  - apply Nat.ltb_lt, Hne. now left.
  - apply IH. intros x Hx. apply Hne. now right.
Qed.

(** ** The rules that keep their quantifier return *)

Lemma is_Functor_replace_term (body v : Expr) (name : string) :
  is_Functor body = false ->
  is_Functor (replace body v (Term name 0)) = false.
Proof.
  intros Hb. rewrite replace_unfold. destruct (eqb body v); [reflexivity|].
  now destruct body.
Qed.

Lemma hashed_instance (body v : Expr) (name : string) (t : Z) :
  is_Functor body = false ->
  hashed (set_creation_time (replace body v (Term name 0)) t) = Ok tt.
Proof.
  intros Hb. unfold hashed.
  now rewrite is_Functor_set_creation_time, is_Functor_replace_term.
Qed.

(** The two rules return when the quantified formula is a key of its side,
    the free variables of the sequent can be computed and the body is no
    [Functor]. *)
Lemma quantifier_rule_returns
  (H : string -> Z) (st : state) (old_sequent : Sequent)
  (variable body : Expr) (d : Z) (fv : list Expr) :
  sequent_free_variables old_sequent = Ok fv ->
  is_Functor body = false ->
  (dict_get (left old_sequent) (ForAll variable body) = Some d ->
   exists st', apply_left H st old_sequent (ForAll variable body) = Ok st') /\
  (dict_get (right old_sequent) (ThereExists variable body) = Some d ->
   exists st',
     apply_right H st old_sequent (ThereExists variable body) = Ok st').
Proof.
  intros Hfv Hb.
  destruct (get_variable_name_returns old_sequent "t" fv Hfv)
    as (name & Hname & _).
  split; intros Hget.
  - unfold apply_left. destruct (siblings_or_set st old_sequent) as [st1 a].
    unfold lookup, assign, member. cbn [hashed is_Functor bind].
    rewrite Hget, Hname. cbn [bind].
    rewrite (hashed_instance body variable name _ Hb). cbn [bind].
    destruct (dict_mem _ _); cbn [bind]; [eauto|].
    rewrite dict_get_set_same. cbn [bind]. eauto.
  - unfold apply_right. destruct (siblings_or_set st old_sequent) as [st1 a].
    unfold lookup, assign, member. cbn [hashed is_Functor bind].
    rewrite Hget, Hname. cbn [bind].
    rewrite (hashed_instance body variable name _ Hb). cbn [bind].
    destruct (dict_mem _ _); cbn [bind]; [eauto|].
    rewrite dict_get_set_same. cbn [bind]. eauto.
Qed.

(** ** The search on the first scenarios of the specification

    The outer loop of the embedding returns [True] on them within the
    iterations given. *)

Example scenario_propositional_axiom :
  prove_formula length_hash (fun S => S) 2 3 []
    (Implies (Predicate "P" []) (Predicate "P" [])) = Ok true.
Proof. reflexivity. Qed.

Example scenario_de_morgan :
  prove_formula length_hash (fun S => S) 2 20 []
    (Implies (Not (Or (Predicate "A" []) (Predicate "B" [])))
       (And (Not (Predicate "A" [])) (Not (Predicate "B" [])))) = Ok true.
Proof. reflexivity. Qed.

Example scenario_universal_instantiation :
  prove_formula length_hash (fun S => S) 2 3
    [ForAll (Var "x" 0) (Predicate "P" [Var "x" 0])]
    (Predicate "P" [Functor "a" [] 0]) = Ok true.
Proof. reflexivity. Qed.

Example scenario_existential_introduction :
  prove_formula length_hash (fun S => S) 2 3
    [Predicate "P" [Functor "a" [] 0]]
    (ThereExists (Var "x" 0) (Predicate "P" [Var "x" 0])) = Ok true.
Proof. reflexivity. Qed.

Example scenario_syllogism :
  prove_formula length_hash (fun S => S) 2 6
    [ForAll (Var "x" 0)
       (Implies (Predicate "Man" [Var "x" 0])
          (Predicate "Mortal" [Var "x" 0]));
     Predicate "Man" [Functor "socrates" [] 0]]
    (Predicate "Mortal" [Functor "socrates" [] 0]) = Ok true.
Proof. reflexivity. Qed.

(** ** Further properties of the expression classes *)

Lemma set_mem_app (s1 s2 : list Expr) (x : Expr) :
  set_mem (s1 ++ s2)%list x = set_mem s1 x || set_mem s2 x.
Proof. unfold set_mem. apply existsb_app. Qed.

Lemma set_mem_add (s : list Expr) (y x : Expr) :
  set_mem (set_add s y) x = set_mem s x || eqb y x.
Proof.
  unfold set_add. destruct (set_mem s y) eqn:E.
  - destruct (eqb y x) eqn:Eyx; [|now rewrite orb_false_r].
    rewrite orb_true_r. unfold set_mem in *.
    apply existsb_exists in E as (z & Hz & Ezy).
    apply existsb_exists. exists z. split; [exact Hz|].
    now apply (eqb_trans z y x).
  - rewrite set_mem_app. unfold set_mem at 2. simpl. now rewrite orb_false_r.
Qed.

Lemma set_mem_union (s2 : list Expr) : forall (s1 : list Expr) (x : Expr),
  set_mem (set_union s1 s2) x = set_mem s1 x || set_mem s2 x.
Proof.
  unfold set_union.
  induction s2 as [|y s2 IH]; intros s1 x; simpl.
  - now rewrite orb_false_r.
  - rewrite IH, set_mem_add. unfold set_mem at 3. simpl.
    now rewrite orb_assoc.
Qed.

Lemma set_mem_diff1 (s : list Expr) (v x : Expr) :
  set_mem (set_diff1 s v) x = set_mem s x && negb (eqb v x).
Proof.
  unfold set_mem, set_diff1.
  induction s as [|y s IH]; simpl; [reflexivity|].
  destruct (eqb y x) eqn:Eyx.
  - rewrite (eqb_congr_l y x v Eyx), (eqb_sym x v).
    destruct (eqb v x); simpl.
    + rewrite IH. apply andb_false_r.
    + now rewrite Eyx.
  - destruct (eqb y v); simpl; [exact IH | now rewrite Eyx].
Qed.

(** The loop of [Formula.free_terms] over the children. *)
Lemma free_terms_fold (ts : list Expr) (k : Expr) :
  Forall (fun t => occurs t k = set_mem (free_terms t) k) ts ->
  forall acc,
    set_mem (fold_left (fun acc t => set_union acc (free_terms t)) ts acc) k
    = set_mem acc k || existsb (fun t => occurs t k) ts.
Proof.
  induction 1 as [|t ts Ht _ IH]; intros acc; simpl.
  - now rewrite orb_false_r.
  - rewrite IH, set_mem_union, Ht. now rewrite orb_assoc.
Qed.

Lemma occurs_free_terms (e k : Expr) : occurs e k = set_mem (free_terms e) k.
Proof.
  induction e as [m t|m t|m ts t IH|m ts IH|f IH|f1 f2 IH1 IH2|f1 f2 IH1 IH2
    |f1 f2 IH1 IH2|v f IHv IHf|v f IHv IHf] using Expr_induction;
    cbn [occurs free_terms]; rewrite ?set_mem_union; try congruence;
    try reflexivity.
  - unfold set_mem. cbn [existsb]. now rewrite orb_false_r.
  - now rewrite free_terms_fold.
  - now rewrite free_terms_fold.
Qed.

Lemma free_terms_are_terms (e : Expr) :
  Forall (fun k => is_Term k = true) (free_terms e).
Proof.
  assert (Hadd : forall s x, Forall (fun k => is_Term k = true) s ->
                   is_Term x = true ->
                   Forall (fun k => is_Term k = true) (set_add s x)).
  { intros s x Hs Hx. unfold set_add. destruct (set_mem s x); [exact Hs|].
    apply Forall_app. split; [exact Hs | now constructor]. }
  assert (Hun : forall s2 s1, Forall (fun k => is_Term k = true) s1 ->
                   Forall (fun k => is_Term k = true) s2 ->
                   Forall (fun k => is_Term k = true) (set_union s1 s2)).
  { unfold set_union. induction s2 as [|y s2 IH]; intros s1 H1 H2; simpl;
      [exact H1|]. inversion H2; subst. apply IH; auto. }
  assert (Hfold : forall ts,
            Forall (fun t => Forall (fun k => is_Term k = true) (free_terms t)) ts ->
            forall acc, Forall (fun k => is_Term k = true) acc ->
            Forall (fun k => is_Term k = true)
              (fold_left (fun acc t => set_union acc (free_terms t)) ts acc)).
  { induction 1 as [|t ts Ht _ IH]; intros acc Hacc; simpl; auto. }
  induction e as [m t|m t|m ts t IH|m ts IH|f IH|f1 f2 IH1 IH2|f1 f2 IH1 IH2
    |f1 f2 IH1 IH2|v f IHv IHf|v f IHv IHf] using Expr_induction;
    cbn [free_terms]; auto.
Qed.

Lemma free_variables_fold (ts : list Expr) :
  Forall free_variables_result ts ->
  forall a : list Expr,
    if forallb hashable_binders ts
    then exists fv,
        fold_left (fun acc t =>
                     a <- acc ;; s <- free_variables t ;; Ok (set_union a s))
                  ts (Ok a) = Ok fv /\
        forall x, set_mem fv x
                  = set_mem a x || existsb (fun t => free_in t x) ts
    else fold_left (fun acc t =>
                      a <- acc ;; s <- free_variables t ;; Ok (set_union a s))
                   ts (Ok a) = Raise TypeError.
Proof.
  assert (Herr : forall ts' : list Expr,
            fold_left (fun acc t =>
                         a <- acc ;; s <- free_variables t ;;
                         Ok (set_union a s))
                      ts' (Raise TypeError) = Raise TypeError).
  { induction ts' as [|t ts' IH]; simpl; auto. }
  induction 1 as [|t ts Ht _ IH]; intros a; cbn [forallb fold_left].
  - exists a. split; [reflexivity|]. intros x. simpl. now rewrite orb_false_r.
  - unfold free_variables_result in Ht.
    destruct (hashable_binders t); cbn [andb].
    + destruct Ht as (s & -> & Hs). cbn [bind].
      specialize (IH (set_union a s)).
      destruct (forallb hashable_binders ts); [|exact IH].
      destruct IH as (fv & -> & Hfv). exists fv. split; [reflexivity|].
      intros x. rewrite Hfv, set_mem_union, Hs. cbn [existsb].
      now rewrite orb_assoc.
    + rewrite Ht. cbn [bind]. apply Herr.
Qed.

Lemma free_variables_spec (e : Expr) : free_variables_result e.
Proof.
  induction e as [m t|m t|m ts t IH|m ts IH|f IH|f1 f2 IH1 IH2|f1 f2 IH1 IH2
    |f1 f2 IH1 IH2|v f IHv IHf|v f IHv IHf] using Expr_induction;
    unfold free_variables_result in *; cbn [hashable_binders free_variables].
  - eexists. split; [reflexivity|]. intros x. unfold set_mem.
    cbn [existsb free_in]. now rewrite orb_false_r.
  - eexists. split; [reflexivity|]. reflexivity.
  - pose proof (free_variables_fold ts IH []) as H.
    destruct (forallb hashable_binders ts); [|exact H].
    destruct H as (fv & -> & Hfv). exists fv. split; [reflexivity|].
    intros x. now rewrite Hfv.
  - pose proof (free_variables_fold ts IH []) as H.
    destruct (forallb hashable_binders ts); [|exact H].
    destruct H as (fv & -> & Hfv). exists fv. split; [reflexivity|].
    intros x. now rewrite Hfv.
  - exact IH.
  - destruct (hashable_binders f1); cbn [andb].
    + destruct IH1 as (a & -> & Ha). cbn [bind].
      destruct (hashable_binders f2).
      * destruct IH2 as (b & -> & Hb). cbn [bind]. eexists.
        split; [reflexivity|]. intros x. now rewrite set_mem_union, Ha, Hb.
      * now rewrite IH2.
    + now rewrite IH1.
  - destruct (hashable_binders f1); cbn [andb].
    + destruct IH1 as (a & -> & Ha). cbn [bind].
      destruct (hashable_binders f2).
      * destruct IH2 as (b & -> & Hb). cbn [bind]. eexists.
        split; [reflexivity|]. intros x. now rewrite set_mem_union, Ha, Hb.
      * now rewrite IH2.
    + now rewrite IH1.
  - destruct (hashable_binders f1); cbn [andb].
    + destruct IH1 as (a & -> & Ha). cbn [bind].
      destruct (hashable_binders f2).
      * destruct IH2 as (b & -> & Hb). cbn [bind]. eexists.
        split; [reflexivity|]. intros x. now rewrite set_mem_union, Ha, Hb.
      * now rewrite IH2.
    + now rewrite IH1.
  - destruct (hashable_binders f); cbn [andb].
    + destruct IHf as (s & -> & Hs). cbn [bind]. unfold hashed.
      destruct (is_Functor v); cbn [negb bind]; [reflexivity|].
      eexists. split; [reflexivity|]. intros x.
      now rewrite set_mem_diff1, Hs.
    + now rewrite IHf.
  - destruct (hashable_binders f); cbn [andb].
    + destruct IHf as (s & -> & Hs). cbn [bind]. unfold hashed.
      destruct (is_Functor v); cbn [negb bind]; [reflexivity|].
      eexists. split; [reflexivity|]. intros x.
      now rewrite set_mem_diff1, Hs.
    + now rewrite IHf.
Qed.

Lemma replace_key_eqb (e c c' n : Expr) :
  eqb c c' = true -> replace e c n = replace e c' n.
Proof.
  intros E.
  induction e as [m t|m t|m ts t IH|m ts IH|f IH|f1 f2 IH1 IH2|f1 f2 IH1 IH2
    |f1 f2 IH1 IH2|v f IHv IHf|v f IHv IHf] using Expr_induction;
    rewrite (replace_unfold _ c), (replace_unfold _ c');
    rewrite (eqb_congr_r _ c c' E);
    match goal with
    | |- context [if eqb ?x c' then _ else _] => destruct (eqb x c')
    end; try congruence.
  - f_equal. now apply map_ext_Forall.
  - f_equal. now apply map_ext_Forall.
Qed.

Lemma all2_map2 (g h : Expr -> Expr) (ts : list Expr) :
  Forall (fun t => eqb (g t) (h t) = true) ts ->
  all2 eqb (map g ts) (map h ts) = true.
Proof. induction 1; simpl; [reflexivity | now rewrite H, IHForall]. Qed.

Lemma replace_new_eqb (e c n n' : Expr) :
  eqb n n' = true -> eqb (replace e c n) (replace e c n') = true.
Proof.
  intros E.
  induction e as [m t|m t|m ts t IH|m ts IH|f IH|f1 f2 IH1 IH2|f1 f2 IH1 IH2
    |f1 f2 IH1 IH2|v f IHv IHf|v f IHv IHf] using Expr_induction;
    rewrite (replace_unfold _ c n), (replace_unfold _ c n');
    match goal with
    | |- context [if eqb ?x c then _ else _] => destruct (eqb x c)
    end; auto; try apply eqb_refl; cbn [eqb];
    rewrite ?IH, ?IH1, ?IH2, ?IHv, ?IHf; auto.
  - rewrite String.eqb_refl, !length_map, Nat.eqb_refl. simpl.
    now apply all2_map2.
  - rewrite String.eqb_refl, !length_map, Nat.eqb_refl. simpl.
    now apply all2_map2.
Qed.

Lemma replace_by_equal (e c n : Expr) :
  eqb n c = true -> eqb (replace e c n) e = true.
Proof.
  intros E.
  induction e as [m t|m t|m ts t IH|m ts IH|f IH|f1 f2 IH1 IH2|f1 f2 IH1 IH2
    |f1 f2 IH1 IH2|v f IHv IHf|v f IHv IHf] using Expr_induction;
    rewrite replace_unfold;
    match goal with
    | |- context [if eqb ?x c then _ else _] => destruct (eqb x c) eqn:Ec
    end;
    try (rewrite eqb_sym in Ec; now apply (eqb_trans n c));
    try apply eqb_refl; cbn [eqb];
    rewrite ?IH, ?IH1, ?IH2, ?IHv, ?IHf; auto.
  - rewrite String.eqb_refl, length_map, Nat.eqb_refl. simpl.
    now apply all2_refl_map.
  - rewrite String.eqb_refl, length_map, Nat.eqb_refl. simpl.
    now apply all2_refl_map.
Qed.

Lemma stamped_set_creation_time (e : Expr) (t : Z) :
  stamped t (set_creation_time e t) = true.
Proof.
  induction e as [m u|m u|m ts u IH|m ts IH|f IH|f1 f2 IH1 IH2|f1 f2 IH1 IH2
    |f1 f2 IH1 IH2|v f IHv IHf|v f IHv IHf] using Expr_induction;
    cbn [set_creation_time stamped];
    rewrite ?Z.eqb_refl, ?IH1, ?IH2, ?IHv, ?IHf; auto.
  - simpl. apply forallb_forall. intros x Hx.
    apply in_map_iff in Hx as (y & <- & Hy).
    rewrite Forall_forall in IH. auto.
  - apply forallb_forall. intros x Hx.
    apply in_map_iff in Hx as (y & <- & Hy).
    rewrite Forall_forall in IH. auto.
Qed.

Lemma set_creation_time_stamped (e : Expr) (t : Z) :
  stamped t e = true -> set_creation_time e t = e.
Proof.
  induction e as [m u|m u|m ts u IH|m ts IH|f IH|f1 f2 IH1 IH2|f1 f2 IH1 IH2
    |f1 f2 IH1 IH2|v f IHv IHf|v f IHv IHf] using Expr_induction;
    cbn [set_creation_time stamped]; rewrite ?andb_true_iff, ?Z.eqb_eq.
  - congruence.
  - congruence.
  - intros [-> H]. f_equal. rewrite forallb_forall in H.
    rewrite <- (map_id ts) at 2. apply map_ext_in. intros x Hx.
    rewrite Forall_forall in IH. auto.
  - intros H. f_equal. rewrite forallb_forall in H.
    rewrite <- (map_id ts) at 2. apply map_ext_in. intros x Hx.
    rewrite Forall_forall in IH. auto.
  - intros H. now rewrite IH.
  - intros [H1 H2]. now rewrite IH1, IH2.
  - intros [H1 H2]. now rewrite IH1, IH2.
  - intros [H1 H2]. now rewrite IH1, IH2.
  - intros [H1 H2]. now rewrite IHv, IHf.
  - intros [H1 H2]. now rewrite IHv, IHf.
Qed.

(** X1: [==] on expressions is an equivalence relation: every expression
    is equal to itself, equality does not depend on the side an operand
    is on, and two expressions equal to a third are equal. *)
Theorem eq_is_an_equivalence :
  (forall a : Expr, eqb a a = true) /\
  (forall a b : Expr, eqb a b = eqb b a) /\
  (forall a b c : Expr, eqb a b = true -> eqb b c = true -> eqb a c = true).
Proof.
  split; [|split].
  - intros a. apply eqb_refl.
  - intros a b. apply eqb_sym.
  - intros a b c. apply eqb_trans.
Qed.

(** X2: [replace] respects [==]: equal expressions, with equal
    expressions to replace and equal replacements, give equal results,
    whatever the creation times of the operands. *)
Theorem replace_respects_eq (e e' c c' n n' : Expr) :
  eqb e e' = true -> eqb c c' = true -> eqb n n' = true ->
  eqb (replace e c n) (replace e' c' n') = true.
Proof.
  intros He Hc Hn.
  apply (eqb_trans _ (replace e' c n)); [now apply replace_congr|].
  rewrite (replace_key_eqb e' c c' n Hc).
  now apply replace_new_eqb.
Qed.

Lemma replace_respects_eq_witness :
  eqb (replace (Functor "f" [Term "t" 3] 2) (Term "t" 0) (Var "x" 1))
      (replace (Functor "f" [Term "t" 0] 0) (Term "t" 5) (Var "x" 7)) = true.
Proof. apply replace_respects_eq; reflexivity. Defined.

(** X3: [replace(e, c, n)] is equal to [e] when [c] is no subexpression
    of [e], and when [n] is equal to [c]; the result is a copy, whose
    rebuilt [Functor]s have the time [0]. *)
Theorem replace_leaves_unchanged (e c n : Expr) :
  contains e c = false \/ eqb n c = true ->
  eqb (replace e c n) e = true.
Proof.
  intros [H|H]; [now apply replace_not_contained | now apply replace_by_equal].
Qed.

Lemma replace_leaves_unchanged_witness :
  eqb (replace (Predicate "P" [Functor "f" [Var "x" 4] 4]) (Var "y" 0)
         (Term "t" 0))
      (Predicate "P" [Functor "f" [Var "x" 4] 4]) = true.
Proof. apply replace_leaves_unchanged. left. reflexivity. Defined.

(** X4: replacing a unification term [k] by an expression [v] in which
    it does not occur leaves no occurrence of [k], and brings no
    unification term that was not in [e] or in [v]; the quantifiers of
    [e] and [v] bind [Variable]s. *)
Theorem replace_eliminates_term (e k v : Expr) :
  binds_variables e = true -> binds_variables v = true ->
  is_Term k = true -> occurs v k = false ->
  occurs (replace e k v) k = false /\
  forall k', occurs (replace e k v) k' = true ->
             occurs e k' = true \/ occurs v k' = true.
Proof.
  intros He Hv Hk Ho. split.
  - now apply replace_eliminates.
  - intros k'. apply occurs_replace.
Qed.

Lemma replace_eliminates_term_witness :
  occurs (replace (Predicate "P" [Term "t" 0; Functor "f" [Term "t" 0] 0])
            (Term "t" 0) (Functor "g" [Term "u" 0] 0)) (Term "t" 0) = false /\
  forall k',
    occurs (replace (Predicate "P" [Term "t" 0; Functor "f" [Term "t" 0] 0])
              (Term "t" 0) (Functor "g" [Term "u" 0] 0)) k' = true ->
    occurs (Predicate "P" [Term "t" 0; Functor "f" [Term "t" 0] 0]) k' = true \/
    occurs (Functor "g" [Term "u" 0] 0) k' = true.
Proof. apply replace_eliminates_term; reflexivity. Defined.

(** X5: [e.occurs(k)] holds exactly when [e.free_terms()] has a
    member equal to [k], for every expression [k], and [free_terms] holds
    [Term]s only. *)
Theorem occurs_is_membership_in_free_terms (e k : Expr) :
  occurs e k = set_mem (free_terms e) k /\
  Forall (fun x => is_Term x = true) (free_terms e).
Proof.
  split; [apply occurs_free_terms | apply free_terms_are_terms].
Qed.

(** X6: [free_variables] returns the set of the variables that occur
    outside the scope of a quantifier binding them, and raises
    [TypeError] exactly when a quantifier that it goes through has a
    [Functor], which is unhashable, as its bound variable. *)
Theorem free_variables_characterised (e : Expr) :
  (hashable_binders e = true ->
   exists fv, free_variables e = Ok fv /\
              forall x, set_mem fv x = free_in e x) /\
  (hashable_binders e = false -> free_variables e = Raise TypeError).
Proof.
  pose proof (free_variables_spec e) as H. unfold free_variables_result in H.
  destruct (hashable_binders e); split; intros E; try discriminate; exact H.
Qed.

(** X7: after [e.set_creation_time(t)] every [Variable], [Term] and
    [Functor] of [e] has the time [t]; a second call overrides the first,
    and a call with the time that every node already has changes
    nothing. *)
Theorem set_creation_time_stamps_every_node (e : Expr) (t u : Z) :
  stamped t (set_creation_time e t) = true /\
  set_creation_time (set_creation_time e t) u = set_creation_time e u /\
  (stamped t e = true -> set_creation_time e t = e).
Proof.
  split; [apply stamped_set_creation_time|].
  split; [apply set_creation_time_twice | apply set_creation_time_stamped].
Qed.

(** ** Further properties of unification *)

Lemma ground_not_Term (e : Expr) : ground e = true -> is_Term e = false.
Proof. now destruct e. Qed.

(** The loop of [unify] over the children of two ground nodes, where
    [unify] decides [==] on the children. *)
Lemma unify_loop_ground (f : Expr -> Expr -> res (option substitution))
  (ts : list Expr) : forall us,
  Forall (fun a => forall b, ground b = true ->
                             f a b = Ok (if eqb a b then Some [] else None)) ts ->
  forallb ground us = true ->
  length ts = length us ->
  unify_loop f [] (combine ts us)
  = Ok (if all2 eqb ts us then Some [] else None).
Proof.
  induction ts as [|a ts IH]; intros [|b us] Hf Hus Hlen; try discriminate;
    [reflexivity|].
  inversion Hf as [|? ? Ha Hts]; subst.
  cbn [forallb] in Hus. apply andb_true_iff in Hus as [Hb Hus].
  cbn [combine unify_loop apply_substitution fold_left all2].
  rewrite (Ha b Hb). cbn [bind]. destruct (eqb a b); [|reflexivity].
  cbn [andb]. apply IH; auto.
Qed.

Lemma size_children_le (ts : list Expr) (fuel : nat) :
  (list_sum (map size ts) <= fuel)%nat ->
  Forall (fun t => (size t <= fuel)%nat) ts.
Proof.
  induction ts as [|t ts IH]; simpl; constructor; [lia|]. apply IH. lia.
Qed.

(** X8: on two expressions built from [Variable]s, [Functor]s and
    [Predicate]s only, [unify] returns the empty substitution when they
    are equal and the failure [None] when they are not. *)
Theorem unify_decides_equality_of_ground_terms (a : Expr) :
  forall (fuel : nat) (b : Expr),
  ground a = true -> ground b = true -> (size a <= fuel)%nat ->
  unify fuel a b = Ok (if eqb a b then Some [] else None).
Proof.
  induction a as [n t|n t|n ts t IH|n ts IH|f IH|f1 f2 IH1 IH2|f1 f2 IH1 IH2
    |f1 f2 IH1 IH2|v f IHv IHf|v f IHv IHf] using Expr_induction;
    intros fuel b Ha Hb Hsz; try discriminate;
    (destruct fuel as [|fuel]; [cbn [size] in Hsz; lia|]);
    cbn [unify is_Term]; rewrite (ground_not_Term b Hb);
    destruct b as [m u|m u|m us u|m us| | | | | |]; try discriminate;
    try reflexivity.
  - cbn [eqb]. destruct (String.eqb n m); cbn [negb andb]; [|reflexivity].
    destruct (Nat.eqb (length ts) (length us)) eqn:El; cbn [negb andb];
      [|reflexivity].
    apply Nat.eqb_eq in El. cbn [ground] in Ha, Hb. cbn [size] in Hsz.
    apply unify_loop_ground; auto.
    pose proof (size_children_le ts fuel ltac:(lia)) as Hs.
    rewrite forallb_forall in Ha. rewrite Forall_forall in *.
    intros a Hin b' Hb'. apply IH; auto.
  - cbn [eqb]. destruct (String.eqb n m); cbn [negb andb]; [|reflexivity].
    destruct (Nat.eqb (length ts) (length us)) eqn:El; cbn [negb andb];
      [|reflexivity].
    apply Nat.eqb_eq in El. cbn [ground] in Ha, Hb. cbn [size] in Hsz.
    apply unify_loop_ground; auto.
    pose proof (size_children_le ts fuel ltac:(lia)) as Hs.
    rewrite forallb_forall in Ha. rewrite Forall_forall in *.
    intros a Hin b' Hb'. apply IH; auto.
Qed.

Lemma unify_decides_equality_of_ground_terms_witness :
  unify 3 (Functor "f" [Var "x" 0; Functor "a" [] 0] 0)
          (Functor "f" [Var "x" 2; Functor "b" [] 0] 1)
  = Ok (if eqb (Functor "f" [Var "x" 0; Functor "a" [] 0] 0)
               (Functor "f" [Var "x" 2; Functor "b" [] 0] 1)
        then Some [] else None).
Proof.
  apply unify_decides_equality_of_ground_terms;
    [reflexivity | reflexivity | simpl; lia].
Defined.

(** The loop of [unify] over the children of a node and themselves. *)
Lemma unify_loop_self (f : Expr -> Expr -> res (option substitution))
  (ts : list Expr) :
  Forall (fun a => f a a = Ok (if ground a then Some [] else None)) ts ->
  unify_loop f [] (combine ts ts)
  = Ok (if forallb ground ts then Some [] else None).
Proof.
  induction 1 as [|a ts Ha _ IH]; [reflexivity|].
  cbn [combine unify_loop apply_substitution fold_left forallb].
  rewrite Ha. cbn [bind]. destruct (ground a); [|reflexivity].
  cbn [andb]. exact IH.
Qed.

(** X9: [unify(a, a)] returns the empty substitution when [a] is built
    from [Variable]s, [Functor]s and [Predicate]s only, and fails
    otherwise: a unification term does not unify with itself, as it
    occurs in itself, and two connectives or quantifiers never unify. *)
Theorem unify_with_itself (a : Expr) : forall fuel : nat,
  (size a <= fuel)%nat ->
  unify fuel a a = Ok (if ground a then Some [] else None).
Proof.
  induction a as [n t|n t|n ts t IH|n ts IH|f IH|f1 f2 IH1 IH2|f1 f2 IH1 IH2
    |f1 f2 IH1 IH2|v f IHv IHf|v f IHv IHf] using Expr_induction;
    intros fuel Hsz;
    (destruct fuel as [|fuel]; [cbn [size] in Hsz; lia|]);
    cbn [unify is_Term ground]; try reflexivity.
  - cbn [eqb]. now rewrite String.eqb_refl.
  - unfold bind_term. cbn [occurs eqb]. now rewrite String.eqb_refl.
  - rewrite String.eqb_refl, Nat.eqb_refl. cbn [negb].
    cbn [size] in Hsz. apply unify_loop_self.
    pose proof (size_children_le ts fuel ltac:(lia)) as Hs.
    rewrite Forall_forall in *. intros a Hin. apply IH; auto.
  - rewrite String.eqb_refl, Nat.eqb_refl. cbn [negb].
    cbn [size] in Hsz. apply unify_loop_self.
    pose proof (size_children_le ts fuel ltac:(lia)) as Hs.
    rewrite Forall_forall in *. intros a Hin. apply IH; auto.
Qed.

Lemma unify_with_itself_witness :
  unify 2 (Functor "f" [Term "t" 0] 0) (Functor "f" [Term "t" 0] 0)
  = Ok (if ground (Functor "f" [Term "t" 0] 0) then Some [] else None).
Proof. apply unify_with_itself. simpl. lia. Defined.

Lemma bind_term_time_ordered (t e : Expr) (s : substitution) :
  bind_term t e = Ok (Some s) -> time_ordered s.
Proof.
  unfold bind_term. destruct (occurs e t); [discriminate|].
  destruct (get_time e) as [te| |] eqn:Ee; cbn [bind]; try discriminate.
  destruct (get_time t) as [tt| |] eqn:Et; cbn [bind]; try discriminate.
  destruct (te >? tt) eqn:Ec; [discriminate|]. intros [= <-].
  constructor; [|constructor]. exists tt, te. cbn [fst snd].
  repeat split; auto. lia.
Qed.

Section LoopTimes.

Variable unify_rec : Expr -> Expr -> res (option substitution).

Hypothesis unify_rec_solution : forall a b s,
  binds_variables a = true -> binds_variables b = true ->
  unify_rec a b = Ok (Some s) -> solution s [(a, b)].

Hypothesis unify_rec_times : forall a b s,
  binds_variables a = true -> binds_variables b = true ->
  unify_rec a b = Ok (Some s) -> time_ordered s.

Lemma unify_loop_time_ordered (pairs : list (Expr * Expr)) :
  forall done s0 s,
    Forall (fun p => binds_variables (fst p) = true /\
                     binds_variables (snd p) = true) pairs ->
    solution s0 done ->
    time_ordered s0 ->
    unify_loop unify_rec s0 pairs = Ok (Some s) ->
    time_ordered s.
Proof.
  induction pairs as [|[a b] pairs IH]; intros done s0 s Hwf Hsol Ht; simpl.
  - now intros [= <-].
  - inversion Hwf as [|? ? [Ha Hb] Hwf']; subst. simpl in Ha, Hb.
    destruct (unify_rec (apply_substitution s0 a) (apply_substitution s0 b))
      as [[sub|]| |] eqn:Eu; cbn [bind]; try discriminate.
    intros Hloop.
    assert (Hsub : solution sub
                     [(apply_substitution s0 a, apply_substitution s0 b)]).
    { apply unify_rec_solution; auto;
        apply binds_variables_apply; auto; apply Hsol. }
    destruct (solution_extend done s0 sub a b Hsol Ha Hb Hsub) as [Hm Hext].
    rewrite Hm in Hloop.
    apply (IH (done ++ [(a, b)])%list (s0 ++ sub)%list); auto.
    apply Forall_app. split; [exact Ht|].
    apply (unify_rec_times _ _ _) in Eu; auto;
      apply binds_variables_apply; auto; apply Hsol.
Qed.

End LoopTimes.

(** X10: a substitution returned by [unify(a, b)], where the
    quantifiers bind [Variable]s, binds unification terms of [a] or [b]
    only, each once; no key occurs in its value or in the value of a later
    binding, and none is left in [a] or [b] once the bindings are
    applied. *)
Theorem unify_binds_terms_of_its_arguments
  (fuel : nat) (a b : Expr) (s : substitution) :
  binds_variables a = true -> binds_variables b = true ->
  unify fuel a b = Ok (Some s) ->
  Forall (fun kv => is_Term (fst kv) = true /\
                    (occurs a (fst kv) = true \/ occurs b (fst kv) = true) /\
                    occurs (apply_substitution s a) (fst kv) = false /\
                    occurs (apply_substitution s b) (fst kv) = false) s /\
  distinct_keys s /\ triangular s.
Proof.
  intros Ha Hb Hu.
  destruct (unify_solution fuel a b s Ha Hb Hu) as [Hk Hv Ht Hd Hs _].
  split; [|split; assumption].
  pose proof (apply_eliminates s a Hk Hv Ht Ha) as Ea.
  pose proof (apply_eliminates s b Hk Hv Ht Hb) as Eb.
  unfold term_keys in Hk. rewrite Forall_forall in *.
  intros kv Hin. repeat split; auto.
  apply occurs_in_pair. apply Hs; [now apply Hk|].
  left. now apply dict_mem_In.
Qed.

Lemma unify_binds_terms_of_its_arguments_witness :
  let a := Functor "f" [Term "t" 1; Term "u" 1] 0 in
  let b := Functor "f" [Var "x" 0; Term "t" 1] 0 in
  let s := [(Term "t" 1, Var "x" 0); (Term "u" 1, Var "x" 0)] in
  Forall (fun kv => is_Term (fst kv) = true /\
                    (occurs a (fst kv) = true \/ occurs b (fst kv) = true) /\
                    occurs (apply_substitution s a) (fst kv) = false /\
                    occurs (apply_substitution s b) (fst kv) = false) s /\
  distinct_keys s /\ triangular s.
Proof.
  apply (unify_binds_terms_of_its_arguments 2); reflexivity.
Defined.

(** X11: a substitution returned by [unify_list] unifies every pair
    of the list, when applied in order by [replace]; its keys are distinct
    unification terms.  The quantifiers of the pairs bind [Variable]s. *)
Theorem unify_list_sound
  (fuel : nat) (pairs : list (Expr * Expr)) (s : substitution) :
  Forall (fun p => binds_variables (fst p) = true /\
                   binds_variables (snd p) = true) pairs ->
  unify_list fuel pairs = Ok (Some s) ->
  Forall (unifies s) pairs /\ term_keys s /\ distinct_keys s.
Proof.
  intros Hwf Hu. unfold unify_list in Hu.
  destruct (unify_loop_solution (unify fuel) (unify_solution fuel) pairs
              [] [] s Hwf solution_nil Hu) as [Hk _ _ Hd _ Hall].
  auto.
Qed.

Lemma unify_list_sound_witness :
  let pairs := [(Predicate "P" [Term "t" 1], Predicate "P" [Var "x" 0]);
                (Predicate "Q" [Term "t" 1; Term "u" 1],
                 Predicate "Q" [Var "x" 0; Functor "f" [Term "t" 1] 0])] in
  let s := [(Term "t" 1, Var "x" 0);
            (Term "u" 1, Functor "f" [Var "x" 0] 0)] in
  Forall (unifies s) pairs /\ term_keys s /\ distinct_keys s.
Proof.
  apply (unify_list_sound 3); [repeat constructor | reflexivity].
Defined.

(** X12: in a substitution returned by [unify] the value of every
    binding has a creation time, and it is not later than that of its key:
    the time is that of the top node of the value as it is bound. *)
Theorem unify_bindings_respect_creation_times (fuel : nat) :
  forall (a b : Expr) (s : substitution),
  binds_variables a = true -> binds_variables b = true ->
  unify fuel a b = Ok (Some s) -> time_ordered s.
Proof.
  induction fuel as [|fuel IH]; intros a b s Ha Hb; [discriminate|].
  cbn [unify]. destruct (is_Term a); [apply bind_term_time_ordered|].
  destruct (is_Term b); [apply bind_term_time_ordered|].
  assert (Hloop : forall ts us,
            forallb binds_variables ts = true ->
            forallb binds_variables us = true ->
            unify_loop (unify fuel) [] (combine ts us) = Ok (Some s) ->
            time_ordered s).
  { intros ts us Hts Hus.
    apply (unify_loop_time_ordered (unify fuel) (unify_solution fuel) IH
             (combine ts us) [] []); auto using solution_nil.
    - now apply binds_variables_combine.
    - constructor. }
  destruct a as [n t|n t|n ts t|n ts| | | | | |];
    destruct b as [m u|m u|m us u|m us| | | | | |]; try discriminate.
  - destruct (eqb (Var n t) (Var m u)); [|discriminate].
    intros [= <-]. constructor.
  - destruct (negb (String.eqb n m)); [discriminate|].
    destruct (negb (Nat.eqb (length ts) (length us))); [discriminate|].
    now apply Hloop.
  - destruct (negb (String.eqb n m)); [discriminate|].
    destruct (negb (Nat.eqb (length ts) (length us))); [discriminate|].
    now apply Hloop.
Qed.

Lemma unify_bindings_respect_creation_times_witness :
  time_ordered [(Term "t" 2, Var "x" 1); (Term "u" 3, Functor "c" [] 0)].
Proof.
  apply (unify_bindings_respect_creation_times 2
           (Functor "f" [Term "t" 2; Functor "c" [] 0] 0)
           (Functor "f" [Var "x" 1; Term "u" 3] 0)); reflexivity.
Defined.

(** ** The methods of a sequent *)

Lemma free_in_not_Var (e x : Expr) : is_Var x = false -> free_in e x = false.
Proof.
  intros Hx.
  induction e as [m t|m t|m ts t IH|m ts IH|f IH|f1 f2 IH1 IH2|f1 f2 IH1 IH2
    |f1 f2 IH1 IH2|v f IHv IHf|v f IHv IHf] using Expr_induction;
    cbn [free_in]; rewrite ?IH1, ?IH2, ?IHf; auto.
  - destruct x; try discriminate; reflexivity.
  - now apply existsb_false_Forall.
  - now apply existsb_false_Forall.
Qed.

Lemma set_mem_terms_Var (s : list Expr) (x : Expr) :
  Forall (fun k => is_Term k = true) s -> is_Term x = false ->
  set_mem s x = false.
Proof.
  intros Hs Hx. unfold set_mem. apply existsb_false_Forall.
  rewrite Forall_forall in *. intros k Hk. specialize (Hs k Hk).
  destruct k; try discriminate. now destruct x.
Qed.

Lemma sequent_free_terms_are_terms (s : Sequent) :
  Forall (fun k => is_Term k = true) (sequent_free_terms s).
Proof.
  assert (Hadd : forall s x, Forall (fun k => is_Term k = true) s ->
                   is_Term x = true ->
                   Forall (fun k => is_Term k = true) (set_add s x)).
  { intros l x Hs Hx. unfold set_add. destruct (set_mem l x); [exact Hs|].
    apply Forall_app. split; [exact Hs | now constructor]. }
  assert (Hun : forall s2 s1, Forall (fun k => is_Term k = true) s1 ->
                   Forall (fun k => is_Term k = true) s2 ->
                   Forall (fun k => is_Term k = true) (set_union s1 s2)).
  { unfold set_union. induction s2 as [|y s2 IH]; intros s1 H1 H2; simpl;
      [exact H1|]. inversion H2; subst. apply IH; auto. }
  assert (Hfold : forall ts acc, Forall (fun k => is_Term k = true) acc ->
            Forall (fun k => is_Term k = true)
              (fold_left (fun acc t => set_union acc (free_terms t)) ts acc)).
  { induction ts as [|t ts IH]; intros acc Hacc; simpl; auto.
    apply IH, Hun; auto using free_terms_are_terms. }
  unfold sequent_free_terms. apply Hfold, Hfold. constructor.
Qed.

Lemma sequent_free_terms_mem (s : Sequent) (k : Expr) :
  set_mem (sequent_free_terms s) k
  = existsb (fun f => occurs f k) (sequent_keys s).
Proof.
  unfold sequent_free_terms, sequent_keys.
  rewrite !free_terms_fold, existsb_app;
    try (apply Forall_forall; intros; apply occurs_free_terms).
  reflexivity.
Qed.

Lemma sequent_free_variables_spec (s : Sequent) :
  if forallb hashable_binders (sequent_keys s)
  then exists fv, sequent_free_variables s = Ok fv /\
                  forall x, set_mem fv x
                            = existsb (fun f => free_in f x) (sequent_keys s)
  else sequent_free_variables s = Raise TypeError.
Proof.
  unfold sequent_free_variables, sequent_keys. rewrite forallb_app.
  pose proof (free_variables_fold (keys (left s))
                ltac:(apply Forall_forall; intros; apply free_variables_spec)
                []) as Hl.
  destruct (forallb hashable_binders (keys (left s))); cbn [andb].
  - destruct Hl as (l & -> & Hl). cbn [bind].
    pose proof (free_variables_fold (keys (right s))
                  ltac:(apply Forall_forall; intros; apply free_variables_spec)
                  l) as Hr.
    destruct (forallb hashable_binders (keys (right s))); [|exact Hr].
    destruct Hr as (fv & -> & Hr). exists fv. split; [reflexivity|].
    intros x. now rewrite Hr, Hl, existsb_app.
  - now rewrite Hl.
Qed.

(** The test of the [while] loop, on the formulas of the sequent. *)
Lemma taken_spec (s : Sequent) (fv : list Expr) (name : string) :
  (forall x, set_mem fv x = existsb (fun f => free_in f x) (sequent_keys s)) ->
  set_mem (set_union fv (sequent_free_terms s)) (Var name 0)
  || set_mem (set_union fv (sequent_free_terms s)) (Term name 0)
  = name_taken s name.
Proof.
  intros Hfv. rewrite !set_mem_union, !Hfv, !sequent_free_terms_mem.
  unfold name_taken.
  assert (Hv : forall e, occurs e (Var name 0) = false).
  { intros e. rewrite occurs_free_terms. apply set_mem_terms_Var;
      [apply free_terms_are_terms | reflexivity]. }
  assert (Hl1 : forall l, existsb (fun f => occurs f (Var name 0)) l = false).
  { intros l. apply existsb_false_Forall, Forall_forall. intros; apply Hv. }
  assert (Hl2 : forall l, existsb (fun f => free_in f (Term name 0)) l = false).
  { intros l. apply existsb_false_Forall, Forall_forall. intros.
    now apply free_in_not_Var. }
  rewrite Hl1, Hl2, orb_false_r. cbn [orb].
  clear Hfv. induction (sequent_keys s) as [|f l IH]; [reflexivity|]. cbn [existsb].
  rewrite <- IH.
  destruct (free_in f (Var name 0)), (occurs f (Term name 0)),
    (existsb (fun f => free_in f (Var name 0)) l),
    (existsb (fun f => occurs f (Term name 0)) l); reflexivity.
Qed.

(** The loop returns the first candidate that passes the test. *)
Lemma get_variable_name_loop_least (fv : list Expr) (prefix : string)
  (fuel : nat) : forall (index : nat) (name : string),
  get_variable_name_loop fuel fv prefix index = Ok name ->
  exists i, (index <= i)%nat /\ name = prefix ++ str_of_nat i /\
    set_mem fv (Var name 0) || set_mem fv (Term name 0) = false /\
    forall j, (index <= j < i)%nat ->
      set_mem fv (Var (prefix ++ str_of_nat j) 0)
      || set_mem fv (Term (prefix ++ str_of_nat j) 0) = true.
Proof.
  induction fuel as [|fuel IH]; intros index name; [discriminate|].
  cbn [get_variable_name_loop].
  destruct (set_mem fv (Var (prefix ++ str_of_nat index) 0)
            || set_mem fv (Term (prefix ++ str_of_nat index) 0)) eqn:E.
  - intros H. destruct (IH _ _ H) as (i & Hi & Hn & Hf & Hl).
    exists i. repeat split; auto; [lia|]. intros j Hj.
    destruct (Nat.eq_dec j index) as [->|Hne]; [exact E|]. apply Hl. lia.
  - intros [= <-]. exists index. repeat split; auto. intros j Hj. lia.
Qed.

Lemma get_variable_name_spec (s : Sequent) (prefix : string) :
  (forallb hashable_binders (sequent_keys s) = true ->
   exists i, (1 <= i)%nat /\
     get_variable_name s prefix = Ok (prefix ++ str_of_nat i) /\
     name_taken s (prefix ++ str_of_nat i) = false /\
     forall j, (1 <= j < i)%nat ->
               name_taken s (prefix ++ str_of_nat j) = true) /\
  (forallb hashable_binders (sequent_keys s) = false ->
   get_variable_name s prefix = Raise TypeError).
Proof.
  pose proof (sequent_free_variables_spec s) as Hfv.
  destruct (forallb hashable_binders (sequent_keys s)); split;
    try discriminate; intros _.
  - destruct Hfv as (fv & Hfv & Hmem).
    destruct (get_variable_name_returns s prefix fv Hfv) as (name & Hn & _).
    pose proof Hn as Hloop. unfold get_variable_name in Hloop.
    rewrite Hfv in Hloop. cbn [bind] in Hloop.
    apply get_variable_name_loop_least in Hloop as (i & Hi & -> & Hf & Hl).
    exists i. repeat split; auto.
    + now rewrite <- (taken_spec s fv).
    + intros j Hj. rewrite <- (taken_spec s fv) by exact Hmem. now apply Hl.
  - unfold get_variable_name. now rewrite Hfv.
Qed.

(** X13: [get_variable_name(prefix)] returns [prefix] followed by the
    least index from [1] on such that no formula of the sequent has a free
    variable or a unification term of that name; it raises [TypeError]
    when a formula has a [Functor] as the bound variable of a
    quantifier. *)
Theorem get_variable_name_fresh_and_least (s : Sequent) (prefix : string) :
  (forallb hashable_binders (sequent_keys s) = true ->
   exists i, (1 <= i)%nat /\
     get_variable_name s prefix = Ok (prefix ++ str_of_nat i) /\
     name_taken s (prefix ++ str_of_nat i) = false /\
     forall j, (1 <= j < i)%nat ->
               name_taken s (prefix ++ str_of_nat j) = true) /\
  (forallb hashable_binders (sequent_keys s) = false ->
   get_variable_name s prefix = Raise TypeError).
Proof.
  destruct (get_variable_name_spec s prefix) as [Hok Herr].
  split; [exact Hok | exact Herr].
Qed.

Lemma sequent_eqb_trans (a b c : Sequent) :
  sequent_eqb a b = true -> sequent_eqb b c = true -> sequent_eqb a c = true.
Proof.
  assert (Hstep : forall (x y z : list (Expr * Z)),
            forallb (fun f => dict_mem y f) (keys x) = true ->
            forallb (fun f => dict_mem z f) (keys y) = true ->
            forallb (fun f => dict_mem z f) (keys x) = true).
  { intros x y z Hxy Hyz. rewrite forallb_forall in *. intros k Hk.
    specialize (Hxy k Hk). unfold dict_mem in Hxy.
    apply existsb_exists in Hxy as ([ky vy] & Hin & E). cbn [fst] in E.
    assert (Hky : In ky (keys y)) by (apply in_map_iff; exists (ky, vy); auto).
    specialize (Hyz ky Hky). unfold dict_mem in *.
    apply existsb_exists in Hyz as (kz & Hinz & Ez).
    apply existsb_exists. exists kz. split; [exact Hinz|].
    now apply (eqb_trans _ ky). }
  unfold sequent_eqb. rewrite !andb_true_iff.
  intros [[[H1 H2] H3] H4] [[[G1 G2] G3] G4]. repeat split; eauto.
Qed.

Lemma dict_mem_eqb {V : Type} (d : list (Expr * V)) (k k' : Expr) :
  eqb k k' = true -> dict_mem d k = dict_mem d k'.
Proof.
  intros E. unfold dict_mem. apply existsb_ext_in. intros kv _.
  now apply eqb_congr_r.
Qed.

Lemma same_keys_iff (x y : list (Expr * Z)) :
  forallb (fun f => dict_mem y f) (keys x) = true /\
  forallb (fun f => dict_mem x f) (keys y) = true <->
  forall k, dict_mem x k = dict_mem y k.
Proof.
  assert (Hsub : forall x y : list (Expr * Z),
            forallb (fun f => dict_mem y f) (keys x) = true ->
            forall k, dict_mem x k = true -> dict_mem y k = true).
  { intros x' y' H k Hk. rewrite forallb_forall in H. unfold dict_mem in Hk.
    apply existsb_exists in Hk as ([kx vx] & Hin & E). cbn [fst] in E.
    rewrite <- (dict_mem_eqb y' kx k E). apply H.
    apply in_map_iff. exists (kx, vx). auto. }
  split.
  - intros [H1 H2] k. apply bool_eq_iff. split; eauto.
  - intros H. split; apply forallb_forall; intros k Hk;
      apply in_map_iff in Hk as (kv & <- & Hin);
      [rewrite <- H | rewrite H]; now apply dict_mem_In.
Qed.

(** X14: two sequents are [==] exactly when their left sides have the
    same formulas and their right sides have: the counters, the depth, the
    siblings and the order of the formulas do not count.  It is an
    equivalence relation. *)
Theorem sequent_eq_is_equality_of_key_sets :
  (forall a b,
     sequent_eqb a b = true <->
     (forall k, dict_mem (left a) k = dict_mem (left b) k) /\
     (forall k, dict_mem (right a) k = dict_mem (right b) k)) /\
  (forall a, sequent_eqb a a = true) /\
  (forall a b, sequent_eqb a b = sequent_eqb b a) /\
  (forall a b c, sequent_eqb a b = true -> sequent_eqb b c = true ->
                 sequent_eqb a c = true).
Proof.
  split; [|split; [|split]].
  - intros a b. unfold sequent_eqb. rewrite !andb_true_iff.
    rewrite <- !same_keys_iff. tauto.
  - apply sequent_eqb_refl.
  - apply sequent_eqb_sym.
  - apply sequent_eqb_trans.
Qed.

(** ** The search on propositional input *)

Lemma size_set_creation_time (e : Expr) (t : Z) :
  size (set_creation_time e t) = size e.
Proof.
  induction e as [m u|m u|m ts u IH|m ts IH|f IH|f1 f2 IH1 IH2|f1 f2 IH1 IH2
    |f1 f2 IH1 IH2|v f IHv IHf|v f IHv IHf] using Expr_induction;
    cbn [set_creation_time size]; try congruence.
  - f_equal. f_equal. rewrite map_map. now apply map_ext_Forall.
  - f_equal. f_equal. rewrite map_map. now apply map_ext_Forall.
Qed.

Lemma eqb_size (a b : Expr) : eqb a b = true -> size a = size b.
Proof.
  rewrite eqb_erase. intros E.
  rewrite <- (size_set_creation_time a 0), <- (size_set_creation_time b 0).
  now rewrite E.
Qed.

Lemma eval_set_creation_time (v : Expr -> bool) (e : Expr) (t : Z) :
  eval v (set_creation_time e t) = eval v e.
Proof.
  induction e as [m u|m u|m ts u IH|m ts IH|f IH|f1 f2 IH1 IH2|f1 f2 IH1 IH2
    |f1 f2 IH1 IH2|x f IHv IHf|x f IHv IHf] using Expr_induction;
    try (cbn [set_creation_time eval]; congruence);
    match goal with
    | |- eval v (set_creation_time ?e t) = _ =>
        transitivity (v (set_creation_time (set_creation_time e t) 0));
        [reflexivity | now rewrite set_creation_time_twice]
    end.
Qed.

Lemma eval_eqb (v : Expr -> bool) (a b : Expr) :
  eqb a b = true -> eval v a = eval v b.
Proof.
  rewrite eqb_erase. intros E.
  rewrite <- (eval_set_creation_time v a 0), <- (eval_set_creation_time v b 0).
  now rewrite E.
Qed.

Lemma propositional_not_Functor (e : Expr) :
  propositional e = true -> is_Functor e = false.
Proof. now destruct e. Qed.

Lemma propositional_set_creation_time (e : Expr) (t : Z) :
  propositional (set_creation_time e t) = propositional e.
Proof.
  induction e as [m u|m u|m ts u IH|m ts IH|f IH|f1 f2 IH1 IH2|f1 f2 IH1 IH2
    |f1 f2 IH1 IH2|x f IHv IHf|x f IHv IHf] using Expr_induction;
    cbn [set_creation_time propositional]; congruence.
Qed.

(** *** Dictionaries under a predicate that respects [==] *)

Section Respect.

Variable p : Expr -> bool.

Hypothesis p_eqb : forall a b, eqb a b = true -> p a = p b.

Lemma forallb_dict_set (d : list (Expr * Z)) (k : Expr) (x : Z) :
  forallb p (keys (dict_set d k x)) = forallb p (keys d) && p k.
Proof.
  unfold keys. induction d as [|[k' v'] d IH]; simpl.
  - apply andb_comm.
  - destruct (eqb k' k) eqn:E; simpl.
    + rewrite <- (p_eqb k' k E).
      destruct (p k'), (forallb p (map fst d)); auto.
    + rewrite IH. now rewrite andb_assoc.
Qed.

Lemma forallb_dict_del (d : list (Expr * Z)) (k : Expr) :
  dict_mem d k = true ->
  forallb p (keys d) = forallb p (keys (dict_del d k)) && p k.
Proof.
  unfold keys, dict_mem.
  induction d as [|[k' v'] d IH]; simpl; [discriminate|].
  destruct (eqb k' k) eqn:E; simpl.
  - intros _. rewrite <- (p_eqb k' k E). apply andb_comm.
  - intros Hm. rewrite (IH Hm). now rewrite andb_assoc.
Qed.

Lemma forallb_erased (l : list Expr) :
  forallb p (map (fun k => set_creation_time k 0) l) = forallb p l.
Proof.
  induction l as [|k l IH]; simpl; [reflexivity|].
  rewrite IH. f_equal. apply p_eqb, eqb_set_creation_time.
Qed.

End Respect.

Lemma dict_mem_dict_set (d : list (Expr * Z)) (k : Expr) (x : Z) (k0 : Expr) :
  dict_mem (dict_set d k x) k0 = dict_mem d k0 || eqb k k0.
Proof.
  unfold dict_mem. induction d as [|[k' v'] d IH]; simpl.
  - now rewrite orb_false_r.
  - destruct (eqb k' k) eqn:E; simpl.
    + rewrite (eqb_congr_l k' k k0 E).
      destruct (eqb k k0), (existsb _ d); auto.
    + rewrite IH. now rewrite orb_assoc.
Qed.

Lemma dict_mem_congr (d : list (Expr * Z)) (k k' : Expr) :
  eqb k k' = true -> dict_mem d k = dict_mem d k'.
Proof.
  intros E. unfold dict_mem. apply existsb_ext_in. intros kv _.
  now apply eqb_congr_r.
Qed.

Lemma dict_mem_dict_del (d : list (Expr * Z)) (k k0 : Expr) :
  unique_keys d = true ->
  dict_mem (dict_del d k) k0 = dict_mem d k0 && negb (eqb k k0).
Proof.
  induction d as [|[k' v'] d IH]; [reflexivity|].
  cbn [unique_keys dict_del]. intros Hu.
  apply andb_true_iff in Hu as [Hk' Hu].
  apply negb_true_iff in Hk'. specialize (IH Hu).
  assert (Hcons : forall d', dict_mem ((k', v') :: d') k0
                             = eqb k' k0 || dict_mem d' k0) by reflexivity.
  destruct (eqb k' k) eqn:E.
  - rewrite Hcons, (eqb_congr_l k' k k0 E).
    destruct (eqb k k0) eqn:E0; cbn [orb andb negb].
    + rewrite <- (dict_mem_congr d k' k0); [exact Hk'|].
      now apply (eqb_trans k' k k0).
    + now rewrite andb_true_r.
  - rewrite !Hcons, IH.
    destruct (eqb k' k0) eqn:E1; cbn [orb andb negb]; [|reflexivity].
    destruct (eqb k k0) eqn:E0; [|reflexivity].
    rewrite (eqb_sym k k0) in E0.
    rewrite (eqb_trans k' k0 k E1 E0) in E. discriminate.
Qed.

Lemma unique_keys_dict_set (d : list (Expr * Z)) (k : Expr) (x : Z) :
  unique_keys d = true -> unique_keys (dict_set d k x) = true.
Proof.
  induction d as [|[k' v'] d IH]; simpl; [reflexivity|].
  intros Hu. apply andb_true_iff in Hu as [Hk' Hu].
  destruct (eqb k' k) eqn:E; simpl.
  - now rewrite Hk', Hu.
  - rewrite dict_mem_dict_set, IH by exact Hu.
    apply negb_true_iff in Hk'. rewrite Hk'. simpl.
    now rewrite (eqb_sym k k'), E.
Qed.

Lemma unique_keys_dict_del (d : list (Expr * Z)) (k : Expr) :
  unique_keys d = true -> unique_keys (dict_del d k) = true.
Proof.
  induction d as [|[k' v'] d IH]; simpl; [reflexivity|].
  intros Hu. apply andb_true_iff in Hu as [Hk' Hu].
  destruct (eqb k' k) eqn:E; simpl; [exact Hu|].
  rewrite dict_mem_dict_del, IH by exact Hu.
  apply negb_true_iff in Hk'. now rewrite Hk'.
Qed.

Lemma dict_size_dict_set (d : list (Expr * Z)) (k : Expr) (x : Z) :
  (dict_size (dict_set d k x) <= dict_size d + size k)%nat.
Proof.
  unfold dict_size, keys. induction d as [|[k' v'] d IH]; simpl; [lia|].
  destruct (eqb k' k); simpl; lia.
Qed.

Lemma dict_size_dict_del (d : list (Expr * Z)) (k : Expr) :
  dict_mem d k = true ->
  (dict_size (dict_del d k) + size k = dict_size d)%nat.
Proof.
  unfold dict_size, keys, dict_mem.
  induction d as [|[k' v'] d IH]; simpl; [discriminate|].
  destruct (eqb k' k) eqn:E; simpl.
  - intros _. rewrite (eqb_size k' k E). lia.
  - intros Hm. specialize (IH Hm). lia.
Qed.

(** Dictionaries with the same keys have the same size. *)
Lemma dict_size_same_keys (x : list (Expr * Z)) : forall y,
  unique_keys x = true -> unique_keys y = true ->
  (forall k, dict_mem x k = dict_mem y k) ->
  dict_size x = dict_size y.
Proof.
  induction x as [|[k v] x IH]; intros y Hx Hy Hsame.
  - destruct y as [|[k' v'] y]; [reflexivity|].
    specialize (Hsame k'). unfold dict_mem in Hsame. simpl in Hsame.
    now rewrite eqb_refl in Hsame.
  - cbn [unique_keys] in Hx. apply andb_true_iff in Hx as [Hk Hx].
    apply negb_true_iff in Hk.
    assert (Hyk : dict_mem y k = true).
    { rewrite <- Hsame. unfold dict_mem. simpl. now rewrite eqb_refl. }
    rewrite <- (dict_size_dict_del y k Hyk).
    rewrite <- (IH (dict_del y k)); auto using unique_keys_dict_del.
    + unfold dict_size, keys. simpl. lia.
    + intros k0. rewrite dict_mem_dict_del by exact Hy.
      rewrite <- Hsame. unfold dict_mem at 2. cbn [existsb fst].
      fold (dict_mem x k0). destruct (eqb k k0) eqn:E; cbn [orb negb].
      * rewrite andb_false_r. now rewrite <- (dict_mem_congr x k k0 E).
      * now rewrite andb_true_r.
Qed.

Lemma propositional_eqb (a b : Expr) :
  eqb a b = true -> propositional a = propositional b.
Proof.
  rewrite eqb_erase. intros E.
  rewrite <- (propositional_set_creation_time a 0),
          <- (propositional_set_creation_time b 0).
  now rewrite E.
Qed.

Lemma refuted_eqb (v : Expr -> bool) (a b : Expr) :
  eqb a b = true -> negb (eval v a) = negb (eval v b).
Proof. intros E. now rewrite (eval_eqb v a b E). Qed.

Lemma delete_returns (d : list (Expr * Z)) (k : Expr) :
  is_Functor k = false -> dict_mem d k = true ->
  delete d k = Ok (dict_del d k).
Proof. intros Hk Hm. unfold delete, hashed. now rewrite Hk, Hm. Qed.

Lemma lookup_returns (d : list (Expr * Z)) (k : Expr) :
  is_Functor k = false -> dict_mem d k = true ->
  exists x, lookup d k = Ok x.
Proof.
  intros Hk Hm. unfold lookup, hashed. rewrite Hk. cbn [bind].
  unfold dict_mem in Hm. induction d as [|[k' v'] d IH]; [discriminate|].
  simpl in *. destruct (eqb k' k); [eauto | auto].
Qed.

Lemma assign_returns (d : list (Expr * Z)) (k : Expr) (x : Z) :
  is_Functor k = false -> assign d k x = Ok (dict_set d k x).
Proof. intros Hk. unfold assign, hashed. now rewrite Hk. Qed.

Lemma propositional_dict_set (d : list (Expr * Z)) (k : Expr) (x : Z) :
  forallb propositional (keys d) = true -> propositional k = true ->
  forallb propositional (keys (dict_set d k x)) = true.
Proof.
  intros Hd Hk. now rewrite (forallb_dict_set _ propositional_eqb), Hd, Hk.
Qed.

Lemma propositional_dict_del (d : list (Expr * Z)) (k : Expr) :
  dict_mem d k = true ->
  forallb propositional (keys d) = true ->
  forallb propositional (keys (dict_del d k)) = true.
Proof.
  intros Hm Hd. rewrite (forallb_dict_del _ propositional_eqb d k Hm) in Hd.
  now apply andb_true_iff in Hd.
Qed.

Lemma push_None (H : string -> Z) (st : state) (new : Sequent) :
  siblings new = None ->
  push H st new = mkState (frontier st ++ [new])%list (proven st) (store st).
Proof. intros Hs. unfold push. now rewrite Hs. Qed.

Lemma well_formed_inv (s : Sequent) :
  well_formed s = true ->
  forallb propositional (keys (left s)) = true /\
  forallb propositional (keys (right s)) = true /\
  siblings s = None /\
  unique_keys (left s) = true /\ unique_keys (right s) = true.
Proof.
  unfold well_formed, propositional_sequent. rewrite !andb_true_iff.
  intros [[[[Hl Hr] Hs] Hul] Hur]. repeat split; auto.
  now destruct (siblings s).
Qed.

Lemma well_formed_intro (l r : list (Expr * Z)) (d : Z) :
  forallb propositional (keys l) = true ->
  forallb propositional (keys r) = true ->
  unique_keys l = true -> unique_keys r = true ->
  well_formed (mkSequent l r None d) = true.
Proof.
  intros Hl Hr Hul Hur. unfold well_formed, propositional_sequent.
  cbn [left right siblings]. now rewrite Hl, Hr, Hul, Hur.
Qed.

Create HintDb rules.

#[local] Hint Resolve propositional_dict_set propositional_dict_del
  unique_keys_dict_set unique_keys_dict_del well_formed_intro
  propositional_not_Functor : rules.

(** The left rules on a well-formed sequent. *)
Lemma apply_left_successors (H : string -> Z) (st : state) (old : Sequent)
  (f : Expr) :
  well_formed old = true ->
  In f (keys (left old)) -> is_Predicate f = false ->
  exists succs,
    apply_left H st old f
    = Ok (mkState (frontier st ++ succs)%list (proven st) (store st)) /\
    successors old succs.
Proof.
  intros Hwf Hin Hnp.
  destruct (well_formed_inv old Hwf) as (Hpl & Hpr & Hsib & Hul & Hur).
  assert (Hpf : propositional f = true)
    by (rewrite forallb_forall in Hpl; auto).
  assert (Hmem : dict_mem (left old) f = true) by now apply dict_mem_keys.
  assert (Hnf : is_Functor f = false) by auto with rules.
  destruct (lookup_returns _ _ Hnf Hmem) as (x & Hx).
  pose proof (dict_size_dict_del _ _ Hmem) as Hdel.
  destruct f as [| | | |A|A B|A B|A B| |]; try discriminate;
    cbn [propositional] in Hpf;
    try (apply andb_true_iff in Hpf as [HA HB]);
    cbn [apply_left]; rewrite (delete_returns _ _ Hnf Hmem); cbn [bind];
    rewrite ?Hx; cbn [bind]; rewrite ?assign_returns by auto with rules;
    cbn [bind]; rewrite ?Hx; cbn [bind];
    rewrite ?assign_returns by auto with rules; cbn [bind];
    rewrite Hsib; rewrite !push_None by reflexivity; cbn [frontier proven store].
  - (* Not *)
    eexists [_]. split; [reflexivity|]. split; [simpl; lia|]. split.
    + constructor; [|constructor]. split; [auto 6 with rules|].
      unfold sequent_size. cbn [left right].
      pose proof (dict_size_dict_set (right old) A (x + 1)).
      cbn [size] in Hdel. lia.
    + intros v. unfold falsifies. cbn [left right existsb].
      rewrite (forallb_dict_del _ (eval_eqb v) _ _ Hmem).
      rewrite (forallb_dict_set _ (refuted_eqb v)). cbn [eval].
      destruct (forallb (eval v) _), (forallb (fun k => negb (eval v k)) _),
        (eval v A); reflexivity.
  - (* And *)
    eexists [_]. split; [reflexivity|]. split; [simpl; lia|]. split.
    + constructor; [|constructor]. split; [auto 8 with rules|].
      unfold sequent_size. cbn [left right].
      pose proof (dict_size_dict_set (dict_del (left old) (And A B)) A (x + 1)).
      pose proof (dict_size_dict_set
                    (dict_set (dict_del (left old) (And A B)) A (x + 1))
                    B (x + 1)).
      cbn [size] in Hdel. lia.
    + intros v. unfold falsifies. cbn [left right existsb].
      rewrite (forallb_dict_del _ (eval_eqb v) _ _ Hmem).
      rewrite !(forallb_dict_set _ (eval_eqb v)). cbn [eval].
      destruct (forallb (eval v) _), (forallb (fun k => negb (eval v k)) _),
        (eval v A), (eval v B); reflexivity.
  - (* Or *)
    rewrite <- app_assoc. eexists [_; _]. split; [reflexivity|].
    split; [simpl; lia|]. split.
    + constructor; [|constructor; [|constructor]];
        (split; [auto 8 with rules|]); unfold sequent_size; cbn [left right].
      * pose proof (dict_size_dict_set (dict_del (left old) (Or A B)) A (x + 1)).
        cbn [size] in Hdel. lia.
      * pose proof (dict_size_dict_set (dict_del (left old) (Or A B)) B (x + 1)).
        cbn [size] in Hdel. lia.
    + intros v. unfold falsifies. cbn [left right existsb].
      rewrite (forallb_dict_del _ (eval_eqb v) _ _ Hmem).
      rewrite !(forallb_dict_set _ (eval_eqb v)). cbn [eval].
      destruct (forallb (eval v) _), (forallb (fun k => negb (eval v k)) _),
        (eval v A), (eval v B); reflexivity.
  - (* Implies *)
    rewrite <- app_assoc. eexists [_; _]. split; [reflexivity|].
    split; [simpl; lia|]. split.
    + constructor; [|constructor; [|constructor]];
        (split; [auto 8 with rules|]); unfold sequent_size; cbn [left right].
      * pose proof (dict_size_dict_set (right old) A (x + 1)).
        cbn [size] in Hdel. lia.
      * pose proof (dict_size_dict_set
                      (dict_del (left old) (Implies A B)) B (x + 1)).
        cbn [size] in Hdel. lia.
    + intros v. unfold falsifies. cbn [left right existsb].
      rewrite (forallb_dict_del _ (eval_eqb v) _ _ Hmem).
      rewrite !(forallb_dict_set _ (eval_eqb v)).
      rewrite !(forallb_dict_set _ (refuted_eqb v)). cbn [eval].
      destruct (forallb (eval v) _), (forallb (fun k => negb (eval v k)) _),
        (eval v A), (eval v B); reflexivity.
Qed.

(** The right rules on a well-formed sequent. *)
Lemma apply_right_successors (H : string -> Z) (st : state) (old : Sequent)
  (f : Expr) :
  well_formed old = true ->
  In f (keys (right old)) -> is_Predicate f = false ->
  exists succs,
    apply_right H st old f
    = Ok (mkState (frontier st ++ succs)%list (proven st) (store st)) /\
    successors old succs.
Proof.
  intros Hwf Hin Hnp.
  destruct (well_formed_inv old Hwf) as (Hpl & Hpr & Hsib & Hul & Hur).
  assert (Hpf : propositional f = true)
    by (rewrite forallb_forall in Hpr; auto).
  assert (Hmem : dict_mem (right old) f = true) by now apply dict_mem_keys.
  assert (Hnf : is_Functor f = false) by auto with rules.
  destruct (lookup_returns _ _ Hnf Hmem) as (x & Hx).
  pose proof (dict_size_dict_del _ _ Hmem) as Hdel.
  destruct f as [| | | |A|A B|A B|A B| |]; try discriminate;
    cbn [propositional] in Hpf;
    try (apply andb_true_iff in Hpf as [HA HB]);
    cbn [apply_right]; rewrite (delete_returns _ _ Hnf Hmem); cbn [bind];
    rewrite ?Hx; cbn [bind]; rewrite ?assign_returns by auto with rules;
    cbn [bind]; rewrite ?Hx; cbn [bind];
    rewrite ?assign_returns by auto with rules; cbn [bind];
    rewrite Hsib; rewrite !push_None by reflexivity; cbn [frontier proven store].
  - (* Not *)
    eexists [_]. split; [reflexivity|]. split; [simpl; lia|]. split.
    + constructor; [|constructor]. split; [auto 6 with rules|].
      unfold sequent_size. cbn [left right].
      pose proof (dict_size_dict_set (left old) A (x + 1)).
      cbn [size] in Hdel. lia.
    + intros v. unfold falsifies. cbn [left right existsb].
      rewrite (forallb_dict_del _ (refuted_eqb v) _ _ Hmem).
      rewrite (forallb_dict_set _ (eval_eqb v)). cbn [eval].
      destruct (forallb (eval v) _), (forallb (fun k => negb (eval v k)) _),
        (eval v A); reflexivity.
  - (* And *)
    rewrite <- app_assoc. eexists [_; _]. split; [reflexivity|].
    split; [simpl; lia|]. split.
    + constructor; [|constructor; [|constructor]];
        (split; [auto 8 with rules|]); unfold sequent_size; cbn [left right].
      * pose proof (dict_size_dict_set (dict_del (right old) (And A B)) A (x + 1)).
        cbn [size] in Hdel. lia.
      * pose proof (dict_size_dict_set (dict_del (right old) (And A B)) B (x + 1)).
        cbn [size] in Hdel. lia.
    + intros v. unfold falsifies. cbn [left right existsb].
      rewrite (forallb_dict_del _ (refuted_eqb v) _ _ Hmem).
      rewrite !(forallb_dict_set _ (refuted_eqb v)). cbn [eval].
      destruct (forallb (eval v) _), (forallb (fun k => negb (eval v k)) _),
        (eval v A), (eval v B); reflexivity.
  - (* Or *)
    eexists [_]. split; [reflexivity|]. split; [simpl; lia|]. split.
    + constructor; [|constructor]. split; [auto 8 with rules|].
      unfold sequent_size. cbn [left right].
      pose proof (dict_size_dict_set (dict_del (right old) (Or A B)) A (x + 1)).
      pose proof (dict_size_dict_set
                    (dict_set (dict_del (right old) (Or A B)) A (x + 1))
                    B (x + 1)).
      cbn [size] in Hdel. lia.
    + intros v. unfold falsifies. cbn [left right existsb].
      rewrite (forallb_dict_del _ (refuted_eqb v) _ _ Hmem).
      rewrite !(forallb_dict_set _ (refuted_eqb v)). cbn [eval].
      destruct (forallb (eval v) _), (forallb (fun k => negb (eval v k)) _),
        (eval v A), (eval v B); reflexivity.
  - (* Implies *)
    eexists [_]. split; [reflexivity|]. split; [simpl; lia|]. split.
    + constructor; [|constructor]. split; [auto 8 with rules|].
      unfold sequent_size. cbn [left right].
      pose proof (dict_size_dict_set (left old) A (x + 1)).
      pose proof (dict_size_dict_set
                    (dict_del (right old) (Implies A B)) B (x + 1)).
      cbn [size] in Hdel. lia.
    + intros v. unfold falsifies. cbn [left right existsb].
      rewrite (forallb_dict_del _ (refuted_eqb v) _ _ Hmem).
      rewrite !(forallb_dict_set _ (eval_eqb v)).
      rewrite !(forallb_dict_set _ (refuted_eqb v)). cbn [eval].
      destruct (forallb (eval v) _), (forallb (fun k => negb (eval v k)) _),
        (eval v A), (eval v B); reflexivity.
Qed.

(** The inner loop of an iteration, on a well-formed sequent: the search
    gives up on a sequent of predicates, or pushes the successors. *)
Lemma expand_propositional (H : string -> Z) (st : state) (old : Sequent) :
  well_formed old = true ->
  (expand H st old = Ok (Return false) /\
   Forall (fun k => is_Predicate k = true) (keys (left old)) /\
   Forall (fun k => is_Predicate k = true) (keys (right old))) \/
  (exists succs,
     expand H st old
     = Ok (Continue (mkState (frontier st ++ succs)%list (proven st)
                       (store st))) /\
     successors old succs).
Proof.
  intros Hwf. unfold expand, choose.
  pose proof (scan_None_spec (left old)) as Hl.
  pose proof (scan_None_spec (right old)) as Hr.
  assert (Hkeys : forall (d : list (Expr * Z)) f x, In (f, x) d -> In f (keys d)).
  { intros d f x Hin. apply in_map_iff. exists (f, x). auto. }
  assert (Hleft : forall lf ld, In (lf, ld) (left old) ->
            is_Predicate lf = false ->
            exists succs,
              (st' <- apply_left H st old lf ;; Ok (Continue st'))
              = Ok (Continue (mkState (frontier st ++ succs)%list (proven st)
                                (store st))) /\
              successors old succs).
  { intros lf ld Hin Hp.
    destruct (apply_left_successors H st old lf Hwf (Hkeys _ _ _ Hin) Hp)
      as (succs & -> & Hs). cbn [bind]. eauto. }
  assert (Hright : forall rf rd, In (rf, rd) (right old) ->
            is_Predicate rf = false ->
            exists succs,
              (st' <- apply_right H st old rf ;; Ok (Continue st'))
              = Ok (Continue (mkState (frontier st ++ succs)%list (proven st)
                                (store st))) /\
              successors old succs).
  { intros rf rd Hin Hp.
    destruct (apply_right_successors H st old rf Hwf (Hkeys _ _ _ Hin) Hp)
      as (succs & -> & Hs). cbn [bind]. eauto. }
  destruct (scan (left old) None) as [[lf ld]|];
    destruct (scan (right old) None) as [[rf rd]|].
  - destruct Hl as (Hil & Hpl & _). destruct Hr as (Hir & Hpr & _).
    right. destruct (ld <? rd); eauto.
  - destruct Hl as (Hil & Hpl & _). right. eauto.
  - destruct Hr as (Hir & Hpr & _). right. eauto.
  - left. split; [reflexivity|]. unfold keys.
    split; apply Forall_map; assumption.
Qed.

Lemma step_propositional (H : string -> Z)
  (set_iter : list Sequent -> list Sequent) (fuel : nat) (st : state) :
  Forall (fun s => well_formed s = true) (frontier st) ->
  iteration H st (step H set_iter fuel st).
Proof.
  intros Hwf. unfold iteration, step, process, dequeue.
  destruct (frontier st) as [|s fr] eqn:Efr; [reflexivity|].
  destruct (dequeue_from H (proven st) s fr) as [old rest] eqn:Ed.
  destruct (dequeue_from_spec H _ _ _ _ _ Ed) as (skipped & Heq & Hskip & _).
  exists skipped, old, rest. split; [exact Heq|]. split; [exact Hskip|].
  assert (Hold : well_formed old = true).
  { rewrite Heq in Hwf. apply Forall_app in Hwf as [_ Hwf].
    now inversion Hwf. }
  cbn [frontier proven store]. fold (common_key old).
  destruct (common_key old); [left; auto|]. right.
  destruct (well_formed_inv old Hold) as (_ & _ & -> & _ & _).
  destruct (expand_propositional H (mkState rest (proven st) (store st)) old Hold)
    as [(-> & Hl & Hr)|(succs & -> & Hs)].
  - left. auto.
  - right. split; [reflexivity|]. exists succs. auto.
Qed.

(** *** Termination *)

Lemma weight_positive (n : nat) : (1 <= weight n)%nat.
Proof.
  unfold weight. rewrite Nat.pow_succ_r'.
  pose proof (Nat.pow_nonzero 2 n ltac:(lia)). lia.
Qed.

Lemma weight_mono (a n : nat) : (a < n)%nat -> (2 * weight a < weight n)%nat.
Proof.
  unfold weight. intros Ha.
  pose proof (Nat.pow_le_mono_r 2 (S a) n ltac:(lia) ltac:(lia)) as Hp.
  pose proof (Nat.pow_nonzero 2 (S a) ltac:(lia)) as Hq.
  rewrite (Nat.pow_succ_r' 2 n). lia.
Qed.

Lemma potential_app (l1 l2 : list Sequent) :
  potential (l1 ++ l2) = (potential l1 + potential l2)%nat.
Proof. unfold potential. now rewrite map_app, list_sum_app. Qed.

Lemma potential_successors (old : Sequent) (succs : list Sequent) :
  successors old succs ->
  (potential succs < weight (sequent_size old))%nat.
Proof.
  intros (Hlen & Hall & _). unfold potential.
  destruct succs as [|a [|b [|c succs]]]; simpl in Hlen; try lia.
  - inversion Hall as [|? ? [_ Ha] _]; subst. simpl.
    pose proof (weight_mono _ _ Ha). lia.
  - inversion Hall as [|? ? [_ Ha] Hall']; subst.
    inversion Hall' as [|? ? [_ Hb] _]; subst. simpl.
    pose proof (weight_mono _ _ Ha). pose proof (weight_mono _ _ Hb). lia.
Qed.

Lemma successors_well_formed (old : Sequent) (succs : list Sequent) :
  successors old succs -> Forall (fun s => well_formed s = true) succs.
Proof.
  intros (_ & Hall & _). eapply Forall_impl; [|exact Hall]. now intros s [].
Qed.

Section Runs.

Variable H : string -> Z.

Variable set_iter : list Sequent -> list Sequent.

Variable fuel : nat.

Lemma run_returns (n : nat) : forall st,
  Forall (fun s => well_formed s = true) (frontier st) ->
  (potential (frontier st) < n)%nat ->
  exists b, run H set_iter fuel n st = Ok b.
Proof.
  induction n as [|n IH]; intros st Hwf Hpot; [lia|].
  cbn [run]. pose proof (step_propositional H set_iter fuel st Hwf) as Hit.
  unfold iteration in Hit. destruct (frontier st) as [|s fr] eqn:Efr.
  - rewrite Hit. cbn [bind]. eauto.
  - destruct Hit as (skipped & old & rest & Heq & _ & Hcases).
    rewrite Heq in Hwf, Hpot. rewrite potential_app in Hpot.
    change (old :: rest) with ([old] ++ rest)%list in Hpot.
    rewrite potential_app in Hpot. unfold potential at 2 in Hpot.
    simpl in Hpot. pose proof (weight_positive (sequent_size old)).
    apply Forall_app in Hwf as [_ Hwf]. inversion Hwf as [|? ? Hold Hrest].
    subst.
    destruct Hcases as [(_ & ->)|[(_ & _ & _ & ->)|(_ & succs & Hs & ->)]];
      cbn [bind]; eauto.
    + apply IH; cbn [frontier]; [exact Hrest | lia].
    + apply IH; cbn [frontier].
      * apply Forall_app. split; [exact Hrest|].
        now apply (successors_well_formed old).
      * rewrite potential_app. pose proof (potential_successors _ _ Hs). lia.
Qed.

(** *** Refutation *)

(** The valuation that makes the atoms of the left side true. *)
Lemma predicates_falsified (old : Sequent) :
  Forall (fun k => is_Predicate k = true) (keys (left old)) ->
  Forall (fun k => is_Predicate k = true) (keys (right old)) ->
  common_key old = false ->
  falsifies (set_mem (keys (left old))) old = true.
Proof.
  intros Hl Hr Hc. unfold falsifies. apply andb_true_iff. split.
  - apply forallb_forall. intros k Hk. rewrite Forall_forall in Hl.
    specialize (Hl k Hk). destruct k; try discriminate.
    cbn [eval]. unfold set_mem. apply existsb_exists. exists (Predicate name terms).
    split; [exact Hk|]. rewrite eqb_sym. apply eqb_set_creation_time.
  - apply forallb_forall. intros r Hin. rewrite Forall_forall in Hr.
    specialize (Hr r Hin). destruct r; try discriminate.
    cbn [eval]. apply negb_true_iff.
    destruct (set_mem _ _) eqn:E; [|reflexivity]. exfalso.
    unfold set_mem in E. apply existsb_exists in E as (k & Hk & Ek).
    unfold common_key in Hc.
    rewrite existsb_false_Forall, Forall_forall in Hc.
    specialize (Hc k Hk). unfold dict_mem in Hc.
    rewrite existsb_false_Forall, Forall_forall in Hc.
    apply in_map_iff in Hin as (kv & Hkv & Hin). specialize (Hc kv Hin).
    cbn beta in Hc. rewrite Hkv in Hc.
    rewrite (eqb_sym _ k) in Hc.
    rewrite (eqb_congr_r k _ _ (eqb_set_creation_time (Predicate name terms) 0))
      in Ek. congruence.
Qed.

Lemma existsb_app_successors (v : Expr -> bool) (rest succs : list Sequent) :
  existsb (falsifies v) (rest ++ succs)
  = existsb (falsifies v) rest || existsb (falsifies v) succs.
Proof. apply existsb_app. Qed.

Variable goal : Sequent.

Lemma run_refutes (n : nat) : forall st,
  Forall (fun s => well_formed s = true) (frontier st) ->
  (forall v, existsb (falsifies v) (frontier st) = true ->
             falsifies v goal = true) ->
  run H set_iter fuel n st = Ok false ->
  exists v, falsifies v goal = true.
Proof.
  induction n as [|n IH]; intros st Hwf Hinv; [discriminate|].
  cbn [run]. pose proof (step_propositional H set_iter fuel st Hwf) as Hit.
  unfold iteration in Hit. destruct (frontier st) as [|s fr] eqn:Efr.
  - rewrite Hit. discriminate.
  - destruct Hit as (skipped & old & rest & Heq & _ & Hcases).
    rewrite Heq in Hwf, Hinv.
    apply Forall_app in Hwf as [_ Hwf]. inversion Hwf as [|? ? Hold Hrest].
    subst.
    assert (Hsplit : forall v,
              falsifies v old || existsb (falsifies v) rest = true ->
              falsifies v goal = true).
    { intros v Hv. apply Hinv. rewrite existsb_app. cbn [existsb].
      rewrite Hv. apply orb_true_r. }
    destruct Hcases as [(_ & ->)|[(Hc & Hl & Hr & ->)|(_ & succs & Hs & ->)]];
      cbn [bind].
    + apply IH; cbn [frontier]; [exact Hrest|].
      intros v Hv. apply Hsplit. rewrite Hv. apply orb_true_r.
    + intros _. exists (set_mem (keys (left old))). apply Hsplit.
      now rewrite predicates_falsified.
    + apply IH; cbn [frontier].
      * apply Forall_app. split; [exact Hrest|].
        now apply (successors_well_formed old).
      * intros v Hv. apply Hsplit. rewrite existsb_app in Hv.
        destruct Hs as (_ & _ & Hf). rewrite (Hf v).
        now rewrite orb_comm.
Qed.

End Runs.

(** *** Soundness *)

Lemma forallb_included (p : Expr -> bool) (x y : list (Expr * Z)) :
  (forall a b, eqb a b = true -> p a = p b) ->
  forallb (fun f => dict_mem y f) (keys x) = true ->
  forallb p (keys y) = true -> forallb p (keys x) = true.
Proof.
  intros Hp Hinc Hy. rewrite forallb_forall in *. intros k Hk.
  specialize (Hinc k Hk). unfold dict_mem in Hinc.
  apply existsb_exists in Hinc as (kv & Hin & E).
  rewrite <- (Hp _ _ E). apply Hy. apply in_map_iff. eauto.
Qed.

Lemma falsifies_eqb (v : Expr -> bool) (a b : Sequent) :
  sequent_eqb a b = true -> falsifies v a = falsifies v b.
Proof.
  unfold sequent_eqb, falsifies. rewrite !andb_true_iff.
  intros [[[H1 H2] H3] H4].
  pose proof (forallb_included (eval v) _ _ (eval_eqb v) H1).
  pose proof (forallb_included (eval v) _ _ (eval_eqb v) H2).
  pose proof (forallb_included _ _ _ (refuted_eqb v) H3).
  pose proof (forallb_included _ _ _ (refuted_eqb v) H4).
  destruct (forallb (eval v) (keys (left a))),
    (forallb (eval v) (keys (left b))),
    (forallb (fun k => negb (eval v k)) (keys (right a))),
    (forallb (fun k => negb (eval v k)) (keys (right b))); auto;
    intuition congruence.
Qed.

Lemma sequent_size_eqb (a b : Sequent) :
  well_formed a = true -> well_formed b = true ->
  sequent_eqb a b = true -> sequent_size a = sequent_size b.
Proof.
  intros Ha Hb. unfold sequent_eqb. rewrite !andb_true_iff.
  intros [[[H1 H2] H3] H4].
  destruct (well_formed_inv a Ha) as (_ & _ & _ & Hal & Har).
  destruct (well_formed_inv b Hb) as (_ & _ & _ & Hbl & Hbr).
  unfold sequent_size. f_equal; apply dict_size_same_keys; auto;
    apply same_keys_iff; auto.
Qed.

Lemma common_key_valid (v : Expr -> bool) (s : Sequent) :
  common_key s = true -> falsifies v s = false.
Proof.
  unfold common_key, falsifies. intros Hc.
  apply existsb_exists in Hc as (k & Hk & Hm). unfold dict_mem in Hm.
  apply existsb_exists in Hm as (kv & Hin & E).
  destruct (forallb (eval v) (keys (left s))) eqn:El; [|reflexivity].
  cbn [andb]. apply not_true_is_false. intros Hr.
  rewrite forallb_forall in El, Hr.
  specialize (El k Hk). specialize (Hr (fst kv)).
  rewrite (eval_eqb v _ _ E), El in Hr. 
  assert (In (fst kv) (keys (right s))) by (apply in_map_iff; eauto).
  specialize (Hr ltac:(assumption)). discriminate.
Qed.

Lemma in_set_member (H : string -> Z) (S : list Sequent) (s : Sequent) :
  in_set H S s = true -> exists p, In p S /\ sequent_eqb p s = true.
Proof.
  unfold in_set. intros Hin. apply existsb_exists in Hin as (p & Hp & E).
  apply andb_true_iff in E as [_ E]. eauto.
Qed.

Lemma add_member (H : string -> Z) (S : list Sequent) (x p : Sequent) :
  In p (add H S x) -> In p S \/ p = x.
Proof.
  unfold add. destruct (in_set H S x); [auto|].
  intros Hin. apply in_app_or in Hin as [Hin|[<-|[]]]; auto.
Qed.

Section Soundness.

Variable H : string -> Z.

Variable set_iter : list Sequent -> list Sequent.

Variable fuel : nat.

Variable goal : Sequent.

Hypothesis goal_well_formed : well_formed goal = true.

Lemma skipped_valid (st : state) (skipped : list Sequent) (old : Sequent)
  (rest : list Sequent) :
  sound_state goal st ->
  frontier st = (skipped ++ old :: rest)%list ->
  Forall (fun s => in_set H (proven st) s = true) skipped ->
  forall v, existsb (falsifies v) skipped = false.
Proof.
  intros (Hwf & Hsize & Hproven & _) Heq Hskip v.
  apply existsb_false_Forall. rewrite Forall_forall in Hskip, Hproven |- *.
  intros s Hs. specialize (Hskip s Hs).
  destruct Hsize as [Hg|Hsize].
  { rewrite Hg in Heq. destruct skipped as [|s' [|s'' skipped]];
      [destruct Hs | |]; discriminate. }
  assert (Hin : In s (frontier st)) by (rewrite Heq; apply in_or_app; auto).
  apply in_set_member in Hskip as (p & Hp & E).
  rewrite <- (falsifies_eqb v p s E).
  destruct (Hproven p Hp) as [->|Hv]; [|apply Hv]. exfalso.
  rewrite Forall_forall in Hsize, Hwf.
  specialize (Hsize s Hin). specialize (Hwf s Hin).
  rewrite (sequent_size_eqb goal s goal_well_formed Hwf E) in Hsize. lia.
Qed.

Lemma run_sound (n : nat) : forall st,
  sound_state goal st ->
  run H set_iter fuel n st = Ok true ->
  forall v, falsifies v goal = false.
Proof.
  induction n as [|n IH]; intros st Hst; [discriminate|].
  cbn [run]. pose proof Hst as (Hwf & Hsize & Hproven & Hinv).
  pose proof (step_propositional H set_iter fuel st Hwf) as Hit.
  unfold iteration in Hit. destruct (frontier st) as [|s fr] eqn:Efr.
  - intros _ v. specialize (Hinv v).
    destruct (falsifies v goal); [|reflexivity].
    specialize (Hinv eq_refl). discriminate.
  - destruct Hit as (skipped & old & rest & Heq & Hskip & Hcases).
    assert (Hsk : forall v, existsb (falsifies v) skipped = false).
    { apply (skipped_valid st skipped old rest Hst); [|exact Hskip].
      now rewrite Efr. }
    rewrite Heq in *. clear Efr.
    assert (Hinv' : forall v, falsifies v goal = true ->
              falsifies v old || existsb (falsifies v) rest = true).
    { intros v Hv. specialize (Hinv v Hv).
      rewrite existsb_app, Hsk in Hinv. exact Hinv. }
    apply Forall_app in Hwf as [_ Hwf]. inversion Hwf as [|? ? Hold Hrest].
    subst.
    assert (Hsmall : Forall (fun s => (sequent_size s < sequent_size goal)%nat)
                       rest /\ (sequent_size old <= sequent_size goal)%nat).
    { destruct Hsize as [Hg|Hsize].
      - destruct skipped as [|s' [|s'' skipped]]; try discriminate.
        injection Hg as -> ->. split; [constructor | lia].
      - apply Forall_app in Hsize as [_ Hsize].
        inversion Hsize; subst. split; [assumption | lia]. }
    destruct Hsmall as [Hrs Hos].
    destruct Hcases as [(Hc & ->)|[(_ & _ & _ & ->)|(_ & succs & Hs & ->)]];
      cbn [bind]; try discriminate.
    + apply IH. repeat split; cbn [frontier proven]; auto.
      * rewrite Forall_forall in *. intros p Hp.
        apply add_member in Hp as [Hp| ->]; [auto|].
        right. intros v. now apply common_key_valid.
      * intros v Hv. specialize (Hinv' v Hv).
        now rewrite (common_key_valid v old Hc) in Hinv'.
    + apply IH. repeat split; cbn [frontier proven]; auto.
      * apply Forall_app. split; [exact Hrest|].
        now apply (successors_well_formed old).
      * right. apply Forall_app. split; [exact Hrs|].
        destruct Hs as (_ & Hall & _). eapply Forall_impl; [|exact Hall].
        intros x [_ Hx]. lia.
      * intros v Hv. specialize (Hinv' v Hv). rewrite existsb_app.
        destruct Hs as (_ & _ & Hf). rewrite <- (Hf v).
        now rewrite orb_comm.
Qed.

End Soundness.

(** *** The entry point *)

Lemma axioms_assigned (axioms : list Expr) : forall d0,
  forallb (fun a => negb (is_Functor a)) axioms = true ->
  fold_left (fun acc axiom => d <- acc ;; assign d axiom 0) axioms (Ok d0)
  = Ok (fold_left (fun d axiom => dict_set d axiom 0) axioms d0).
Proof.
  induction axioms as [|a axioms IH]; intros d0 Hh; [reflexivity|].
  cbn [forallb] in Hh. apply andb_true_iff in Hh as [Ha Hh].
  apply negb_true_iff in Ha. cbn [fold_left bind].
  rewrite (assign_returns d0 a 0 Ha). now apply IH.
Qed.

Lemma prove_formula_run (H : string -> Z)
  (set_iter : list Sequent -> list Sequent) (fuel n : nat)
  (axioms : list Expr) (formula : Expr) :
  forallb (fun a => negb (is_Functor a)) (formula :: axioms) = true ->
  prove_formula H set_iter fuel n axioms formula
  = run H set_iter fuel n (initial_state (goal_sequent axioms formula)).
Proof.
  cbn [forallb]. intros Hh. apply andb_true_iff in Hh as [Hf Hh].
  apply negb_true_iff in Hf. unfold prove_formula.
  rewrite (axioms_assigned axioms [] Hh). cbn [bind].
  rewrite (assign_returns [] formula 0 Hf). reflexivity.
Qed.

Lemma propositional_hashable (l : list Expr) :
  forallb propositional l = true ->
  forallb (fun a => negb (is_Functor a)) l = true.
Proof.
  rewrite !forallb_forall. intros Hl a Ha.
  now rewrite (propositional_not_Functor a (Hl a Ha)).
Qed.

Section DictOf.

Variable p : Expr -> bool.

Hypothesis p_eqb : forall a b, eqb a b = true -> p a = p b.

Lemma forallb_dict_of (axioms : list Expr) : forall d0,
  forallb p (keys (fold_left (fun d axiom => dict_set d axiom 0) axioms d0))
  = forallb p (keys d0) && forallb p axioms.
Proof.
  induction axioms as [|a axioms IH]; intros d0; cbn [fold_left forallb].
  - now rewrite andb_true_r.
  - rewrite IH, (forallb_dict_set p p_eqb). now rewrite andb_assoc.
Qed.

Lemma forallb_reset_times (d : list (Expr * Z)) :
  forallb p (keys (reset_times d)) = forallb p (keys d).
Proof.
  change (reset_times d) with (retime 0 d). apply forallb_keys_retime.
  intros k. apply p_eqb, eqb_set_creation_time.
Qed.

End DictOf.

Lemma unique_keys_reset_times (d : list (Expr * Z)) :
  unique_keys (reset_times d) = unique_keys d.
Proof.
  induction d as [|[k x] d IH]; [reflexivity|].
  cbn [reset_times map unique_keys fst snd].
  change (map (fun kv => (set_creation_time (fst kv) 0, snd kv)) d)
    with (retime 0 d).
  rewrite dict_mem_set_creation_time, dict_mem_retime.
  f_equal. exact IH.
Qed.

Lemma dict_size_reset_times (d : list (Expr * Z)) :
  dict_size (reset_times d) = dict_size d.
Proof.
  unfold dict_size, keys, reset_times. rewrite !map_map. cbn [fst].
  f_equal. apply map_ext. intros kv. apply size_set_creation_time.
Qed.

Lemma unique_keys_dict_of (axioms : list Expr) : forall d0,
  unique_keys d0 = true ->
  unique_keys (fold_left (fun d axiom => dict_set d axiom 0) axioms d0) = true.
Proof.
  induction axioms as [|a axioms IH]; intros d0 Hd; [exact Hd|].
  cbn [fold_left]. apply IH. now apply unique_keys_dict_set.
Qed.

Lemma dict_size_dict_of (axioms : list Expr) : forall d0,
  (dict_size (fold_left (fun d axiom => dict_set d axiom 0%Z) axioms d0)
   <= dict_size d0 + list_sum (map size axioms))%nat.
Proof.
  induction axioms as [|a axioms IH]; intros d0; simpl; [lia|].
  specialize (IH (dict_set d0 a 0)).
  pose proof (dict_size_dict_set d0 a 0). lia.
Qed.

Lemma goal_well_formed (axioms : list Expr) (formula : Expr) :
  forallb propositional (formula :: axioms) = true ->
  well_formed (goal_sequent axioms formula) = true.
Proof.
  cbn [forallb]. intros Hp. apply andb_true_iff in Hp as [Hf Ha].
  unfold goal_sequent. apply well_formed_intro.
  - rewrite (forallb_reset_times _ propositional_eqb). unfold dict_of.
    now rewrite (forallb_dict_of _ propositional_eqb).
  - rewrite (forallb_reset_times _ propositional_eqb). cbn [keys map fst forallb].
    now rewrite Hf.
  - rewrite unique_keys_reset_times. now apply unique_keys_dict_of.
  - reflexivity.
Qed.

Lemma goal_falsified (v : Expr -> bool) (axioms : list Expr) (formula : Expr) :
  falsifies v (goal_sequent axioms formula)
  = forallb (eval v) axioms && negb (eval v formula).
Proof.
  unfold falsifies, goal_sequent. cbn [left right].
  rewrite (forallb_reset_times _ (eval_eqb v)).
  rewrite (forallb_reset_times _ (refuted_eqb v)). unfold dict_of.
  rewrite (forallb_dict_of _ (eval_eqb v)). cbn [keys map fst forallb].
  now rewrite andb_true_r.
Qed.

Lemma goal_size (axioms : list Expr) (formula : Expr) :
  (sequent_size (goal_sequent axioms formula)
   <= list_sum (map size axioms) + size formula)%nat.
Proof.
  unfold sequent_size, goal_sequent. cbn [left right].
  rewrite !dict_size_reset_times. unfold dict_of.
  pose proof (dict_size_dict_of axioms []) as Hd.
  change (dict_size [(formula, 0)]) with (size formula + 0)%nat.
  change (dict_size []) with 0%nat in Hd. lia.
Qed.

(** X15: on propositional input (predicates under [Not], [And], [Or]
    and [Implies]) [prove_formula] returns [True] or [False], raising
    nothing, within [2 ^ (n + 1)] iterations of its main loop, where [n]
    is the number of nodes of the axioms and the formula. *)
Theorem prove_formula_returns_on_propositional_input
  (H : string -> Z) (set_iter : list Sequent -> list Sequent)
  (fuel iterations : nat) (axioms : list Expr) (formula : Expr) :
  forallb propositional (formula :: axioms) = true ->
  (2 ^ S (list_sum (map size axioms) + size formula) <= iterations)%nat ->
  exists b, prove_formula H set_iter fuel iterations axioms formula = Ok b.
Proof.
  intros Hp Hn.
  rewrite prove_formula_run by now apply propositional_hashable.
  apply run_returns.
  - constructor; [now apply goal_well_formed | constructor].
  - change (potential (frontier (initial_state (goal_sequent axioms formula))))
      with (weight (sequent_size (goal_sequent axioms formula)) + 0)%nat.
    unfold weight. pose proof (goal_size axioms formula) as Hs.
    pose proof (Nat.pow_le_mono_r 2 (S (sequent_size (goal_sequent axioms formula)))
                  (S (list_sum (map size axioms) + size formula))
                  ltac:(lia) ltac:(lia)) as Hpow.
    pose proof (Nat.pow_nonzero 2
                  (S (sequent_size (goal_sequent axioms formula))) ltac:(lia)).
    lia.
Qed.

Lemma prove_formula_returns_on_propositional_input_witness :
  exists b,
    prove_formula length_hash (fun S => S) 0 64 []
      (Implies (Predicate "P" []) (Predicate "P" [])) = Ok b.
Proof.
  apply prove_formula_returns_on_propositional_input;
    [reflexivity | vm_compute; lia].
Defined.

(** X16: on propositional input, if [prove_formula] returns [True]
    then the formula is a consequence of the axioms: every valuation of
    the atoms that makes the axioms true makes the formula true. *)
Theorem prove_formula_sound
  (H : string -> Z) (set_iter : list Sequent -> list Sequent)
  (fuel iterations : nat) (axioms : list Expr) (formula : Expr) :
  forallb propositional (formula :: axioms) = true ->
  prove_formula H set_iter fuel iterations axioms formula = Ok true ->
  forall v, forallb (eval v) axioms = true -> eval v formula = true.
Proof.
  intros Hp Hrun v Hv.
  rewrite prove_formula_run in Hrun by now apply propositional_hashable.
  pose proof (goal_well_formed axioms formula Hp) as Hwf.
  assert (Hst : sound_state (goal_sequent axioms formula)
                  (initial_state (goal_sequent axioms formula))).
  { unfold sound_state. cbn [initial_state frontier proven].
    repeat split; auto.
    - intros v' Hv'. cbn [existsb]. now rewrite Hv'. }
  pose proof (run_sound H set_iter fuel _ Hwf iterations _ Hst Hrun v) as Hf.
  rewrite goal_falsified, Hv in Hf. cbn [andb] in Hf.
  now apply negb_false_iff in Hf.
Qed.

Lemma prove_formula_sound_witness :
  eval (fun _ => true) (Predicate "Q" []) = true.
Proof.
  apply (prove_formula_sound length_hash (fun S => S) 0 10
           [Predicate "P" []; Implies (Predicate "P" []) (Predicate "Q" [])]
           (Predicate "Q" []));
    [reflexivity | vm_compute; reflexivity | reflexivity].
Defined.

(** X17: on propositional input, if [prove_formula] returns [False]
    then the formula is no consequence of the axioms: some valuation of
    the atoms makes the axioms true and the formula false. *)
Theorem prove_formula_refutes
  (H : string -> Z) (set_iter : list Sequent -> list Sequent)
  (fuel iterations : nat) (axioms : list Expr) (formula : Expr) :
  forallb propositional (formula :: axioms) = true ->
  prove_formula H set_iter fuel iterations axioms formula = Ok false ->
  exists v, forallb (eval v) axioms = true /\ eval v formula = false.
Proof.
  intros Hp Hrun.
  rewrite prove_formula_run in Hrun by now apply propositional_hashable.
  pose proof (goal_well_formed axioms formula Hp) as Hwf.
  destruct (run_refutes H set_iter fuel (goal_sequent axioms formula)
              iterations (initial_state (goal_sequent axioms formula)))
    as (v & Hv); auto.
  - cbn [initial_state frontier]. now constructor.
  - cbn [initial_state frontier existsb]. intros v Hv.
    now rewrite orb_false_r in Hv.
  - exists v. rewrite goal_falsified in Hv.
    apply andb_true_iff in Hv as [Ha Hf]. split; [exact Ha|].
    now apply negb_true_iff in Hf.
Qed.

Lemma prove_formula_refutes_witness :
  exists v, forallb (eval v) [Or (Predicate "P" []) (Predicate "Q" [])] = true /\
            eval v (Predicate "P" []) = false.
Proof.
  apply (prove_formula_refutes length_hash (fun S => S) 0 10);
    [reflexivity | vm_compute; reflexivity].
Defined.

(** X18: on propositional input and with enough iterations,
    [prove_formula] decides consequence: it returns [True] when every
    valuation that makes the axioms true makes the formula true, and
    [False] when some valuation makes the axioms true and the formula
    false. *)
Theorem prove_formula_decides_consequence
  (H : string -> Z) (set_iter : list Sequent -> list Sequent)
  (fuel iterations : nat) (axioms : list Expr) (formula : Expr) :
  forallb propositional (formula :: axioms) = true ->
  (2 ^ S (list_sum (map size axioms) + size formula) <= iterations)%nat ->
  (prove_formula H set_iter fuel iterations axioms formula = Ok true /\
   forall v, forallb (eval v) axioms = true -> eval v formula = true) \/
  (prove_formula H set_iter fuel iterations axioms formula = Ok false /\
   exists v, forallb (eval v) axioms = true /\ eval v formula = false).
Proof.
  intros Hp Hn.
  rewrite prove_formula_run by now apply propositional_hashable.
  pose proof (goal_well_formed axioms formula Hp) as Hwf.
  set (goal := goal_sequent axioms formula) in *.
  assert (Hfr : Forall (fun s => well_formed s = true)
                  (frontier (initial_state goal)))
    by (constructor; [exact Hwf | constructor]).
  destruct (run_returns H set_iter fuel iterations (initial_state goal) Hfr)
    as ([|] & Hrun).
  - change (potential (frontier (initial_state goal)))
      with (weight (sequent_size goal) + 0)%nat.
    unfold weight. pose proof (goal_size axioms formula) as Hs. fold goal in Hs.
    pose proof (Nat.pow_le_mono_r 2 (S (sequent_size goal))
                  (S (list_sum (map size axioms) + size formula))
                  ltac:(lia) ltac:(lia)) as Hpow.
    pose proof (Nat.pow_nonzero 2 (S (sequent_size goal)) ltac:(lia)).
    lia.
  - left. split; [exact Hrun|]. intros v Hv.
    assert (Hst : sound_state goal (initial_state goal)).
    { unfold sound_state. cbn [initial_state frontier proven].
      repeat split; auto. intros v' Hv'. cbn [existsb]. now rewrite Hv'. }
    pose proof (run_sound H set_iter fuel goal Hwf iterations _ Hst Hrun v)
      as Hf.
    unfold goal in Hf. rewrite goal_falsified, Hv in Hf. cbn [andb] in Hf.
    now apply negb_false_iff in Hf.
  - right. split; [exact Hrun|].
    destruct (run_refutes H set_iter fuel goal iterations (initial_state goal))
      as (v & Hv); auto.
    + cbn [initial_state frontier existsb]. intros v Hv.
      now rewrite orb_false_r in Hv.
    + exists v. unfold goal in Hv. rewrite goal_falsified in Hv.
      apply andb_true_iff in Hv as [Ha Hf]. split; [exact Ha|].
      now apply negb_true_iff in Hf.
Qed.

Lemma prove_formula_decides_consequence_witness :
  let axioms := [Implies (Predicate "P" []) (Predicate "Q" [])] in
  let formula := Implies (Not (Predicate "Q" [])) (Not (Predicate "P" [])) in
  (prove_formula length_hash (fun S => S) 0 1024 axioms formula = Ok true /\
   forall v, forallb (eval v) axioms = true -> eval v formula = true) \/
  (prove_formula length_hash (fun S => S) 0 1024 axioms formula = Ok false /\
   exists v, forallb (eval v) axioms = true /\ eval v formula = false).
Proof.
  apply prove_formula_decides_consequence; [reflexivity | vm_compute; lia].
Defined.

(** ** The choices of pairs, the creation times and the axioms *)


Lemma rank_inj (index : list nat) : forall index' lens,
  Forall2 lt index lens -> Forall2 lt index' lens ->
  rank index lens = rank index' lens -> index = index'.
Proof.
  induction index as [|i index IH]; intros index' lens Hv Hv' Hr;
    inversion Hv; subst; inversion Hv'; subst; [reflexivity|].
  cbn [rank] in Hr.
  pose proof (rank_bound _ _ H3) as Hb. pose proof (rank_bound _ _ H5) as Hb'.
  assert (i = x) by nia. subst x.
  f_equal. apply (IH _ l'); auto. nia.
Qed.

Lemma zeros_in_bounds (lists : list (list (Expr * Expr))) :
  forallb (fun pair_list => Nat.ltb 0 (length pair_list)) lists = true ->
  Forall2 lt (map (fun _ => 0%nat) lists) (map (@length _) lists).
Proof.
  intros Hne. rewrite forallb_forall in Hne.
  induction lists as [|l lists IH]; simpl; constructor.
  - apply Nat.ltb_lt, Hne. now left.
  - apply IH. intros x Hx. apply Hne. now right.
Qed.

Lemma rank_zeros (lists : list (list (Expr * Expr))) :
  rank (map (fun _ => 0%nat) lists) (map (@length _) lists) = 0%nat.
Proof. induction lists as [|l lists IH]; simpl; [reflexivity | lia]. Qed.

Lemma search_Some (fuel : nat) (lists : list (list (Expr * Expr)))
  (rounds : nat) : forall index s,
  Forall2 lt index (map (@length _) lists) ->
  search fuel rounds lists index = Ok (Some s) ->
  exists index' sel,
    Forall2 lt index' (map (@length _) lists) /\
    selection lists index' = Ok sel /\ unify_list fuel sel = Ok (Some s).
Proof.
  induction rounds as [|rounds IH]; intros index s Hv; [discriminate|].
  cbn [search]. destruct (selection lists index) as [sel| |] eqn:Es;
    cbn [bind]; try discriminate.
  destruct (unify_list fuel sel) as [[s'|]| |] eqn:Eu; cbn [bind];
    try discriminate.
  - intros [= <-]. eauto.
  - pose proof (increment_spec index _ Hv) as Hi.
    destruct (increment index (map (@length _) lists)) as [carry index'].
    destruct carry; [discriminate|]. destruct Hi as (_ & Hv'). eauto.
Qed.

Lemma search_None (fuel : nat) (lists : list (list (Expr * Expr)))
  (rounds : nat) : forall index,
  Forall2 lt index (map (@length _) lists) ->
  search fuel rounds lists index = Ok None ->
  forall index',
    Forall2 lt index' (map (@length _) lists) ->
    (rank index (map (@length _) lists)
     <= rank index' (map (@length _) lists))%nat ->
    exists sel, selection lists index' = Ok sel /\
                unify_list fuel sel = Ok None.
Proof.
  induction rounds as [|rounds IH]; intros index Hv; [discriminate|].
  cbn [search]. destruct (selection lists index) as [sel| |] eqn:Es;
    cbn [bind]; try discriminate.
  destruct (unify_list fuel sel) as [[s'|]| |] eqn:Eu; cbn [bind];
    try discriminate.
  pose proof (increment_spec index _ Hv) as Hi.
  destruct (increment index (map (@length _) lists)) as [carry next].
  intros Hs index' Hv' Hr.
  assert (Hsame : rank index' (map (@length _) lists)
                  = rank index (map (@length _) lists) ->
                  exists sel, selection lists index' = Ok sel /\
                              unify_list fuel sel = Ok None).
  { intros E. rewrite (rank_inj index' index _ Hv' Hv E). eauto. }
  destruct carry.
  - destruct Hi as (Hlast & _). pose proof (rank_bound _ _ Hv'). apply Hsame.
    lia.
  - destruct Hi as (Hnext & Hvn).
    destruct (Nat.eq_dec (rank index' (map (@length _) lists))
                (rank index (map (@length _) lists))) as [E|Hne];
      [now apply Hsame|].
    apply (IH next Hvn Hs index' Hv'). lia.
Qed.

(** X19: the loop over the simultaneous choices tries every choice
    of one pair from each sibling: a substitution that it returns unifies a
    choice, and when it gives up [unify_list] has failed on every
    choice. *)
Theorem search_tries_every_selection
  (fuel : nat) (lists : list (list (Expr * Expr))) :
  forallb (fun pair_list => Nat.ltb 0 (length pair_list)) lists = true ->
  (forall s,
     search fuel (S (selections lists)) lists (map (fun _ => 0%nat) lists)
     = Ok (Some s) ->
     exists index sel,
       Forall2 lt index (map (@length _) lists) /\
       selection lists index = Ok sel /\ unify_list fuel sel = Ok (Some s)) /\
  (search fuel (S (selections lists)) lists (map (fun _ => 0%nat) lists)
   = Ok None ->
   forall index,
     Forall2 lt index (map (@length _) lists) ->
     exists sel, selection lists index = Ok sel /\
                 unify_list fuel sel = Ok None).
Proof.
  intros Hne. pose proof (zeros_in_bounds lists Hne) as Hz. split.
  - intros s. now apply search_Some.
  - intros Hs index Hv. apply (search_None _ _ _ _ Hz Hs index Hv).
    rewrite rank_zeros. lia.
Qed.

Lemma search_tries_every_selection_witness :
  let lists := [[(Term "t" 0, Var "x" 0); (Term "t" 0, Var "y" 0)];
                [(Term "t" 0, Var "y" 0)]] in
  (forall s,
     search 2 (S (selections lists)) lists (map (fun _ => 0%nat) lists)
     = Ok (Some s) ->
     exists index sel,
       Forall2 lt index (map (@length _) lists) /\
       selection lists index = Ok sel /\ unify_list 2 sel = Ok (Some s)) /\
  (search 2 (S (selections lists)) lists (map (fun _ => 0%nat) lists)
   = Ok None ->
   forall index,
     Forall2 lt index (map (@length _) lists) ->
     exists sel, selection lists index = Ok sel /\
                 unify_list 2 sel = Ok None).
Proof. apply search_tries_every_selection. reflexivity. Defined.

(** X20: [prove_sequent] sets the creation times of the formulas of
    its argument to [0] before anything else: its result does not depend
    on the times that the formulas come with. *)
Theorem prove_sequent_resets_creation_times
  (H : string -> Z) (set_iter : list Sequent -> list Sequent)
  (fuel iterations : nat) (t : Z) (sequent : Sequent) :
  prove_sequent H set_iter fuel iterations (retime_sequent t sequent)
  = prove_sequent H set_iter fuel iterations sequent.
Proof.
  assert (Hr : forall d, reset_times (retime t d) = reset_times d).
  { intros d. unfold reset_times, retime. rewrite map_map.
    apply map_ext. intros [k x]. cbn [fst snd].
    now rewrite set_creation_time_twice. }
  unfold prove_sequent, retime_sequent. cbn [left right siblings depth].
  now rewrite !Hr.
Qed.

Lemma dict_mem_dict_of (axioms : list Expr) (k : Expr) : forall d0,
  dict_mem (fold_left (fun d axiom => dict_set d axiom 0) axioms d0) k
  = dict_mem d0 k || set_mem axioms k.
Proof.
  induction axioms as [|a axioms IH]; intros d0; cbn [fold_left].
  - unfold set_mem. simpl. now rewrite orb_false_r.
  - rewrite IH, dict_mem_dict_set. unfold set_mem. cbn [existsb].
    now rewrite orb_assoc.
Qed.

Lemma goal_common_key (axioms : list Expr) (formula : Expr) :
  set_mem axioms formula = true ->
  common_key (goal_sequent axioms formula) = true.
Proof.
  intros Hm. unfold common_key, goal_sequent. cbn [left right].
  assert (Hd : dict_mem (dict_of axioms) formula = true).
  { unfold dict_of. now rewrite dict_mem_dict_of, Hm. }
  unfold dict_mem in Hd. apply existsb_exists in Hd as ([k x] & Hin & E).
  cbn [fst] in E. apply existsb_exists.
  exists (set_creation_time k 0). split.
  - change (reset_times (dict_of axioms)) with (retime 0 (dict_of axioms)).
    rewrite keys_retime. apply (in_map (fun k => set_creation_time k 0)).
    apply in_map_iff. exists (k, x). auto.
  - unfold dict_mem. cbn [reset_times map existsb fst snd].
    rewrite orb_false_r.
    rewrite (eqb_congr_l _ formula _ (eqb_set_creation_time formula 0)).
    rewrite (eqb_congr_r formula _ k (eqb_set_creation_time k 0)).
    now rewrite eqb_sym.
Qed.

(** X21: [prove_formula] returns [True] in its second iteration,
    without expanding any formula, when the formula is equal to one of the
    axioms (no axiom being a bare [Functor], which is unhashable). *)
Theorem an_axiom_is_proved_without_expansion
  (H : string -> Z) (set_iter : list Sequent -> list Sequent)
  (fuel iterations : nat) (axioms : list Expr) (formula : Expr) :
  forallb (fun a => negb (is_Functor a)) (formula :: axioms) = true ->
  set_mem axioms formula = true ->
  prove_formula H set_iter fuel (S (S iterations)) axioms formula = Ok true.
Proof.
  intros Hh Hm. rewrite prove_formula_run by exact Hh.
  pose proof (goal_common_key axioms formula Hm) as Hc.
  unfold common_key in Hc.
  cbn [run initial_state step dequeue dequeue_from frontier proven store].
  unfold process. cbn [frontier proven store].
  rewrite Hc. cbn [bind]. reflexivity.
Qed.

Lemma an_axiom_is_proved_without_expansion_witness :
  prove_formula length_hash (fun S => S) 0 2
    [ForAll (Var "x" 0) (Predicate "P" [Var "x" 0]); Predicate "Q" []]
    (ForAll (Var "x" 3) (Predicate "P" [Var "x" 5])) = Ok true.
Proof.
  apply an_axiom_is_proved_without_expansion; reflexivity.
Defined.

(** ** The unification pairs and the rules that take a variable *)

Lemma unification_pairs_fold (fuel : nat) (l : list (Expr * Expr)) :
  forall acc pairs,
    fold_left (fun acc p =>
                 pairs <- acc ;;
                 r <- unify fuel (fst p) (snd p) ;;
                 match r with
                 | Some _ => Ok (pairs ++ [p])%list
                 | None => Ok pairs
                 end) l (Ok acc) = Ok pairs ->
    pairs = (acc ++ filter (unifiable fuel) l)%list.
Proof.
  assert (Herr : forall (l' : list (Expr * Expr)) r,
            (forall a, r <> Ok a) ->
            forall a,
            fold_left (fun acc p =>
                 pairs <- acc ;;
                 r <- unify fuel (fst p) (snd p) ;;
                 match r with
                 | Some _ => Ok (pairs ++ [p])%list
                 | None => Ok pairs
                 end) l' r <> Ok a).
  { induction l' as [|p l' IH]; intros r Hr a; cbn [fold_left]; [apply Hr|].
    apply IH. intros a'. destruct r; cbn [bind]; try discriminate.
    now specialize (Hr a0). }
  induction l as [|p l IH]; intros acc pairs; cbn [fold_left filter].
  - intros [= <-]. now rewrite app_nil_r.
  - cbn [bind]. unfold unifiable at 1.
    destruct (unify fuel (fst p) (snd p)) as [[s|]| |] eqn:Eu; cbn [bind].
    + intros Hf. rewrite (IH _ _ Hf). now rewrite <- app_assoc.
    + apply IH.
    + intros Hf. exfalso. revert Hf. apply Herr. discriminate.
    + intros Hf. exfalso. revert Hf. apply Herr. discriminate.
Qed.

Lemma unifiable_formulas (fuel : nat) (p : Expr * Expr) :
  is_formula (fst p) = true -> is_formula (snd p) = true ->
  unifiable fuel p = true ->
  is_Predicate (fst p) = true /\ is_Predicate (snd p) = true.
Proof.
  destruct p as [a b]. unfold unifiable. cbn [fst snd].
  destruct fuel as [|fuel]; [discriminate|].
  destruct a; try discriminate; destruct b; try discriminate; auto.
Qed.

(** X22: [get_unification_pairs] returns, in the order of the two
    nested loops, the pairs of a left and a right formula on which [unify]
    does not fail; on a sequent of formulas these are pairs of
    [Predicate]s. *)
Theorem get_unification_pairs_characterised
  (fuel : nat) (s : Sequent) (pairs : list (Expr * Expr)) :
  get_unification_pairs fuel s = Ok pairs ->
  pairs = filter (unifiable fuel) (list_prod (keys (left s)) (keys (right s)))
  /\
  (forallb is_formula (sequent_keys s) = true ->
   Forall (fun p => is_Predicate (fst p) = true /\
                    is_Predicate (snd p) = true) pairs).
Proof.
  intros Hg. apply unification_pairs_fold in Hg. cbn [app] in Hg.
  split; [exact Hg|]. intros Hf. subst pairs.
  unfold sequent_keys in Hf. rewrite forallb_app in Hf.
  apply andb_true_iff in Hf as [Hl Hr]. rewrite forallb_forall in Hl, Hr.
  apply Forall_forall. intros [a b] Hin.
  apply filter_In in Hin as [Hin Hu]. apply in_prod_iff in Hin as [Ha Hb].
  apply (unifiable_formulas fuel (a, b)); cbn [fst snd]; auto.
Qed.

Lemma get_unification_pairs_characterised_witness :
  let pairs := [(Predicate "P" [Term "t1" 1], Predicate "P" [Functor "a" [] 0])] in
  pairs = filter (unifiable 2)
            (list_prod (keys (left example_successor))
               (keys (right example_successor)))
  /\
  (forallb is_formula (sequent_keys example_successor) = true ->
   Forall (fun p => is_Predicate (fst p) = true /\
                    is_Predicate (snd p) = true) pairs).
Proof.
  apply get_unification_pairs_characterised. reflexivity.
Defined.



(** ** The rules on quantifiers, up to the creation times

    [formula.set_creation_time(depth)] in these four rules writes the
    [time] of every [Variable], [Term] and [Functor] object of the
    instance, and the instance shares with the quantified formula, with
    the instances made before and with the sequents that hold them the
    objects that [replace] has returned as they were.  The statements of
    this section say nothing of a time: dictionaries are compared after
    [reset_times], the frontier after [retime_sequent 0], and the rest is
    in terms of [==], of the counters and of names. *)

Lemma reset_times_app (d d' : list (Expr * Z)) :
  reset_times (d ++ d') = (reset_times d ++ reset_times d')%list.
Proof. apply map_app. Qed.


Lemma existsb_map {A B : Type} (p : B -> bool) (g : A -> B) (l : list A) :
  existsb p (map g l) = existsb (fun x => p (g x)) l.
Proof. induction l as [|x l IH]; simpl; [reflexivity | now rewrite IH]. Qed.

Lemma occurs_set_creation_time (e k : Expr) (t : Z) :
  occurs (set_creation_time e t) k = occurs e k.
Proof.
  induction e as [n u|n u|n ts u IH|n ts IH|f IH|f1 f2 IH1 IH2|f1 f2 IH1 IH2
    |f1 f2 IH1 IH2|v f IHv IHf|v f IHv IHf] using Expr_induction;
    cbn [set_creation_time occurs]; try congruence.
  - apply (eqb_congr_l (Term n t) (Term n u) k). apply String.eqb_refl.
  - rewrite existsb_map. apply existsb_ext_in. rewrite Forall_forall in IH.
    auto.
  - rewrite existsb_map. apply existsb_ext_in. rewrite Forall_forall in IH.
    auto.
Qed.

(** Equal expressions have the same unification terms. *)
Lemma occurs_congr_l (a b k : Expr) :
  eqb a b = true -> occurs a k = occurs b k.
Proof.
  intros E. apply eqb_erase in E.
  rewrite <- (occurs_set_creation_time a k 0),
    <- (occurs_set_creation_time b k 0).
  now rewrite E.
Qed.

(** The [Term] put for a [Variable] that is free in [e] is a unification
    term of the result. *)
Lemma occurs_instance (e x : Expr) (name : string) :
  is_Var x = true -> free_in e x = true ->
  occurs (replace e x (Term name 0)) (Term name 0) = true.
Proof.
  intros Hx.
  assert (Hne : forall e, is_Var e = false -> eqb e x = false).
  { intros e' He'. destruct x; try discriminate. now destruct e'. }
  induction e as [n u|n u|n ts u IH|n ts IH|f IH|f1 f2 IH1 IH2|f1 f2 IH1 IH2
    |f1 f2 IH1 IH2|v f IHv IHf|v f IHv IHf] using Expr_induction;
    rewrite replace_unfold; cbn [free_in]; try discriminate.
  - intros ->. simpl. apply String.eqb_refl.
  - rewrite Hne by reflexivity. cbn [occurs]. rewrite existsb_map.
    rewrite !existsb_exists. rewrite Forall_forall in IH.
    intros (c & Hc & Hf). exists c. auto.
  - rewrite Hne by reflexivity. cbn [occurs]. rewrite existsb_map.
    rewrite !existsb_exists. rewrite Forall_forall in IH.
    intros (c & Hc & Hf). exists c. auto.
  - rewrite Hne by reflexivity. cbn [occurs]. auto.
  - rewrite Hne by reflexivity. cbn [occurs]. rewrite !orb_true_iff.
    intros [|]; auto.
  - rewrite Hne by reflexivity. cbn [occurs]. rewrite !orb_true_iff.
    intros [|]; auto.
  - rewrite Hne by reflexivity. cbn [occurs]. rewrite !orb_true_iff.
    intros [|]; auto.
  - rewrite (Hne (ForAll v f)) by reflexivity. cbn [occurs].
    rewrite andb_true_iff. intros []; auto.
  - rewrite (Hne (ThereExists v f)) by reflexivity. cbn [occurs].
    rewrite andb_true_iff. intros []; auto.
Qed.


(** A formula that has the unification term of a name not taken is equal
    to no formula of the sequent. *)
Lemma fresh_term_is_new (s : Sequent) (name : string) (f : Expr) :
  name_taken s name = false ->
  occurs f (Term name 0) = true ->
  dict_mem (left s) f = false /\ dict_mem (right s) f = false.
Proof.
  unfold name_taken, sequent_keys, keys. rewrite existsb_app, !existsb_map.
  intros Hn Hf. apply orb_false_iff in Hn as [Hl Hr].
  split; unfold dict_mem; apply not_true_is_false; intros Hm;
    apply existsb_exists in Hm as (kv & Hin & E);
    rewrite <- (occurs_congr_l _ _ (Term name 0) E) in Hf.
  - enough (Ht : existsb (fun x => free_in (fst x) (Var name 0)
                                   || occurs (fst x) (Term name 0)) (left s)
                 = true) by congruence.
    apply existsb_exists. exists kv. now rewrite Hf, orb_true_r.
  - enough (Ht : existsb (fun x => free_in (fst x) (Var name 0)
                                   || occurs (fst x) (Term name 0)) (right s)
                 = true) by congruence.
    apply existsb_exists. exists kv. now rewrite Hf, orb_true_r.
Qed.

(** What either rule that keeps its quantifier leaves on the side it
    works on, [side] being that side of the parent and [new_side] that of
    the successor, [formula] the instance with its times set. *)
Lemma instance_added (side new_side : list (Expr * Z))
  (quantifier instance : Expr) (d t : Z) :
  dict_get side quantifier = Some d ->
  new_side
  = (if dict_mem side (set_creation_time instance t)
     then dict_set side quantifier (d + 1)
     else (dict_set side quantifier (d + 1)
           ++ [(set_creation_time instance t, d + 1)])%list) ->
  reset_times new_side
  = reset_times
      (if dict_mem side instance
       then dict_set side quantifier (d + 1)
       else (dict_set side quantifier (d + 1) ++ [(instance, d + 1)])%list) /\
  (forall k, dict_mem side k = true -> dict_mem new_side k = true) /\
  dict_mem new_side instance = true /\
  (dict_mem side instance = false ->
   new_side
   = (dict_set side quantifier (d + 1)
      ++ [(set_creation_time instance t, d + 1)])%list).
Proof.
  intros Hg ->. pose proof (dict_get_mem _ _ _ Hg) as Hm.
  rewrite dict_mem_set_creation_time.
  destruct (dict_mem side instance) eqn:Em; repeat split;
    try discriminate.
  - intros k Hk. now rewrite (dict_mem_set_present _ _ _ _ Hm).
  - now rewrite (dict_mem_set_present _ _ _ _ Hm).
  - rewrite !reset_times_app. f_equal. unfold reset_times. simpl.
    now rewrite set_creation_time_twice.
  - intros k Hk. rewrite dict_mem_app, (dict_mem_set_present _ _ _ _ Hm), Hk.
    reflexivity.
  - rewrite dict_mem_app. apply orb_true_iff. right. unfold dict_mem. simpl.
    now rewrite eqb_set_creation_time.
Qed.

(** C7.  When the quantified formula is a formula of the left side (of
    the right side) of a sequent, with a body that is no [Functor], the
    ∀-left rule (the ∃-right rule) returns and appends one successor to
    the frontier.  Up to the creation times, the successor has the other
    side as the parent has it and, on the side of the rule, the formulas
    of the parent with their counters, but for the quantified formula,
    which is still there with its counter plus one; the instance of the
    body for a [Term] named [t] and an index, a name that no free
    variable or unification term of the parent has, is appended with that
    same counter when no equal formula is on that side, and is not added
    when one is.  When the bound variable is free in the body, the
    instance is equal to no formula of the parent: it is added beside the
    instances made before, which stay.  The instance that is appended
    has the depth of the successor as the time of its every node. *)
Theorem quantifier_kept_counter_incremented
  (H : string -> Z) (st : state) (old_sequent : Sequent)
  (variable body : Expr) (d : Z) :
  forallb hashable_binders (sequent_keys old_sequent) = true ->
  is_Functor body = false ->
  (dict_get (left old_sequent) (ForAll variable body) = Some d ->
   exists st' new_sequent i,
     let name := "t" ++ str_of_nat i in
     let instance := replace body variable (Term name 0) in
     apply_left H st old_sequent (ForAll variable body) = Ok st' /\
     map (retime_sequent 0) (frontier st')
     = map (retime_sequent 0) (frontier st ++ [new_sequent])%list /\
     depth new_sequent = depth old_sequent + 1 /\
     name_taken old_sequent name = false /\
     reset_times (right new_sequent) = reset_times (right old_sequent) /\
     dict_get (left new_sequent) (ForAll variable body) = Some (d + 1) /\
     reset_times (left new_sequent)
     = reset_times
         (if dict_mem (left old_sequent) instance
          then dict_set (left old_sequent) (ForAll variable body) (d + 1)
          else (dict_set (left old_sequent) (ForAll variable body) (d + 1)
                ++ [(instance, d + 1)])%list) /\
     (forall k, dict_mem (left old_sequent) k = true ->
                dict_mem (left new_sequent) k = true) /\
     dict_mem (left new_sequent) instance = true /\
     (is_Var variable = true -> free_in body variable = true ->
      dict_mem (left old_sequent) instance = false) /\
     (dict_mem (left old_sequent) instance = false ->
      exists kept,
        left new_sequent
        = (kept ++ [(set_creation_time instance (depth old_sequent + 1),
                     d + 1)])%list /\
        reset_times kept
        = reset_times
            (dict_set (left old_sequent) (ForAll variable body) (d + 1)))) /\
  (dict_get (right old_sequent) (ThereExists variable body) = Some d ->
   exists st' new_sequent i,
     let name := "t" ++ str_of_nat i in
     let instance := replace body variable (Term name 0) in
     apply_right H st old_sequent (ThereExists variable body) = Ok st' /\
     map (retime_sequent 0) (frontier st')
     = map (retime_sequent 0) (frontier st ++ [new_sequent])%list /\
     depth new_sequent = depth old_sequent + 1 /\
     name_taken old_sequent name = false /\
     reset_times (left new_sequent) = reset_times (left old_sequent) /\
     dict_get (right new_sequent) (ThereExists variable body) = Some (d + 1) /\
     reset_times (right new_sequent)
     = reset_times
         (if dict_mem (right old_sequent) instance
          then dict_set (right old_sequent) (ThereExists variable body) (d + 1)
          else (dict_set (right old_sequent) (ThereExists variable body)
                  (d + 1)
                ++ [(instance, d + 1)])%list) /\
     (forall k, dict_mem (right old_sequent) k = true ->
                dict_mem (right new_sequent) k = true) /\
     dict_mem (right new_sequent) instance = true /\
     (is_Var variable = true -> free_in body variable = true ->
      dict_mem (right old_sequent) instance = false) /\
     (dict_mem (right old_sequent) instance = false ->
      exists kept,
        right new_sequent
        = (kept ++ [(set_creation_time instance (depth old_sequent + 1),
                     d + 1)])%list /\
        reset_times kept
        = reset_times
            (dict_set (right old_sequent) (ThereExists variable body)
               (d + 1)))).
Proof.
  intros Hh Hb.
  destruct (get_variable_name_spec old_sequent "t") as [Hname _].
  destruct (Hname Hh) as (i & _ & Hn & Hfresh & _).
  pose proof (sequent_free_variables_spec old_sequent) as Hfv.
  rewrite Hh in Hfv. destruct Hfv as (fv & Hfv & _).
  split; intros Hget.
  - destruct (proj1 (quantifier_rule_returns H st old_sequent variable body
                       d fv Hfv Hb) Hget) as (st' & Happ).
    destruct (proj1 (quantifier_rule_result H st old_sequent variable body
                       st') Happ)
      as (new_sequent & d' & name & Hf & Hd & Hr & Hg & Hg' & Hn' & Hl).
    rewrite Hget in Hg. injection Hg as <-.
    rewrite Hn in Hn'. injection Hn' as <-. cbn zeta in Hl.
    destruct (instance_added _ _ _ _ _ _ Hget Hl) as (He & Hk & Hi & Ha).
    exists st', new_sequent, i. cbn zeta.
    repeat split; auto; try congruence.
    + intros Hv Hx.
      now apply (fresh_term_is_new old_sequent ("t" ++ str_of_nat i)),
        occurs_instance.
    + intros Hnew. eexists. split; [exact (Ha Hnew) | reflexivity].
  - destruct (proj2 (quantifier_rule_returns H st old_sequent variable body
                       d fv Hfv Hb) Hget) as (st' & Happ).
    destruct (proj2 (quantifier_rule_result H st old_sequent variable body
                       st') Happ)
      as (new_sequent & d' & name & Hf & Hd & Hr & Hg & Hg' & Hn' & Hl).
    rewrite Hget in Hg. injection Hg as <-.
    rewrite Hn in Hn'. injection Hn' as <-. cbn zeta in Hl.
    destruct (instance_added _ _ _ _ _ _ Hget Hl) as (He & Hk & Hi & Ha).
    exists st', new_sequent, i. cbn zeta.
    repeat split; auto; try congruence.
    + intros Hv Hx.
      now apply (fresh_term_is_new old_sequent ("t" ++ str_of_nat i)),
        occurs_instance.
    + intros Hnew. eexists. split; [exact (Ha Hnew) | reflexivity].
Qed.

Lemma quantifier_kept_counter_incremented_witness :
  dict_mem (left example_successor) (Predicate "P" [Term "t1" 1]) = true /\
  exists st' new_sequent i,
    let name := "t" ++ str_of_nat i in
    let instance :=
      replace (Predicate "P" [Var "x" 0]) (Var "x" 0) (Term name 0) in
    apply_left length_hash example_state example_successor
      (ForAll (Var "x" 0) (Predicate "P" [Var "x" 0])) = Ok st' /\
    map (retime_sequent 0) (frontier st')
    = map (retime_sequent 0) (frontier example_state ++ [new_sequent])%list /\
    depth new_sequent = depth example_successor + 1 /\
    name_taken example_successor name = false /\
    reset_times (right new_sequent) = reset_times (right example_successor) /\
    dict_get (left new_sequent)
      (ForAll (Var "x" 0) (Predicate "P" [Var "x" 0])) = Some (1 + 1) /\
    reset_times (left new_sequent)
    = reset_times
        (if dict_mem (left example_successor) instance
         then dict_set (left example_successor)
                (ForAll (Var "x" 0) (Predicate "P" [Var "x" 0])) (1 + 1)
         else (dict_set (left example_successor)
                 (ForAll (Var "x" 0) (Predicate "P" [Var "x" 0])) (1 + 1)
               ++ [(instance, 1 + 1)])%list) /\
    (forall k, dict_mem (left example_successor) k = true ->
               dict_mem (left new_sequent) k = true) /\
    dict_mem (left new_sequent) instance = true /\
    (is_Var (Var "x" 0) = true ->
     free_in (Predicate "P" [Var "x" 0]) (Var "x" 0) = true ->
     dict_mem (left example_successor) instance = false) /\
    (dict_mem (left example_successor) instance = false ->
     exists kept,
       left new_sequent
       = (kept ++ [(set_creation_time instance (depth example_successor + 1),
                    1 + 1)])%list /\
       reset_times kept
       = reset_times
           (dict_set (left example_successor)
              (ForAll (Var "x" 0) (Predicate "P" [Var "x" 0])) (1 + 1))).
Proof.
  split; [reflexivity|].
  exact (proj1 (quantifier_kept_counter_incremented length_hash example_state
                  example_successor (Var "x" 0) (Predicate "P" [Var "x" 0]) 1
                  eq_refl eq_refl)
           eq_refl).
Defined.



(** ** Sibling sets that have lost the sequent processed *)

Lemma run_iterate (H : string -> Z) (set_iter : list Sequent -> list Sequent)
  (fuel k n : nat) : forall st st',
  iterate H set_iter fuel n st = Ok st' ->
  run H set_iter fuel (n + S k) st = run H set_iter fuel (S k) st'.
Proof.
  induction n as [|n IH]; intros st st'; cbn [iterate].
  - now intros [= <-].
  - change (S n + S k)%nat with (S (n + S k)). cbn [run].
    destruct (step H set_iter fuel st) as [[st1|b]| |] eqn:Es; cbn [bind];
      try discriminate.
    + apply IH.
    + intros [= <-]. cbn [run]. rewrite Es. cbn [bind].
      destruct (n + S k)%nat; reflexivity.
Qed.

Lemma step_removes_absent_sibling (H : string -> Z)
  (set_iter : list Sequent -> list Sequent) (fuel : nat) (st : state)
  (old : Sequent) (rest : list Sequent) (a : nat)
  (lists : list (list (Expr * Expr))) :
  dequeue H (proven st) (frontier st) = Some (old, rest) ->
  common_key old = false ->
  siblings old = Some a ->
  map_res (get_unification_pairs fuel) (set_iter (store_get (store st) a))
  = Ok lists ->
  forallb (fun pair_list => Nat.ltb 0 (length pair_list)) lists = false ->
  in_set H (store_get (store st) a) old = false ->
  step H set_iter fuel st = Raise KeyError.
Proof.
  intros Hd Hc Hs Hl Hne Hin. unfold step, process. rewrite Hd.
  cbn [frontier proven store]. unfold common_key in Hc. rewrite Hc, Hs, Hl.
  cbn [bind]. rewrite Hne. unfold remove. now rewrite Hin.
Qed.

(** X24: an iteration raises [KeyError] when the sequent that it
    processes has a sibling set of which it is no member (an equal sequent
    was removed from it before), no formula on both sides, and a sibling
    without a unifiable pair: [siblings.remove] is called on an absent
    element.  The search for [∃x. (¬Q(x) ∧ ¬Q(x))] ends so, in its eighth
    iteration. *)
Theorem removal_of_an_absent_sibling_raises
  (H : string -> Z) (set_iter : list Sequent -> list Sequent)
  (fuel n k : nat) (st st' : state) (old : Sequent) (rest : list Sequent)
  (a : nat) (lists : list (list (Expr * Expr))) :
  iterate H set_iter fuel n st = Ok st' ->
  dequeue H (proven st') (frontier st') = Some (old, rest) ->
  common_key old = false ->
  siblings old = Some a ->
  map_res (get_unification_pairs fuel) (set_iter (store_get (store st') a))
  = Ok lists ->
  forallb (fun pair_list => Nat.ltb 0 (length pair_list)) lists = false ->
  in_set H (store_get (store st') a) old = false ->
  run H set_iter fuel (n + S k) st = Raise KeyError.
Proof.
  intros Hit Hd Hc Hs Hl Hne Hin.
  rewrite (run_iterate H set_iter fuel k n st st' Hit). cbn [run].
  now rewrite (step_removes_absent_sibling H set_iter fuel st' old rest a lists).
Qed.

Lemma removal_of_an_absent_sibling_raises_witness :
  prove_formula length_hash (fun S => S) 1 8 [] twice_the_same
  = Raise KeyError.
Proof.
  change (run length_hash (fun S => S) 1 (7 + 1)
            (initial_state (goal_sequent [] twice_the_same))
          = Raise KeyError).
  eapply (removal_of_an_absent_sibling_raises length_hash (fun S => S) 1 7 0
            _ state_before_the_removal).
  - vm_compute. reflexivity.
  - reflexivity.
  - reflexivity.
  - reflexivity.
  - reflexivity.
  - reflexivity.
  - reflexivity.
Defined.

Lemma filter_all {A : Type} (p : A -> bool) (l : list A) :
  (forall x, p x = true) -> filter p l = l.
Proof.
  intros Hp. induction l as [|x l IH]; simpl; [reflexivity|].
  now rewrite Hp, IH.
Qed.

(** X25: a sequent whose sibling set is empty when it is processed
    is dropped: the loop over the choices runs on no sibling, [unify_list]
    of no pair returns the empty substitution, and the iteration ends with
    the frontier less that sequent, [proven] as it was and nothing
    expanded. *)
Theorem empty_sibling_set_closes_the_sequent
  (H : string -> Z) (set_iter : list Sequent -> list Sequent)
  (fuel : nat) (st : state) (old : Sequent) (rest : list Sequent) (a : nat) :
  set_iter [] = [] ->
  dequeue H (proven st) (frontier st) = Some (old, rest) ->
  common_key old = false ->
  siblings old = Some a ->
  store_get (store st) a = [] ->
  step H set_iter fuel st
  = Ok (Continue (mkState rest (proven st) (store st))).
Proof.
  intros Hi Hd Hc Hs Hg. unfold step, process. rewrite Hd.
  cbn [frontier proven store]. unfold common_key in Hc. rewrite Hc, Hs, Hg, Hi.
  cbn [map_res bind forallb map selections fold_right search selection].
  unfold unify_list. cbn [unify_loop bind]. unfold close_siblings.
  cbn [frontier proven store union fold_left]. rewrite filter_all; auto.
Qed.

Lemma empty_sibling_set_closes_the_sequent_witness :
  iterate length_hash (fun S => S) 1 4
    (initial_state (goal_sequent [] twice_the_same))
  = Ok state_with_an_empty_sibling_set /\
  exists old rest,
    dequeue length_hash (proven state_with_an_empty_sibling_set)
      (frontier state_with_an_empty_sibling_set) = Some (old, rest) /\
    step length_hash (fun S => S) 1 state_with_an_empty_sibling_set
    = Ok (Continue (mkState rest (proven state_with_an_empty_sibling_set)
                      (store state_with_an_empty_sibling_set))).
Proof.
  split; [vm_compute; reflexivity|].
  eexists. eexists. split; [reflexivity|].
  eapply (empty_sibling_set_closes_the_sequent length_hash (fun S => S) 1);
    reflexivity.
Defined.
